(** * gengine physics core: boxes, rigid bodies, engine tick, movement controller

    A shallow embedding of the Go package [physics] (box.go, the rigid body,
    the physics engine and movement.go) together with the properties of its
    specification.

    Numbers.  The Go code computes on [float32].  The code is embedded once,
    over an interface [Float32Ops] that lists the scalar operations the
    source uses, and is then read at two interpretations:

    - [binary32]: IEEE 754 single precision, built from the Standard
      Library's [SpecFloat] with [prec = 24] and [emax = 128]; this is the
      arithmetic the compiled program performs (every operation rounded to
      nearest even on its own, signed zeros, infinities, NaN) and it is
      executable;
    - [exactR]: the real numbers, every operation exact; it is used for the
      properties that are statements of exact arithmetic (a margin that is
      kept, a magnitude equal to the speed).

    Properties that depend only on control flow are proved for every
    interpretation of the interface.

    Data.  A [*Box] is an [option (Box F)], a slice a [list], an [int] a
    [Z]; a method with a pointer receiver takes the body and returns the
    body it leaves.  The loops of [Move] are fixpoints on the number of
    iterations left.  The vector operations are those of [mgl32]
    ([Add], [Sub], [Mul], [Len], [Normalize], [Abs]). *)

From Stdlib Require Import ZArith List Bool Lia.
From Stdlib Require Import Reals Lra.
From Stdlib Require Import SpecFloat.
Import ListNotations.

Set Implicit Arguments.

(** ** The scalar interface *)

(** The operations of Go's [float32] that the package uses.  [f_of_Z] is the
    conversion [float32(n)] of an [int], [f_trunc] the conversion [int(x)]. *)
Class Float32Ops (F : Type) : Type := {
  f_add : F -> F -> F;
  f_sub : F -> F -> F;
  f_mul : F -> F -> F;
  f_div : F -> F -> F;
  f_neg : F -> F;
  f_sqrt : F -> F;
  f_ltb : F -> F -> bool;
  f_gtb : F -> F -> bool;
  f_eqb : F -> F -> bool;
  f_of_Z : Z -> F;
  f_trunc : F -> Z
}.

Declare Scope f32_scope.
Delimit Scope f32_scope with f32.
Infix "+" := f_add : f32_scope.
Infix "-" := f_sub : f32_scope.
Infix "*" := f_mul : f32_scope.
Infix "/" := f_div : f32_scope.
Notation "- x" := (f_neg x) : f32_scope.
Infix "<?" := f_ltb : f32_scope.
Infix ">?" := f_gtb : f32_scope.
Infix "=?" := f_eqb : f32_scope.

(** ** mgl32.Vec3 *)

Record Vec3 (F : Type) : Type := mkVec3 { vX : F; vY : F; vZ : F }.

Arguments mkVec3 {F} _ _ _.
Arguments vX {F} _.
Arguments vY {F} _.
Arguments vZ {F} _.

(** ** Box *)

Record Box (F : Type) : Type := NewBox { Min : Vec3 F; Max : Vec3 F }.

Arguments NewBox {F} _ _.
Arguments Min {F} _.
Arguments Max {F} _.

Section Geometry.
Context {F : Type} {ops : Float32Ops F}.
Local Open Scope f32_scope.

(** A decimal literal [n/d] of the source ([0.001], [0.2], ...): the
    constant is converted to the nearest [float32], which is what the
    correctly rounded quotient of the two integers is. *)
Definition f_lit (n : Z) (d : Z) : F := f_of_Z n / f_of_Z d.

Definition f0 : F := f_of_Z 0.
Definition f1 : F := f_of_Z 1.

(** [mgl32.Vec3{}] *)
Definition Vzero : Vec3 F := mkVec3 f0 f0 f0.

Definition Vadd (a b : Vec3 F) : Vec3 F :=
  mkVec3 (vX a + vX b) (vY a + vY b) (vZ a + vZ b).

Definition Vsub (a b : Vec3 F) : Vec3 F :=
  mkVec3 (vX a - vX b) (vY a - vY b) (vZ a - vZ b).

Definition Vmul (a : Vec3 F) (c : F) : Vec3 F :=
  mkVec3 (vX a * c) (vY a * c) (vZ a * c).

(** [Vec3.Len]: the square root is taken in [float64] and rounded back,
    which for a [float32] argument is the correctly rounded [float32]
    square root. *)
Definition Vlen (a : Vec3 F) : F :=
  f_sqrt (vX a * vX a + vY a * vY a + vZ a * vZ a).

(** [Vec3.Normalize] *)
Definition Vnormalize (a : Vec3 F) : Vec3 F :=
  let l := f1 / Vlen a in
  mkVec3 (vX a * l) (vY a * l) (vZ a * l).

(** [mgl32.Abs] *)
Definition f_abs (a : F) : F :=
  if a <? f0 then - a else if a =? f0 then f0 else a.

Definition minf (a b : F) : F := if a <? b then a else b.

Definition maxf (a b : F) : F := if a >? b then a else b.

Definition signF (x : F) : F := if x <? f0 then f_of_Z (-1) else f_of_Z 1.

Definition IntersectionXZ (b other : Box F) : bool * Vec3 F :=
  if (vX (Max b) <? vX (Min other)) || (vX (Min b) >? vX (Max other)) ||
     (vZ (Max b) <? vZ (Min other)) || (vZ (Min b) >? vZ (Max other))
  then (false, Vzero)
  else
    let dx1 := vX (Max other) - vX (Min b) in
    let dx2 := vX (Max b) - vX (Min other) in
    let dx := minf dx1 dx2 in
    let dz1 := vZ (Max other) - vZ (Min b) in
    let dz2 := vZ (Max b) - vZ (Min other) in
    let dz := minf dz1 dz2 in
    if dx <? dz
    then (true, mkVec3 (dx * signF (dx1 - dx2)) f0 f0)
    else (true, mkVec3 f0 f0 (dz * signF (dz1 - dz2))).

Definition IntersectionY (b other : Box F) : bool * F :=
  if (vX (Max b) <? vX (Min other)) || (vX (Min b) >? vX (Max other)) ||
     (vZ (Max b) <? vZ (Min other)) || (vZ (Min b) >? vZ (Max other))
  then (false, f0)
  else if (vY (Min b) >? vY (Max other)) || (vY (Max b) <? vY (Min other))
  then (false, f0)
  else
    let dy1 := vY (Max other) - vY (Min b) in
    let dy2 := vY (Max b) - vY (Min other) in
    let dy := minf dy1 dy2 in
    (true, dy).

Definition Intersection (b other : Box F) : bool * Vec3 F :=
  if (vX (Max b) <? vX (Min other)) || (vX (Min b) >? vX (Max other)) ||
     (vY (Max b) <? vY (Min other)) || (vY (Min b) >? vY (Max other)) ||
     (vZ (Max b) <? vZ (Min other)) || (vZ (Min b) >? vZ (Max other))
  then (false, Vzero)
  else
    let dx1 := vX (Max other) - vX (Min b) in
    let dx2 := vX (Max b) - vX (Min other) in
    let dx := minf dx1 dx2 in
    let dy1 := vY (Max other) - vY (Min b) in
    let dy2 := vY (Max b) - vY (Min other) in
    let dy := minf dy1 dy2 in
    let dz1 := vZ (Max other) - vZ (Min b) in
    let dz2 := vZ (Max b) - vZ (Min other) in
    let dz := minf dz1 dz2 in
    if (dx <? dy) && (dx <? dz)
    then (true, mkVec3 (dx * signF (dx1 - dx2)) f0 f0)
    else if (dy <? dx) && (dy <? dz)
    then (true, mkVec3 f0 (dy * signF (dy1 - dy2)) f0)
    else (true, mkVec3 f0 f0 (dz * signF (dz1 - dz2))).

End Geometry.

(** ** RigidBody *)

(** [Collider] is a [*Box] (nil until the first rebuild); the callback
    [OnPositionUpdated] is held by the engine's registration below. *)
Record RigidBody (F : Type) : Type := mkRigidBody {
  Collider : option (Box F);
  PositionHistory : list (Vec3 F);
  TripDistance : F;
  Position : Vec3 F;
  Velocity : Vec3 F;
  Force : Vec3 F;
  Mass : F;
  Width : F;
  Height : F;
  Flying : bool;
  Grounded : bool;
  JumpSpeed : F;
  Gravity : F;
  PenetrationEpsilonSmall : F;
  PenetrationEpsilonBig : F;
  AirMovementSuppression : F;
  FlyingSpeedMultipier : F;
  PositionHistoryLength : Z
}.

Section FieldUpdates.
Context {F : Type}.

Definition set_Collider (c : option (Box F)) (r : RigidBody F) : RigidBody F :=
  mkRigidBody c (PositionHistory r) (TripDistance r) (Position r)
    (Velocity r) (Force r) (Mass r) (Width r) (Height r) (Flying r)
    (Grounded r) (JumpSpeed r) (Gravity r) (PenetrationEpsilonSmall r)
    (PenetrationEpsilonBig r) (AirMovementSuppression r)
    (FlyingSpeedMultipier r) (PositionHistoryLength r).

Definition set_PositionHistory (h : list (Vec3 F)) (r : RigidBody F) : RigidBody F :=
  mkRigidBody (Collider r) h (TripDistance r) (Position r)
    (Velocity r) (Force r) (Mass r) (Width r) (Height r) (Flying r)
    (Grounded r) (JumpSpeed r) (Gravity r) (PenetrationEpsilonSmall r)
    (PenetrationEpsilonBig r) (AirMovementSuppression r)
    (FlyingSpeedMultipier r) (PositionHistoryLength r).

Definition set_TripDistance (d : F) (r : RigidBody F) : RigidBody F :=
  mkRigidBody (Collider r) (PositionHistory r) d (Position r)
    (Velocity r) (Force r) (Mass r) (Width r) (Height r) (Flying r)
    (Grounded r) (JumpSpeed r) (Gravity r) (PenetrationEpsilonSmall r)
    (PenetrationEpsilonBig r) (AirMovementSuppression r)
    (FlyingSpeedMultipier r) (PositionHistoryLength r).

Definition set_Position (p : Vec3 F) (r : RigidBody F) : RigidBody F :=
  mkRigidBody (Collider r) (PositionHistory r) (TripDistance r) p
    (Velocity r) (Force r) (Mass r) (Width r) (Height r) (Flying r)
    (Grounded r) (JumpSpeed r) (Gravity r) (PenetrationEpsilonSmall r)
    (PenetrationEpsilonBig r) (AirMovementSuppression r)
    (FlyingSpeedMultipier r) (PositionHistoryLength r).

Definition set_Velocity (v : Vec3 F) (r : RigidBody F) : RigidBody F :=
  mkRigidBody (Collider r) (PositionHistory r) (TripDistance r) (Position r)
    v (Force r) (Mass r) (Width r) (Height r) (Flying r)
    (Grounded r) (JumpSpeed r) (Gravity r) (PenetrationEpsilonSmall r)
    (PenetrationEpsilonBig r) (AirMovementSuppression r)
    (FlyingSpeedMultipier r) (PositionHistoryLength r).

Definition set_Force (f : Vec3 F) (r : RigidBody F) : RigidBody F :=
  mkRigidBody (Collider r) (PositionHistory r) (TripDistance r) (Position r)
    (Velocity r) f (Mass r) (Width r) (Height r) (Flying r)
    (Grounded r) (JumpSpeed r) (Gravity r) (PenetrationEpsilonSmall r)
    (PenetrationEpsilonBig r) (AirMovementSuppression r)
    (FlyingSpeedMultipier r) (PositionHistoryLength r).

Definition set_Flying (b : bool) (r : RigidBody F) : RigidBody F :=
  mkRigidBody (Collider r) (PositionHistory r) (TripDistance r) (Position r)
    (Velocity r) (Force r) (Mass r) (Width r) (Height r) b
    (Grounded r) (JumpSpeed r) (Gravity r) (PenetrationEpsilonSmall r)
    (PenetrationEpsilonBig r) (AirMovementSuppression r)
    (FlyingSpeedMultipier r) (PositionHistoryLength r).

Definition set_Grounded (b : bool) (r : RigidBody F) : RigidBody F :=
  mkRigidBody (Collider r) (PositionHistory r) (TripDistance r) (Position r)
    (Velocity r) (Force r) (Mass r) (Width r) (Height r) (Flying r)
    b (JumpSpeed r) (Gravity r) (PenetrationEpsilonSmall r)
    (PenetrationEpsilonBig r) (AirMovementSuppression r)
    (FlyingSpeedMultipier r) (PositionHistoryLength r).

End FieldUpdates.

Section Body.
Context {F : Type} {ops : Float32Ops F}.
Local Open Scope f32_scope.

Definition DefaultJumpSpeed : F := f_of_Z 3.
Definition DefaultGravity : F := f_of_Z 12.
Definition DefaultPenetrationEpsilonSmall : F := f_lit 1 10.
Definition DefaultPenetrationEpsilonBig : F := f_of_Z 1.
Definition DefaultAirMovementSuppression : F := f_lit 7 10.
Definition DefaultFlyingSpeedMultipier : F := f_of_Z 2.
Definition DefaultPositionHistoryLength : Z := 20.
Definition DefaultTerminalVelocity : F := f_of_Z (-10).

Definition NewRigidBody (position : Vec3 F) (mass width height : F) : RigidBody F :=
  {| Collider := None;
     PositionHistory := [];
     TripDistance := f0;
     Position := position;
     Velocity := Vzero;
     Force := Vzero;
     Mass := mass;
     Width := width;
     Height := height;
     Flying := false;
     Grounded := false;
     JumpSpeed := DefaultJumpSpeed;
     Gravity := DefaultGravity;
     PenetrationEpsilonSmall := DefaultPenetrationEpsilonSmall;
     PenetrationEpsilonBig := DefaultPenetrationEpsilonBig;
     AirMovementSuppression := DefaultAirMovementSuppression;
     FlyingSpeedMultipier := DefaultFlyingSpeedMultipier;
     PositionHistoryLength := DefaultPositionHistoryLength |}.

(** The box both collider rebuilds construct for a position. *)
Definition colliderAt (r : RigidBody F) (position : Vec3 F) : Box F :=
  {| Min := Vsub position
              (mkVec3 (Width r / f_of_Z 2) (Height r) (Width r / f_of_Z 2));
     Max := Vadd position
              (mkVec3 (Width r / f_of_Z 2) f0 (Width r / f_of_Z 2)) |}.

Definition UpdateCollider (r : RigidBody F) : RigidBody F :=
  set_Collider (Some (colliderAt r (Position r))) r.

Definition UpdateColliderAtPosition (position : Vec3 F) (r : RigidBody F) : RigidBody F :=
  set_Collider (Some (colliderAt r position)) r.

Definition Jump (r : RigidBody F) : RigidBody F :=
  if Grounded r
  then set_Grounded false
         (set_Velocity (mkVec3 (vX (Velocity r)) (JumpSpeed r) (vZ (Velocity r))) r)
  else r.

(** [s[:len(s)-1]] *)
Definition dropLast (h : list (Vec3 F)) : list (Vec3 F) := removelast h.

Definition AppendHistory (r : RigidBody F) : RigidBody F :=
  let h := Position r :: PositionHistory r in
  if (PositionHistoryLength r <? Z.of_nat (length h))%Z
  then set_PositionHistory (dropLast h) r
  else set_PositionHistory h r.

(** The inner loop over the walls: [hasCollision] after it. *)
Fixpoint hasCollision (c : Box F) (walls : list (Box F)) : bool :=
  match walls with
  | [] => false
  | wall :: rest =>
      if fst (Intersection c wall) then true else hasCollision c rest
  end.

(** The tentative collider of a body; the loops only read it right after
    [UpdateColliderAtPosition], when it is not nil. *)
Definition tentativeHit (r : RigidBody F) (walls : list (Box F)) : bool :=
  match Collider r with
  | Some c => hasCollision c walls
  | None => false
  end.

(** Ground handling, lines 81-103 of Move. *)
Definition groundPhase (ground : option (Box F)) (r : RigidBody F) : RigidBody F :=
  let wasGrounded := Grounded r in
  match ground with
  | Some g =>
      let r1 :=
        if negb wasGrounded
        then set_Velocity (mkVec3 (vX (Velocity r)) f0 (vZ (Velocity r))) r
        else r in
      let r2 := set_Grounded true r1 in
      match Collider r2 with
      | Some c =>
          let '(b, depth) := IntersectionY g c in
          if b && (depth >? f_lit 1 1000)
          then UpdateCollider
                 (set_Position
                    (Vadd (Position r2) (mkVec3 f0 (depth + f_lit 2 10) f0)) r2)
          else r2
      | None => r2
      end
  | None => set_Grounded false r
  end.

(** The two multipliers applied to [movement], lines 106-113. *)
Definition dampMovement (r : RigidBody F) (movement : Vec3 F) : Vec3 F :=
  let movement :=
    if negb (Grounded r) && negb (Flying r)
    then Vmul movement (AirMovementSuppression r)
    else movement in
  if Flying r then Vmul movement (FlyingSpeedMultipier r) else movement.

Definition verticalMoveOf (r : RigidBody F) (movement : Vec3 F) : Vec3 F :=
  if negb (Flying r) && negb (Grounded r)
  then mkVec3 f0 (vY (Velocity r)) f0
  else if Flying r
  then mkVec3 f0 (vY movement) f0
  else mkVec3 f0 f0 f0.

(** [steps] of the vertical sweep, line 129. *)
Definition verticalSteps (verticalMove : Vec3 F) : Z :=
  (f_trunc (f_abs (vY verticalMove) * f_of_Z 5)%f32 + 1)%Z.

(** The loop of lines 132-157, [n] iterations left. *)
Fixpoint verticalLoop (n : nat) (stepMove : Vec3 F) (walls : list (Box F))
    (r : RigidBody F) : RigidBody F :=
  match n with
  | O => r
  | S n' =>
      let tempPos := Vadd (Position r) stepMove in
      let r1 := UpdateColliderAtPosition tempPos r in
      if negb (tentativeHit r1 walls)
      then verticalLoop n' stepMove walls (set_Position tempPos r1)
      else
        let r2 :=
          if vY (Velocity r1) <? f0 then set_Grounded true r1 else r1 in
        set_Velocity (mkVec3 (vX (Velocity r2)) f0 (vZ (Velocity r2))) r2
  end.

Definition verticalSweep (movement : Vec3 F) (walls : list (Box F))
    (r : RigidBody F) : RigidBody F :=
  let verticalMove := verticalMoveOf r movement in
  if Vlen verticalMove >? f0
  then
    let steps := verticalSteps verticalMove in
    let stepMove := Vmul verticalMove (f1 / f_of_Z steps) in
    verticalLoop (Z.to_nat steps) stepMove walls r
  else r.

(** The loop of lines 167-187. *)
Fixpoint horizontalLoop (n : nat) (stepMove : Vec3 F) (walls : list (Box F))
    (r : RigidBody F) : RigidBody F :=
  match n with
  | O => r
  | S n' =>
      let tempPos := Vadd (Position r) stepMove in
      let r1 := UpdateColliderAtPosition tempPos r in
      if negb (tentativeHit r1 walls)
      then horizontalLoop n' stepMove walls (set_Position tempPos r1)
      else r1
  end.

Definition horizontalSweep (movement : Vec3 F) (walls : list (Box F))
    (r : RigidBody F) : RigidBody F :=
  let horizMove := mkVec3 (vX movement) f0 (vZ movement) in
  if Vlen horizMove >? f_lit 1 1000
  then
    let steps := 4%Z in
    let stepMove := Vmul horizMove (f1 / f_of_Z steps) in
    horizontalLoop (Z.to_nat steps) stepMove walls r
  else r.

Definition isSome {A : Type} (o : option A) : bool :=
  match o with Some _ => true | None => false end.

Definition Move (movement : Vec3 F) (ground ceiling : option (Box F))
    (walls : list (Box F)) (r : RigidBody F) : RigidBody F :=
  let r := groundPhase ground r in
  let movement := dampMovement r movement in
  if isSome (Collider r) && (0 <? Z.of_nat (length walls))%Z
  then UpdateCollider (horizontalSweep movement walls (verticalSweep movement walls r))
  else
    let r := set_Position (Vadd (Position r) movement) r in
    let r :=
      if negb (Flying r)
      then set_Position (Vadd (Position r) (mkVec3 f0 (vY (Velocity r)) f0)) r
      else r in
    UpdateCollider r.

End Body.

(** ** PhysicsEngine *)

Module PhysicsEngine.
Section Engine.
Context {F : Type} {ops : Float32Ops F}.
Local Open Scope f32_scope.

(** A registered body with its [OnPositionUpdated] callback (nil or a
    function that may mutate the body it is given). *)
Record Registration : Type := mkRegistration {
  body : RigidBody F;
  OnPositionUpdated : option (RigidBody F -> RigidBody F)
}.

(** [delta] is the tick length after its conversion [float32(delta)]. *)
Definition update (delta : F) (body : RigidBody F) : RigidBody F :=
  let body :=
    if negb (Grounded body) && negb (Flying body)
    then
      let gravityForce := mkVec3 f0 (Mass body * - Gravity body) f0 in
      set_Force (Vadd (Force body) gravityForce) body
    else body in
  let acc := Vmul (Force body) (f1 / Mass body) in
  let body := set_Velocity (Vadd (Velocity body) (Vmul acc delta)) body in
  let body :=
    if vY (Velocity body) <? DefaultTerminalVelocity
    then set_Velocity
           (mkVec3 (vX (Velocity body)) DefaultTerminalVelocity (vZ (Velocity body)))
           body
    else body in
  let body :=
    if Grounded body && (vY (Velocity body) <? f0)
    then set_Velocity (mkVec3 (vX (Velocity body)) f0 (vZ (Velocity body))) body
    else body in
  let dpos := Vmul (Velocity body) delta in
  let body := AppendHistory body in
  let body := set_Position (Vadd (Position body) dpos) body in
  let body := UpdateCollider body in
  let body := set_TripDistance (TripDistance body + Vlen dpos) body in
  let body :=
    if (Vlen dpos =? f0) && (TripDistance body >? f0)
    then set_TripDistance f0 body
    else body in
  set_Force Vzero body.

(** One registration's share of [Tick]: [update], then the callback. *)
Definition tickOne (delta : F) (reg : Registration) : Registration :=
  let b := update delta (body reg) in
  match OnPositionUpdated reg with
  | Some callback => mkRegistration (callback b) (OnPositionUpdated reg)
  | None => mkRegistration b (OnPositionUpdated reg)
  end.

(** The registered bodies do not interact, so the order in which the Go
    map is ranged over does not matter; a list stands for it. *)
Definition Tick (delta : F) (registrations : list Registration) : list Registration :=
  map (tickOne delta) registrations.

End Engine.
End PhysicsEngine.

(** ** MovementController *)

Module MovementController.
Section Controller.
Context {F : Type} {ops : Float32Ops F}.
Local Open Scope f32_scope.

Record t : Type := mk {
  Body : RigidBody F;
  Speed : F;
  JumpForce : F;
  Flying : bool
}.

Definition Move (m : t) (forward right up : F) (viewVector rightVector : Vec3 F)
    : Vec3 F :=
  let flatViewVector := mkVec3 (vX viewVector) f0 (vZ viewVector) in
  let flatViewVector :=
    if Vlen flatViewVector >? f0 then Vnormalize flatViewVector
    else flatViewVector in
  let flatRightVector := mkVec3 (vX rightVector) f0 (vZ rightVector) in
  let flatRightVector :=
    if Vlen flatRightVector >? f0 then Vnormalize flatRightVector
    else flatRightVector in
  let movement := Vadd (Vmul flatViewVector forward) (Vmul flatRightVector right) in
  let movement :=
    if Flying m then Vadd movement (mkVec3 f0 up f0) else movement in
  if Vlen movement >? f0
  then Vmul (Vnormalize movement) (Speed m)
  else movement.

End Controller.
End MovementController.

Arguments MovementController.t F : clear implicits.
Arguments PhysicsEngine.Registration F : clear implicits.

(** ** IEEE 754 binary32 *)

Module B32.
Local Open Scope Z_scope.

Definition prec : Z := 24.
Definition emax : Z := 128.

Definition add := SFadd prec emax.
Definition sub := SFsub prec emax.
Definition mul := SFmul prec emax.
Definition div := SFdiv prec emax.
Definition sqrt := SFsqrt prec emax.

Definition ltb (x y : spec_float) : bool := SFltb x y.

Definition gtb (x y : spec_float) : bool :=
  match SFcompare x y with
  | Some Gt => true
  | _ => false
  end.

Definition eqb (x y : spec_float) : bool := SFeqb x y.

Definition of_Z (n : Z) : spec_float := binary_normalize prec emax n 0 false.

(** The integer a finite float denotes once its fraction is dropped. *)
Definition trunc_finite (s : bool) (m : positive) (e : Z) : Z :=
  cond_Zopp s
    (match e with
     | Z0 => Zpos m
     | Zpos p => Zpos m * 2 ^ Zpos p
     | Zneg p => Zpos m / 2 ^ Zpos p
     end).

Definition int64_min : Z := - 2 ^ 63.

(** [int(x)] for a [float32] [x] on a 64-bit target: truncation toward
    zero; NaN, the infinities and values outside [int64] give the
    "integer indefinite" value of the amd64 conversion instruction (Go
    leaves these cases to the implementation). *)
Definition trunc (x : spec_float) : Z :=
  match x with
  | S754_zero _ => 0
  | S754_finite s m e =>
      let n := trunc_finite s m e in
      if (int64_min <=? n) && (n <? 2 ^ 63) then n else int64_min
  | _ => int64_min
  end.

(** Classification of a float, as needed to state side conditions. *)
Definition is_zero (x : spec_float) : bool :=
  match x with S754_zero _ => true | _ => false end.

Definition is_finite (x : spec_float) : bool :=
  match x with S754_zero _ | S754_finite _ _ _ => true | _ => false end.

(** A finite float in its canonical representation, which is the one every
    [float32] value has. *)
Definition valid (x : spec_float) : bool :=
  is_finite x && valid_binary prec emax x.

End B32.

#[export] Instance binary32 : Float32Ops spec_float := {|
  f_add := B32.add;
  f_sub := B32.sub;
  f_mul := B32.mul;
  f_div := B32.div;
  f_neg := SFopp;
  f_sqrt := B32.sqrt;
  f_ltb := B32.ltb;
  f_gtb := B32.gtb;
  f_eqb := B32.eqb;
  f_of_Z := B32.of_Z;
  f_trunc := B32.trunc
|}.

(** ** Exact real arithmetic *)

Module ExactR.

Definition ltb (x y : R) : bool := if Rlt_dec x y then true else false.
Definition gtb (x y : R) : bool := if Rgt_dec x y then true else false.
Definition eqb (x y : R) : bool := if Req_dec_T x y then true else false.

(** Truncation toward zero. *)
Definition trunc (x : R) : Z :=
  if Rlt_dec x 0 then (1 - up (- x))%Z else (up x - 1)%Z.

End ExactR.

#[export] Instance exactR : Float32Ops R := {|
  f_add := Rplus;
  f_sub := Rminus;
  f_mul := Rmult;
  f_div := Rdiv;
  f_neg := Ropp;
  f_sqrt := sqrt;
  f_ltb := ExactR.ltb;
  f_gtb := ExactR.gtb;
  f_eqb := ExactR.eqb;
  f_of_Z := IZR;
  f_trunc := ExactR.trunc
|}.

(** ** Concrete bodies and boxes used below *)

Definition fz (n : Z) : spec_float := B32.of_Z n.
Definition vz (x y z : Z) : Vec3 spec_float := mkVec3 (fz x) (fz y) (fz z).

(** Two boxes that overlap by 1 along X, by 1 along Y and by 3 along Z. *)
Definition boxA : Box spec_float := NewBox (vz 0 0 0) (vz 2 2 4).
Definition boxB : Box spec_float := NewBox (vz 1 1 1) (vz 3 3 5).

(** An airborne body at [(0, 2, 0)], one unit wide and two high, with its
    collider built, and a ground box whose top, at [y = 0.5], is 0.5 above
    the collider's bottom. *)
Definition body0 : RigidBody spec_float :=
  UpdateCollider (NewRigidBody (vz 0 2 0) (fz 70) (fz 1) (fz 2)).

Definition ground0 : Box spec_float :=
  NewBox (vz (-1) (-1) (-1)) (mkVec3 (fz 1) (f_lit 1 2) (fz 1)).

(** A grounded body standing at [(0, 2, 0)], one unit wide and two high,
    with its collider built: the collider spans [y] from 0 to 2. *)
Definition bodyG : RigidBody spec_float :=
  UpdateCollider (set_Grounded true (NewRigidBody (vz 0 2 0) (fz 70) (fz 1) (fz 2))).

(** A block hanging above that body, from [y = 2.5] to [y = 3.5]. *)
Definition wallC : Box spec_float :=
  NewBox (mkVec3 (fz (-1)) (f_lit 5 2) (fz (-1))) (mkVec3 (fz 1) (f_lit 7 2) (fz 1)).

(** A block beside it, from [x = 1] to [x = 2]. *)
Definition wallX : Box spec_float := NewBox (vz 1 0 (-1)) (vz 2 3 1).

(** A horizontal movement of length 0.0005. *)
Definition tinyMove : Vec3 spec_float := mkVec3 (f_lit 1 2000) (fz 0) (fz 0).

(** An airborne body at [(0, 10, 0)] falling with vertical velocity [-1]. *)
Definition bodyFall : RigidBody spec_float :=
  UpdateCollider
    (set_Velocity (vz 0 (-1) 0) (NewRigidBody (vz 0 10 0) (fz 70) (fz 1) (fz 2))).

(** A grounded body pushed down by a force: its integrated vertical
    velocity is negative before the clamp. *)
Definition bodyPushed : RigidBody spec_float :=
  set_Force (vz 0 (-70) 0) bodyG.

(** The same body and ground in exact arithmetic: a body at [(0, 2, 0)],
    one unit wide and two high, over a ground whose top is at [y = 1/2]. *)
Definition bodyR : RigidBody R :=
  UpdateCollider (NewRigidBody (mkVec3 0%R 2%R 0%R) 70%R 1%R 2%R).

Definition groundR : Box R :=
  NewBox (mkVec3 (-1)%R (-1)%R (-1)%R) (mkVec3 1%R (1 / 2)%R 1%R).

(** A walking controller of speed 5, in binary32 and in exact arithmetic. *)
Definition ctl0 : MovementController.t spec_float :=
  MovementController.mk body0 (fz 5) (fz 3) false.

Definition ctlR : MovementController.t R :=
  MovementController.mk bodyR 5%R 3%R false.

(** A view vector of length [2^-100], whose square underflows to zero. *)
Definition tinyView : Vec3 spec_float :=
  mkVec3 (S754_finite false 8388608 (-123)) (fz 0) (fz 0).

(** A body at [(0, 3, 0)], two high, sunk by 1 into a ground whose top is
    at [y = 2]. *)
Definition bodyDeep : RigidBody spec_float :=
  UpdateCollider (NewRigidBody (vz 0 3 0) (fz 70) (fz 1) (fz 2)).

Definition groundHigh : Box spec_float := NewBox (vz (-1) 0 (-1)) (vz 1 2 1).

(** A body whose history is capped at three entries. *)
Definition body3 : RigidBody spec_float :=
  mkRigidBody None [vz 9 9 9] (fz 0) (vz 0 2 0) (vz 0 0 0) (vz 0 0 0)
    (fz 70) (fz 1) (fz 2) false false (fz 3) (fz 12) (fz 0) (fz 1) (fz 1)
    (fz 2) 3.

(** The per-axis penetration depths [dx], [dy], [dz] that [Intersection]
    computes for two boxes. *)
Section Depths.
Context {F : Type} {ops : Float32Ops F}.
Local Open Scope f32_scope.

Definition depthX (b other : Box F) : F :=
  minf (vX (Max other) - vX (Min b)) (vX (Max b) - vX (Min other)).
Definition depthY (b other : Box F) : F :=
  minf (vY (Max other) - vY (Min b)) (vY (Max b) - vY (Min other)).
Definition depthZ (b other : Box F) : F :=
  minf (vZ (Max other) - vZ (Min b)) (vZ (Max b) - vZ (Min other)).

(** Strict separation along one axis, as [Intersection] tests it: one
    box's maximum is below the other's minimum. *)
Definition separatedX (b other : Box F) : bool :=
  (vX (Max b) <? vX (Min other)) || (vX (Max other) <? vX (Min b)).
Definition separatedY (b other : Box F) : bool :=
  (vY (Max b) <? vY (Min other)) || (vY (Max other) <? vY (Min b)).
Definition separatedZ (b other : Box F) : bool :=
  (vZ (Max b) <? vZ (Min other)) || (vZ (Max other) <? vZ (Min b)).
Definition separated (b other : Box F) : bool :=
  separatedX b other || separatedY b other || separatedZ b other.

End Depths.

(** [AppendHistory] as the engine and the controller call it: the body has
    been moved to a new position before each call. *)
Section HistoryRuns.
Context {F : Type}.

Definition appendAt (r : RigidBody F) (p : Vec3 F) : RigidBody F :=
  AppendHistory (set_Position p r).

Definition appendAll (ps : list (Vec3 F)) (r : RigidBody F) : RigidBody F :=
  fold_left appendAt ps r.

End HistoryRuns.

(** Vocabulary for the two sweeps of [Move]. *)
Section SweepVocabulary.
Context {F : Type} {ops : Float32Ops F}.
Local Open Scope f32_scope.

(** The position reached from [p] by [k] additions of [stepMove]. *)
Definition advance (p stepMove : Vec3 F) (k : nat) : Vec3 F :=
  Nat.iter k (fun q => Vadd q stepMove) p.

(** The body's collider, were it at [p], is clear of every wall. *)
Definition clearAt (r : RigidBody F) (walls : list (Box F)) (p : Vec3 F) : bool :=
  negb (hasCollision (colliderAt r p) walls).

(** A sweep of [n] sub-steps of [stepMove] from [start] has been walked to
    the position [final]: the first [k] tentative positions were clear of
    the walls and committed, and either all [n] were, or the next one
    meets a wall and the walk stopped there. *)
Definition walked (r : RigidBody F) (walls : list (Box F))
    (start stepMove : Vec3 F) (n : nat) (final : Vec3 F) : Prop :=
  exists k, (k <= n)%nat /\
    final = advance start stepMove k /\
    (forall j, (1 <= j <= k)%nat ->
       clearAt r walls (advance start stepMove j) = true) /\
    ((k < n)%nat -> clearAt r walls (advance start stepMove (S k)) = false).

(** The ground handling of [Move] lifts the body in this call. *)
Definition groundSnaps (ground : option (Box F)) (r : RigidBody F) : bool :=
  match ground, Collider r with
  | Some g, Some c =>
      let '(b, depth) := IntersectionY g c in b && (depth >? f_lit 1 1000)
  | _, _ => false
  end.

(** What a sweep loop leaves untouched, whatever it does. *)
Definition sameShape (r r' : RigidBody F) : Prop :=
  Width r' = Width r /\ Height r' = Height r /\ Flying r' = Flying r /\
  vX (Velocity r') = vX (Velocity r) /\ vZ (Velocity r') = vZ (Velocity r).

(** The collider is the one derived from the position. *)
Definition colliderInSync (r : RigidBody F) : Prop :=
  Collider r = Some (colliderAt r (Position r)).

End SweepVocabulary.

(** The step count in the specification's words, [max(1, ceil(|dy| * 5))],
    to be compared with [verticalSteps]. *)
Section SpecSteps.
Context {F : Type} {ops : Float32Ops F}.
Local Open Scope f32_scope.

Definition f_ceil (x : F) : Z :=
  let t := f_trunc x in
  if f_of_Z t <? x then (t + 1)%Z else t.

Definition specVerticalSteps (dy : F) : Z :=
  Z.max 1 (f_ceil (f_abs dy * f_of_Z 5)).

End SpecSteps.

(** The vertical velocity inside [update]. *)
Section UpdateVocabulary.
Context {F : Type} {ops : Float32Ops F}.
Local Open Scope f32_scope.

(** What [update] integrates, before it clamps. *)
Definition integratedVy (delta : F) (r : RigidBody F) : F :=
  let fy :=
    if negb (Grounded r) && negb (Flying r)
    then vY (Force r) + Mass r * - Gravity r
    else vY (Force r) in
  vY (Velocity r) + fy * (f1 / Mass r) * delta.

(** ... and after the clamp to the terminal velocity. *)
Definition clampedVy (delta : F) (r : RigidBody F) : F :=
  if integratedVy delta r <? DefaultTerminalVelocity
  then DefaultTerminalVelocity
  else integratedVy delta r.

End UpdateVocabulary.

(** The vertical displacement a call of [Move] asks for once the ground
    handling is done ([r1] is the body after it): the displacement of the
    vertical sweep when walls are supplied and a collider exists, the Y
    component of the movement plus, unless flying, the vertical velocity
    otherwise. *)
Section VerticalRequest.
Context {F : Type} {ops : Float32Ops F}.
Local Open Scope f32_scope.

Definition verticalRequest (movement : Vec3 F) (walls : list (Box F))
    (r1 : RigidBody F) : F :=
  let m := dampMovement r1 movement in
  if isSome (Collider r1) && (0 <? Z.of_nat (length walls))%Z
  then vY (verticalMoveOf r1 m)
  else if Flying r1 then vY m else vY m + vY (Velocity r1).

End VerticalRequest.

(** The vector [MovementController.Move] holds in [movement] just before its
    last step, the renormalization and scaling by [Speed]. *)
Section CombinedMovement.
Context {F : Type} {ops : Float32Ops F}.
Local Open Scope f32_scope.

Definition flatten (v : Vec3 F) : Vec3 F :=
  let flat := mkVec3 (vX v) f0 (vZ v) in
  if Vlen flat >? f0 then Vnormalize flat else flat.

Definition combinedMovement (m : MovementController.t F) (forward right up : F)
    (viewVector rightVector : Vec3 F) : Vec3 F :=
  let movement :=
    Vadd (Vmul (flatten viewVector) forward) (Vmul (flatten rightVector) right) in
  if MovementController.Flying m then Vadd movement (mkVec3 f0 up f0) else movement.

End CombinedMovement.

(** Boxes with finite coordinates, and contact along an axis: one box's
    maximum equals the other's minimum. *)
Definition validVec (v : Vec3 spec_float) : bool :=
  B32.valid (vX v) && B32.valid (vY v) && B32.valid (vZ v).

Definition validBox (b : Box spec_float) : bool :=
  validVec (Min b) && validVec (Max b).

Definition touchX (b other : Box spec_float) : bool :=
  B32.eqb (vX (Max b)) (vX (Min other)) || B32.eqb (vX (Max other)) (vX (Min b)).
Definition touchY (b other : Box spec_float) : bool :=
  B32.eqb (vY (Max b)) (vY (Min other)) || B32.eqb (vY (Max other)) (vY (Min b)).
Definition touchZ (b other : Box spec_float) : bool :=
  B32.eqb (vZ (Max b)) (vZ (Min other)) || B32.eqb (vZ (Max other)) (vZ (Min b)).

(** Two unit cubes side by side, sharing the face [x = 1]. *)
Definition cubeL : Box spec_float := NewBox (vz 0 0 0) (vz 1 1 1).
Definition cubeR : Box spec_float := NewBox (vz 1 0 0) (vz 2 1 1).

(** * The rest of the package, and its callers *)

(** ** Box: Distance, CombineY, Corners *)

Section BoxMore.
Context {F : Type} {ops : Float32Ops F}.
Local Open Scope f32_scope.

Definition Distance (b : Box F) (p : Vec3 F) : F :=
  let distSq := f0 in
  let distSq :=
    if vX p <? vX (Min b)
    then distSq + (vX (Min b) - vX p) * (vX (Min b) - vX p)
    else if vX p >? vX (Max b)
    then distSq + (vX p - vX (Max b)) * (vX p - vX (Max b))
    else distSq in
  let distSq :=
    if vY p <? vY (Min b)
    then distSq + (vY (Min b) - vY p) * (vY (Min b) - vY p)
    else if vY p >? vY (Max b)
    then distSq + (vY p - vY (Max b)) * (vY p - vY (Max b))
    else distSq in
  let distSq :=
    if vZ p <? vZ (Min b)
    then distSq + (vZ (Min b) - vZ p) * (vZ (Min b) - vZ p)
    else if vZ p >? vZ (Max b)
    then distSq + (vZ p - vZ (Max b)) * (vZ p - vZ (Max b))
    else distSq in
  f_sqrt distSq.

Definition CombineY (b other : Box F) : Box F :=
  {| Min := mkVec3 (vX (Min b)) (minf (vY (Min b)) (vY (Min other))) (vZ (Min b));
     Max := mkVec3 (vX (Max b)) (maxf (vY (Max b)) (vY (Max other))) (vZ (Max b)) |}.

Definition Corners (b : Box F) : list (Vec3 F) :=
  [ mkVec3 (vX (Min b)) (vY (Min b)) (vZ (Min b));
    mkVec3 (vX (Min b)) (vY (Min b)) (vZ (Max b));
    mkVec3 (vX (Min b)) (vY (Max b)) (vZ (Min b));
    mkVec3 (vX (Min b)) (vY (Max b)) (vZ (Max b));
    mkVec3 (vX (Max b)) (vY (Min b)) (vZ (Min b));
    mkVec3 (vX (Max b)) (vY (Min b)) (vZ (Max b));
    mkVec3 (vX (Max b)) (vY (Max b)) (vZ (Min b));
    mkVec3 (vX (Max b)) (vY (Max b)) (vZ (Max b)) ].

(** [sign] of the rigid body file. *)
Definition sign (x : F) : F :=
  if x <? f0 then f_of_Z (-1)
  else if x >? f0 then f_of_Z 1
  else f0.

(** A point is within the box along every axis, by the tests [Distance]
    makes: it is neither below the minimum nor above the maximum. *)
Definition withinAxis (lo hi p : F) : bool := negb (p <? lo) && negb (p >? hi).

Definition within (b : Box F) (p : Vec3 F) : bool :=
  withinAxis (vX (Min b)) (vX (Max b)) (vX p) &&
  withinAxis (vY (Min b)) (vY (Max b)) (vY p) &&
  withinAxis (vZ (Min b)) (vZ (Max b)) (vZ p).

(** No coordinate of the maximum is below that of the minimum. *)
Definition ordered (b : Box F) : bool :=
  negb (vX (Max b) <? vX (Min b)) &&
  negb (vY (Max b) <? vY (Min b)) &&
  negb (vZ (Max b) <? vZ (Min b)).

(** What one axis adds to [distSq] in [Distance], and the point of the box
    nearest to [p]: each coordinate of [p] moved into the box's range. *)
Definition axisExcessSq (lo hi x : F) : F :=
  if x <? lo then (lo - x) * (lo - x)
  else if x >? hi then (x - hi) * (x - hi)
  else f0.

Definition clampTo (lo hi x : F) : F :=
  if x <? lo then lo else if x >? hi then hi else x.

Definition nearest (b : Box F) (p : Vec3 F) : Vec3 F :=
  mkVec3 (clampTo (vX (Min b)) (vX (Max b)) (vX p))
         (clampTo (vY (Min b)) (vY (Max b)) (vY p))
         (clampTo (vZ (Min b)) (vZ (Max b)) (vZ p)).

End BoxMore.

(** The boxes [boxA] and [boxB] in exact arithmetic. *)
Definition boxAR : Box R := NewBox (mkVec3 0%R 0%R 0%R) (mkVec3 2%R 2%R 4%R).
Definition boxBR : Box R := NewBox (mkVec3 1%R 1%R 1%R) (mkVec3 3%R 3%R 5%R).

(** A box moved by a vector. *)
Definition translate {F : Type} {ops : Float32Ops F} (b : Box F) (v : Vec3 F)
    : Box F :=
  NewBox (Vadd (Min b) v) (Vadd (Max b) v).

(** The order of binary32 values that are not NaN, read off [SFcompare]:
    the class, then exponent and mantissa, compared lexicographically. *)
Definition is_nan (x : spec_float) : bool :=
  match x with S754_nan => true | _ => false end.

Definition orderKey (x : spec_float) : Z * Z * Z :=
  match x with
  | S754_nan => (0, 0, 0)%Z
  | S754_zero _ => (0, 0, 0)%Z
  | S754_infinity true => (-2, 0, 0)%Z
  | S754_infinity false => (2, 0, 0)%Z
  | S754_finite true m e => (-1, - e, Zneg m)%Z
  | S754_finite false m e => (1, e, Zpos m)%Z
  end.

Definition keyLt (a b : Z * Z * Z) : Prop :=
  let '(a1, a2, a3) := a in
  let '(b1, b2, b3) := b in
  (a1 < b1 \/ (a1 = b1 /\ (a2 < b2 \/ (a2 = b2 /\ a3 < b3))))%Z.

(** ** RigidBody: the fields [Move] does not assign *)

Section Frames.
Context {F : Type}.

Definition frameOf (r : RigidBody F) :=
  (PositionHistory r, TripDistance r, Force r, Mass r, Width r, Height r,
   Flying r,
   (JumpSpeed r, Gravity r, PenetrationEpsilonSmall r, PenetrationEpsilonBig r,
    AirMovementSuppression r, FlyingSpeedMultipier r, PositionHistoryLength r)).

End Frames.

(** ** MovementController: the remaining methods

    The controller holds a pointer to its body; a method that mutates the
    body returns the controller with the mutated body in its [Body] field. *)

Module Controller.
Section Methods.
Context {F : Type} {ops : Float32Ops F}.
Local Open Scope f32_scope.

Definition with_Body (b : RigidBody F) (m : MovementController.t F)
    : MovementController.t F :=
  MovementController.mk b (MovementController.Speed m)
    (MovementController.JumpForce m) (MovementController.Flying m).

Definition NewMovementController (body : RigidBody F) (speed jumpForce : F)
    : MovementController.t F :=
  MovementController.mk body speed jumpForce false.

Definition Jump (m : MovementController.t F) : MovementController.t F :=
  if Grounded (MovementController.Body m)
  then with_Body (Jump (MovementController.Body m)) m
  else m.

Definition ToggleFlight (m : MovementController.t F) : MovementController.t F :=
  let flying := negb (MovementController.Flying m) in
  MovementController.mk (set_Flying flying (MovementController.Body m))
    (MovementController.Speed m) (MovementController.JumpForce m) flying.

Definition Update (m : MovementController.t F) (forward right up : F)
    (viewVector rightVector : Vec3 F) : MovementController.t F :=
  let movement := MovementController.Move m forward right up viewVector rightVector in
  let body := MovementController.Body m in
  let body := set_Position (Vadd (Position body) movement) body in
  let body := AppendHistory body in
  with_Body (UpdateCollider body) m.

Definition GetPosition (m : MovementController.t F) : Vec3 F :=
  Position (MovementController.Body m).

Definition SetPosition (m : MovementController.t F) (pos : Vec3 F)
    : MovementController.t F :=
  let body := set_Position pos (MovementController.Body m) in
  let body := AppendHistory body in
  with_Body (UpdateCollider body) m.

End Methods.
End Controller.

(** ** PhysicsEngine.update: the velocity it steps with

    Lines 44-67 of [update]: gravity, integration of the force, the clamp to
    the terminal velocity and the zeroing for a grounded body. *)
Section SteppedVelocity.
Context {F : Type} {ops : Float32Ops F}.
Local Open Scope f32_scope.

Definition steppedVelocity (delta : F) (r : RigidBody F) : Vec3 F :=
  let force :=
    if negb (Grounded r) && negb (Flying r)
    then Vadd (Force r) (mkVec3 f0 (Mass r * - Gravity r) f0)
    else Force r in
  let v := Vadd (Velocity r) (Vmul (Vmul force (f1 / Mass r)) delta) in
  let v :=
    if vY v <? DefaultTerminalVelocity
    then mkVec3 (vX v) DefaultTerminalVelocity (vZ v)
    else v in
  if Grounded r && (vY v <? f0) then mkVec3 (vX v) f0 (vZ v) else v.

(** The trip distance [update] leaves, lines 82-87. *)
Definition steppedTrip (delta : F) (r : RigidBody F) : F :=
  let dpos := Vmul (steppedVelocity delta r) delta in
  let trip := TripDistance r + Vlen dpos in
  if (Vlen dpos =? f0) && (trip >? f0) then f0 else trip.

End SteppedVelocity.

(** A controller of speed 5 for the body whose history is capped at three. *)
Definition ctl3 : MovementController.t spec_float :=
  MovementController.mk body3 (fz 5) (fz 3) false.

(** ** Package world: BlockData, Chunk, World *)

From Stdlib Require String Ascii DecimalString DecimalZ DecimalPos.

Module BlockData.

Record t (F : Type) : Type := mk {
  Active : bool;
  BlockType : String.string;
  Position : Vec3 F
}.

Arguments mk {F} _ _ _.
Arguments Active {F} _.
Arguments BlockType {F} _.
Arguments Position {F} _.

End BlockData.

(** [Blocks] is a [ChunkWidth x ChunkHeight x ChunkWidth] array of pointers:
    a cell is [None] while the pointer is nil, and every cell holds a block
    of its own, as [NewChunk] allocates them.  The array is only ever
    indexed behind the bounds check of [GetBlock] and [SetBlock], so the
    cells are a function of the three indices.  An [int] is never near its
    limits here, so it is an integer of [Z]. *)
Module Chunk.
Section Chunk.
Context {F : Type} {ops : Float32Ops F}.
Local Open Scope f32_scope.

Definition ChunkWidth : Z := 16.
Definition ChunkHeight : Z := 256.

Record t : Type := mk {
  Blocks : Z -> Z -> Z -> option (BlockData.t F);
  Position : Vec3 F
}.

Definition NewChunk (pos : Vec3 F) : t :=
  {| Position := pos;
     Blocks := fun i j k =>
       Some (BlockData.mk false String.EmptyString
               (mkVec3 (vX pos + f_of_Z i) (vY pos + f_of_Z j) (vZ pos + f_of_Z k))) |}.

(** The guard of [GetBlock] and [SetBlock]. *)
Definition outOfBounds (x y z : Z) : bool :=
  ((x <? 0) || (x >=? ChunkWidth) || (y <? 0) || (y >=? ChunkHeight) ||
   (z <? 0) || (z >=? ChunkWidth))%Z.

Definition GetBlock (c : t) (x y z : Z) : option (BlockData.t F) :=
  if outOfBounds x y z then None else Blocks c x y z.

(** [blocks[x][y][z] = b] *)
Definition setCell (blocks : Z -> Z -> Z -> option (BlockData.t F))
    (x y z : Z) (b : option (BlockData.t F)) : Z -> Z -> Z -> option (BlockData.t F) :=
  fun i j k => if ((i =? x) && (j =? y) && (k =? z))%Z then b else blocks i j k.

(** [None] is the panic of assigning through a nil cell. *)
Definition SetBlock (c : t) (x y z : Z) (blockType : String.string) (active : bool)
    : option t :=
  if outOfBounds x y z then Some c
  else
    match Blocks c x y z with
    | None => None
    | Some b =>
        Some {| Position := Position c;
                Blocks := setCell (Blocks c) x y z
                            (Some (BlockData.mk active blockType (BlockData.Position b))) |}
    end.

Definition GetBlockFromWorldPos (c : t) (pos : Vec3 F) : option (BlockData.t F) :=
  let localX := f_trunc (vX pos - vX (Position c)) in
  let localY := f_trunc (vY pos - vY (Position c)) in
  let localZ := f_trunc (vZ pos - vZ (Position c)) in
  GetBlock c localX localY localZ.

Definition GetBoundingBox (c : t) : Box F :=
  {| Min := Position c;
     Max := Vadd (Position c)
              (mkVec3 (f_of_Z ChunkWidth) (f_of_Z ChunkHeight) (f_of_Z ChunkWidth)) |}.

Definition PositionToChunkCoords (pos : Vec3 F) : Vec3 F :=
  mkVec3 (f_of_Z (Z.quot (f_trunc (vX pos)) ChunkWidth) * f_of_Z ChunkWidth)
         f0
         (f_of_Z (Z.quot (f_trunc (vZ pos)) ChunkWidth) * f_of_Z ChunkWidth).

Definition GetChunkPosition (c : t) : Vec3 F := Position c.

(** Every cell of the array holds a block. *)
Definition allocated (c : t) : Prop :=
  forall x y z, outOfBounds x y z = false -> Blocks c x y z <> None.

End Chunk.
End Chunk.

Arguments Chunk.t F : clear implicits.

(** The map [chunks] from keys to chunk pointers is an association list
    with one entry per key; a chunk that is mutated in place stays under the
    key it is stored under. *)
Module World.
Section World.
Context {F : Type} {ops : Float32Ops F}.
Local Open Scope f32_scope.

Definition t : Type := list (String.string * Chunk.t F).

Definition lookup (key : String.string) (w : t) : option (Chunk.t F) :=
  match find (fun kv => String.eqb (fst kv) key) w with
  | Some kv => Some (snd kv)
  | None => None
  end.

Definition insert (key : String.string) (c : Chunk.t F) (w : t) : t :=
  (key, c) :: filter (fun kv => negb (String.eqb (fst kv) key)) w.

Definition NewWorld : t := [].

(** [%d] *)
Definition formatInt (n : Z) : String.string :=
  DecimalString.NilZero.string_of_int (Z.to_int n).

Definition underscore : String.string :=
  String.String (Ascii.Ascii true true true true true false true false)
    String.EmptyString.

(** [fmt.Sprintf("%d_%d", x, z)] *)
Definition keyOf (x z : Z) : String.string :=
  String.append (formatInt x) (String.append underscore (formatInt z)).

Definition GetChunkKey (pos : Vec3 F) : String.string :=
  keyOf (f_trunc (vX pos)) (f_trunc (vZ pos)).

Definition AddChunk (w : t) (chunk : Chunk.t F) : t :=
  insert (GetChunkKey (Chunk.Position chunk)) chunk w.

Definition GetChunk (w : t) (pos : Vec3 F) : option (Chunk.t F) :=
  let chunkPos := Chunk.PositionToChunkCoords pos in
  lookup (GetChunkKey chunkPos) w.

Definition GetBlock (w : t) (pos : Vec3 F) : option (BlockData.t F) :=
  match GetChunk w pos with
  | None => None
  | Some chunk => Chunk.GetBlockFromWorldPos chunk pos
  end.

(** The local coordinate of [SetBlock]: [int(x) % ChunkWidth], moved up by
    [ChunkWidth] when negative. *)
Definition localCoord (n : Z) : Z :=
  let l := Z.rem n Chunk.ChunkWidth in
  if (l <? 0)%Z then (l + Chunk.ChunkWidth)%Z else l.

Definition SetBlock (w : t) (pos : Vec3 F) (blockType : String.string)
    (active : bool) : option t :=
  let chunkPos := Chunk.PositionToChunkCoords pos in
  let '(w, chunk) :=
    match GetChunk w pos with
    | Some chunk => (w, chunk)
    | None => let chunk := Chunk.NewChunk chunkPos in (AddChunk w chunk, chunk)
    end in
  let localX := localCoord (f_trunc (vX pos)) in
  let localY := f_trunc (vY pos) in
  let localZ := localCoord (f_trunc (vZ pos)) in
  match Chunk.SetBlock chunk localX localY localZ blockType active with
  | None => None
  | Some chunk => Some (insert (GetChunkKey chunkPos) chunk w)
  end.

(** The order in which a map is ranged over is not specified; the list's
    order stands for it. *)
Definition GetAllChunks (w : t) : list (Chunk.t F) := map snd w.

Definition GetChunksInRadius (w : t) (center : Vec3 F) (radius : F)
    : list (Chunk.t F) :=
  let radiusSq := radius * radius in
  filter
    (fun chunk =>
       let chunkCenter :=
         Vadd (Chunk.Position chunk)
              (mkVec3 (f_of_Z (Chunk.ChunkWidth / 2)) (f_of_Z (Chunk.ChunkHeight / 2))
                      (f_of_Z (Chunk.ChunkWidth / 2))) in
       let diff := Vsub chunkCenter center in
       let distSq := vX diff * vX diff + vY diff * vY diff + vZ diff * vZ diff in
       (distSq <? radiusSq) || (distSq =? radiusSq))
    (map snd w).

(** A string without the separator of the key. *)
Fixpoint noUnderscore (s : String.string) : bool :=
  match s with
  | String.EmptyString => true
  | String.String c s' =>
      negb (Ascii.eqb c (Ascii.Ascii true true true true true false true false))
      && noUnderscore s'
  end.

(** Every chunk the world returns for a position sits at the chunk
    coordinates of that position and has all its cells. *)
Definition wellPlaced (w : t) : Prop :=
  forall pos chunk, GetChunk w pos = Some chunk ->
    Chunk.Position chunk = Chunk.PositionToChunkCoords pos /\
    Chunk.allocated chunk.

End World.
End World.

Arguments World.t F : clear implicits.

(** ** Package game: Camera and Player

    The camera's angles are [float64] values of a type [D] of their own.
    Its rotation ([UpdateRotation], [updateVectors]) goes through
    [math.Cos] and [math.Sin] and is not modelled; the player only reads the
    vectors it leaves and writes the position. *)

Module Camera.
Section Camera.
Context {D F : Type} {ops : Float32Ops F}.

Record t : Type := mk {
  yaw : D;
  pitch : D;
  front : Vec3 F;
  right : Vec3 F;
  up : Vec3 F;
  position : Vec3 F
}.

Definition UpdatePosition (c : t) (pos : Vec3 F) : t :=
  mk (yaw c) (pitch c) (front c) (right c) (up c) pos.

Definition GetTarget (c : t) : Vec3 F := Vadd (position c) (front c).
Definition GetUp (c : t) : Vec3 F := up c.
Definition GetFront (c : t) : Vec3 F := front c.
Definition GetRight (c : t) : Vec3 F := right c.
Definition GetPosition (c : t) : Vec3 F := position c.

End Camera.
End Camera.

Arguments Camera.t D F : clear implicits.

(** [NewPlayer] gives the fields [Body] and [Controller.Body] the same
    body; the player holds it once, inside the controller.  The line [Jump]
    prints is left out. *)
Module Player.
Section Player.
Context {D F : Type} {ops : Float32Ops F}.
Local Open Scope f32_scope.

Record t : Type := mk {
  Camera : Camera.t D F;
  Controller : MovementController.t F;
  Height : F;
  Width : F;
  OnGround : bool
}.

Definition Body (p : t) : RigidBody F := MovementController.Body (Controller p).

Definition set_OnGround (b : bool) (p : t) : t :=
  mk (Camera p) (Controller p) (Height p) (Width p) b.

Definition set_Controller (m : MovementController.t F) (p : t) : t :=
  mk (Camera p) m (Height p) (Width p) (OnGround p).

Definition set_Camera (c : Camera.t D F) (p : t) : t :=
  mk c (Controller p) (Height p) (Width p) (OnGround p).

Definition set_Body (b : RigidBody F) (p : t) : t :=
  set_Controller (Controller.with_Body b (Controller p)) p.

(** The points probed under the player. *)
Definition checkPoints (p : t) : list (Vec3 F) :=
  let footPosition := Position (Body p) in
  let footPosition :=
    mkVec3 (vX footPosition) (vY footPosition - f_lit 5 100) (vZ footPosition) in
  let halfWidth := Width p * f_lit 45 100 in
  [ footPosition;
    mkVec3 (vX footPosition - halfWidth) (vY footPosition) (vZ footPosition - halfWidth);
    mkVec3 (vX footPosition + halfWidth) (vY footPosition) (vZ footPosition - halfWidth);
    mkVec3 (vX footPosition - halfWidth) (vY footPosition) (vZ footPosition + halfWidth);
    mkVec3 (vX footPosition + halfWidth) (vY footPosition) (vZ footPosition + halfWidth) ].

Definition activeAt (world : World.t F) (point : Vec3 F) : bool :=
  match World.GetBlock world point with
  | Some block => BlockData.Active block
  | None => false
  end.

Definition checkGrounded (p : t) (world : World.t F) : t :=
  let p := set_OnGround (Grounded (Body p)) p in
  if existsb (activeAt world) (checkPoints p) then set_OnGround true p else p.

Definition Update (p : t) (delta : D) (world : World.t F) : t :=
  let p := checkGrounded p world in
  let eyeHeight := Height p * f_lit 85 100 in
  set_Camera
    (Camera.UpdatePosition (Camera p)
       (Vadd (Position (Body p)) (mkVec3 f0 eyeHeight f0)))
    p.

Definition Jump (p : t) : t :=
  if OnGround p || Grounded (Body p)
  then set_OnGround false (set_Body (Jump (Body p)) p)
  else p.

(** [amount] is the argument after its conversion [float32(amount)]. *)
Definition MoveForward (p : t) (amount : F) : t :=
  let forward := Camera.GetFront (Camera p) in
  let forward := mkVec3 (vX forward) f0 (vZ forward) in
  let forward := if Vlen forward >? f0 then Vnormalize forward else forward in
  set_Controller
    (Controller.Update (Controller p) amount f0 f0 forward
       (Camera.GetRight (Camera p)))
    p.

Definition MoveRight (p : t) (amount : F) : t :=
  let right := Camera.GetRight (Camera p) in
  set_Controller
    (Controller.Update (Controller p) f0 amount f0
       (Camera.GetFront (Camera p)) right)
    p.

End Player.
End Player.

Arguments Player.t D F : clear implicits.

(** ** Package window: Debounce

    The state of a key is what GLFW reports when it is polled, an input of
    the call.  The map [debounce] only ever holds [true], so it is the set
    of its keys, given by its membership function. *)
Module Window.

Inductive Action : Type := Release | Press | Repeat.

Definition Key : Type := Z.

Definition Action_eqb (a b : Action) : bool :=
  match a, b with
  | Release, Release | Press, Press | Repeat, Repeat => true
  | _, _ => false
  end.

Definition IsPressed (GetKey : Key -> Action) (k : Key) : bool :=
  Action_eqb (GetKey k) Press.

Definition IsReleased (GetKey : Key -> Action) (k : Key) : bool :=
  Action_eqb (GetKey k) Release.

Definition setKey (k : Key) (b : bool) (debounce : Key -> bool) : Key -> bool :=
  fun k' => if (k' =? k)%Z then b else debounce k'.

Definition Debounce (GetKey : Key -> Action) (debounce : Key -> bool) (k : Key)
    : bool * (Key -> bool) :=
  let d := debounce k in
  if IsPressed GetKey k && negb d then (true, setKey k true debounce)
  else if IsReleased GetKey k then (false, setKey k false debounce)
  else (false, debounce).

(** [Debounce(k)] called once per frame, the key being in the states
    [states] one frame after the other. *)
Fixpoint pollKey (k : Key) (states : list Action) (debounce : Key -> bool)
    : list bool * (Key -> bool) :=
  match states with
  | [] => ([], debounce)
  | s :: rest =>
      let '(fired, debounce) := Debounce (fun _ => s) debounce k in
      let '(fires, debounce) := pollKey k rest debounce in
      (fired :: fires, debounce)
  end.

End Window.

(** * Properties *)

Ltac case_if :=
  match goal with
  | |- context [if ?c then _ else _] => destruct c eqn:?
  | |- context [match ?c with Some _ => _ | None => _ end] => destruct c eqn:?
  end.

(** Unfolds the operations of the interface at the reals. *)
Ltac exactR_ops :=
  cbn [f_add f_sub f_mul f_div f_neg f_sqrt f_ltb f_gtb f_eqb f_of_Z f_trunc
       exactR vX vY vZ Vadd Vsub Vmul Min Max] in *.


(** ** Comparisons of binary32 *)

Lemma SFcompare_antisym (x y : spec_float) :
  SFcompare y x = option_map CompOpp (SFcompare x y).
Proof.
  destruct x as [sx|sx| |sx mx ex], y as [sy|sy| |sy my ey]; simpl;
    try reflexivity;
    try (destruct sx; reflexivity); try (destruct sy; reflexivity);
    try (destruct sx, sy; reflexivity).
  destruct sx, sy; simpl; try reflexivity;
    rewrite (Z.compare_antisym ey ex);
    destruct (ey ?= ex)%Z; simpl; try reflexivity;
    rewrite (Pos.compare_cont_antisym mx my Eq); simpl;
    try rewrite CompOpp_involutive; reflexivity.
Qed.

Lemma gtb_ltb (x y : spec_float) : B32.gtb x y = B32.ltb y x.
Proof.
  unfold B32.gtb, B32.ltb, SFltb. rewrite (SFcompare_antisym x y).
  destruct (SFcompare x y) as [[ | | ]|]; reflexivity.
Qed.

Lemma f_gtb_ltb (x y : spec_float) : (x >? y)%f32 = (y <? x)%f32.
Proof. apply gtb_ltb. Qed.

(** Products and sums of binary32 zeros. *)
Lemma mul_zero_finite (x y : spec_float) :
  B32.is_zero x = true -> B32.is_finite y = true ->
  B32.is_zero (B32.mul x y) = true.
Proof.
  destruct x as [sx| | |]; try discriminate.
  destruct y as [sy| | |sy my ey]; try discriminate; reflexivity.
Qed.

Lemma add_zero_zero (x y : spec_float) :
  B32.is_zero x = true -> B32.is_zero y = true ->
  B32.is_zero (B32.add x y) = true.
Proof.
  destruct x as [sx| | |]; try discriminate.
  destruct y as [sy| | |]; try discriminate.
  destruct sx, sy; reflexivity.
Qed.

Lemma zero_not_negative (x : spec_float) :
  B32.is_zero x = true ->
  B32.ltb x f0 = false /\ B32.ltb x DefaultTerminalVelocity = false.
Proof. destruct x as [sx| | |]; try discriminate. split; reflexivity. Qed.

(** ** binary32: representation, rounding and the sign of a difference *)

Section Binary32Facts.
Local Open Scope Z_scope.

Lemma digits2_pos_bounds (m : positive) :
  2 ^ (Zpos (digits2_pos m) - 1) <= Zpos m < 2 ^ Zpos (digits2_pos m).
Proof.
  induction m as [m IH|m IH|]; cbn [digits2_pos].
  - rewrite Pos2Z.inj_succ.
    replace (Z.succ (Zpos (digits2_pos m)) - 1) with (Zpos (digits2_pos m)) by lia.
    rewrite Z.pow_succ_r by lia.
    replace (Zpos (digits2_pos m)) with (Z.succ (Zpos (digits2_pos m) - 1)) at 1 by lia.
    rewrite Z.pow_succ_r by lia. lia.
  - rewrite Pos2Z.inj_succ.
    replace (Z.succ (Zpos (digits2_pos m)) - 1) with (Zpos (digits2_pos m)) by lia.
    rewrite Z.pow_succ_r by lia.
    replace (Zpos (digits2_pos m)) with (Z.succ (Zpos (digits2_pos m) - 1)) at 1 by lia.
    rewrite Z.pow_succ_r by lia. lia.
  - cbn. lia.
Qed.

Lemma iter_xO (m d : positive) : Zpos (Pos.iter xO m d) = Zpos m * 2 ^ Zpos d.
Proof.
  induction d as [|d IH] using Pos.peano_ind.
  - cbn. lia.
  - rewrite Pos.iter_succ, Pos2Z.inj_succ, Z.pow_succ_r by lia.
    rewrite Pos2Z.inj_xO, IH. lia.
Qed.

Lemma shl_align_value (m : positive) (e ez : Z) :
  ez <= e -> Zpos (fst (shl_align m e ez)) = Zpos m * 2 ^ (e - ez).
Proof.
  intros Hle. unfold shl_align.
  destruct (ez - e) as [|d|d] eqn:Hd; try lia.
  - replace (e - ez) with 0 by lia. cbn [fst]. lia.
  - cbn [fst]. rewrite iter_xO. f_equal. f_equal. lia.
Qed.

Lemma canonical_digits (m : positive) (e : Z) :
  canonical_mantissa B32.prec B32.emax m e = true ->
  Zpos (digits2_pos m) <= B32.prec /\
  (SpecFloat.emin B32.prec B32.emax < e -> Zpos (digits2_pos m) = B32.prec) /\
  SpecFloat.emin B32.prec B32.emax <= e.
Proof.
  unfold canonical_mantissa, fexp. intros H. apply Z.eqb_eq in H. lia.
Qed.

Lemma aligned_lt_compare (mx my : positive) (ex ey : Z) :
  canonical_mantissa B32.prec B32.emax mx ex = true ->
  canonical_mantissa B32.prec B32.emax my ey = true ->
  Zpos (fst (shl_align mx ex (Z.min ex ey))) < Zpos (fst (shl_align my ey (Z.min ex ey))) ->
  match ex ?= ey with
  | Lt => Lt
  | Gt => Gt
  | Eq => Pos.compare_cont Eq mx my
  end = Lt.
Proof.
  intros Hx Hy.
  rewrite !shl_align_value by lia.
  destruct (@canonical_digits _ _ Hx) as (Hdx & Hnx & Hex).
  destruct (@canonical_digits _ _ Hy) as (Hdy & Hny & Hey).
  pose proof (digits2_pos_bounds mx) as [Hlx Hux].
  pose proof (digits2_pos_bounds my) as [Hly Huy].
  destruct (Z.compare_spec ex ey) as [Heq|Hlt|Hgt]; [|reflexivity|].
  - subst ey. rewrite Z.min_id, Z.sub_diag. cbn [Z.pow]. intros H.
    change (Pos.compare_cont Eq mx my) with (Pos.compare mx my).
    apply Pos.compare_lt_iff. lia.
  - rewrite Z.min_r by lia. rewrite Z.sub_diag. cbn [Z.pow]. intros H. exfalso.
    rewrite (Hnx ltac:(lia)) in Hlx.
    assert (H2 : 2 ^ 1 <= 2 ^ (ex - ey)) by (apply Z.pow_le_mono_r; lia).
    assert (H3 : 2 ^ Zpos (digits2_pos my) <= 2 ^ B32.prec)
      by (apply Z.pow_le_mono_r; lia).
    change (2 ^ 1) with 2 in H2.
    change (2 ^ (B32.prec - 1)) with 8388608 in Hlx.
    change (2 ^ B32.prec) with 16777216 in H3.
    nia.
Qed.

Lemma binary_round_aux_sign (s : bool) (m e : Z) (l : location) :
  match binary_round_aux B32.prec B32.emax s m e l with
  | S754_zero s' | S754_infinity s' | S754_finite s' _ _ => s' = s
  | S754_nan => True
  end.
Proof.
  unfold binary_round_aux.
  destruct (shr_fexp B32.prec B32.emax m e l) as [mrs' e'].
  destruct (shr_fexp B32.prec B32.emax _ e' loc_Exact) as [mrs'' e''].
  destruct (shr_m mrs''); try exact I; [reflexivity|].
  destruct (e'' <=? B32.emax - B32.prec); reflexivity.
Qed.

Lemma binary_round_sign (s : bool) (m : positive) (e : Z) :
  match binary_round B32.prec B32.emax s m e with
  | S754_zero s' | S754_infinity s' | S754_finite s' _ _ => s' = s
  | S754_nan => True
  end.
Proof.
  unfold binary_round.
  destruct (shl_align m e _) as [mz ez]. apply binary_round_aux_sign.
Qed.

(** A rounded result is below zero only if its sign bit is set. *)
Lemma ltb_zero_sign (x : spec_float) (s0 : bool) :
  B32.ltb x (S754_zero s0) = true ->
  match x with
  | S754_infinity s | S754_finite s _ _ => s = true
  | _ => False
  end.
Proof.
  destruct x as [s|s| |s m e]; cbn; try discriminate; destruct s; try discriminate; reflexivity.
Qed.

Lemma binary_normalize_negative (m e : Z) (s0 : bool) :
  B32.ltb (binary_normalize B32.prec B32.emax m e false) (S754_zero s0) = true ->
  m < 0.
Proof.
  intros H. apply ltb_zero_sign in H.
  destruct m as [|p|p]; cbn [binary_normalize] in H; [contradiction| |lia].
  pose proof (binary_round_sign false p e) as Hs.
  destruct (binary_round B32.prec B32.emax false p e); try contradiction; congruence.
Qed.

Lemma valid_finite (s : bool) (m : positive) (e : Z) :
  B32.valid (S754_finite s m e) = true ->
  canonical_mantissa B32.prec B32.emax m e = true.
Proof.
  unfold B32.valid, valid_binary, bounded. cbn [B32.is_finite andb].
  intros H. apply andb_prop in H. apply H.
Qed.

(** If a difference of two floats rounds below zero, the first is below
    the second. *)
Lemma sub_negative_lt (x y : spec_float) (s0 : bool) :
  B32.valid x = true -> B32.valid y = true ->
  B32.ltb (B32.sub x y) (S754_zero s0) = true -> B32.ltb x y = true.
Proof.
  intros Hx Hy H.
  destruct x as [sx|sx| |sx mx ex]; try discriminate Hx;
  destruct y as [sy|sy| |sy my ey]; try discriminate Hy.
  - destruct sx, sy; discriminate H.
  - cbn in H. destruct sy; [discriminate H|reflexivity].
  - cbn in H. destruct sx; [reflexivity|discriminate H].
  - apply valid_finite in Hx, Hy.
    unfold B32.sub, SFsub in H. apply binary_normalize_negative in H.
    unfold B32.ltb, SFltb, SFcompare.
    destruct sx, sy; cbn [cond_Zopp] in H; try reflexivity; try lia.
    + assert (Hlt : Zpos (fst (shl_align my ey (Z.min ey ex))) <
                    Zpos (fst (shl_align mx ex (Z.min ey ex))))
        by (rewrite (Z.min_comm ey ex); lia).
      pose proof (@aligned_lt_compare my mx ey ex Hy Hx Hlt) as Hc.
      rewrite (Z.compare_antisym ey ex).
      destruct (ey ?= ex); cbn [CompOpp]; try reflexivity; try discriminate Hc.
      change (Pos.compare_cont Eq mx my) with (Pos.compare mx my).
      change (Pos.compare_cont Eq my mx) with (Pos.compare my mx) in Hc.
      rewrite (Pos.compare_antisym my mx), Hc. reflexivity.
    + assert (Hlt : Zpos (fst (shl_align mx ex (Z.min ex ey))) <
                    Zpos (fst (shl_align my ey (Z.min ex ey)))) by lia.
      rewrite (@aligned_lt_compare mx my ex ey Hx Hy Hlt). reflexivity.
Qed.

Lemma shr_1_nonneg (mrs : shr_record) : 0 <= shr_m mrs -> 0 <= shr_m (shr_1 mrs).
Proof.
  destruct mrs as [m r s]. cbn [shr_m shr_1].
  destruct m as [|[p|p|]|[p|p|]]; cbn [shr_m]; lia.
Qed.

Lemma iter_shr_1_nonneg (p : positive) : forall mrs,
  0 <= shr_m mrs -> 0 <= shr_m (iter_pos shr_1 p mrs).
Proof.
  induction p as [p IH|p IH|]; intros mrs H; cbn [iter_pos].
  - apply IH, IH, shr_1_nonneg, H.
  - apply IH, IH, H.
  - apply shr_1_nonneg, H.
Qed.

Lemma shr_fexp_nonneg (m e : Z) (l : location) :
  0 <= m -> 0 <= shr_m (fst (shr_fexp B32.prec B32.emax m e l)).
Proof.
  intros H. unfold shr_fexp, shr.
  assert (H0 : 0 <= shr_m (shr_record_of_loc m l))
    by (destruct l as [|[ | | ]]; exact H).
  destruct (fexp B32.prec B32.emax (Zdigits2 m + e) - e); cbn [fst];
    try exact H0.
  apply iter_shr_1_nonneg, H0.
Qed.

Lemma binary_round_aux_not_nan (s : bool) (m e : Z) (l : location) :
  0 <= m -> binary_round_aux B32.prec B32.emax s m e l <> S754_nan.
Proof.
  intros H. unfold binary_round_aux.
  pose proof (@shr_fexp_nonneg m e l H) as H1.
  destruct (shr_fexp B32.prec B32.emax m e l) as [mrs' e']. cbn [fst] in H1.
  assert (H2 : 0 <= round_nearest_even (shr_m mrs') (loc_of_shr_record mrs')).
  { unfold round_nearest_even.
    destruct (loc_of_shr_record mrs') as [|[ | | ]]; try lia.
    destruct (Z.even (shr_m mrs')); lia. }
  pose proof (@shr_fexp_nonneg _ e' loc_Exact H2) as H3.
  destruct (shr_fexp B32.prec B32.emax _ e' loc_Exact) as [mrs'' e'']. cbn [fst] in H3.
  destruct (shr_m mrs''); try discriminate; [|lia].
  destruct (e'' <=? B32.emax - B32.prec); discriminate.
Qed.

Lemma sub_not_nan (x y : spec_float) :
  B32.is_finite x = true -> B32.is_finite y = true -> B32.sub x y <> S754_nan.
Proof.
  intros Hx Hy.
  destruct x as [sx|sx| |sx mx ex]; try discriminate Hx;
  destruct y as [sy|sy| |sy my ey]; try discriminate Hy;
    try (destruct sx, sy; discriminate); try discriminate.
  unfold B32.sub, SFsub, binary_normalize.
  destruct (_ - _); try discriminate;
    unfold binary_round; destruct (shl_align _ _ _) as [mz ez];
    apply binary_round_aux_not_nan; lia.
Qed.

(** Numerically equal finite floats have a zero difference. *)
Lemma sub_eq_zero (x y : spec_float) :
  B32.is_finite x = true -> B32.eqb x y = true ->
  B32.is_zero (B32.sub x y) = true.
Proof.
  intros Hx Heq.
  destruct x as [sx|sx| |sx mx ex]; try discriminate Hx;
  destruct y as [sy|sy| |sy my ey];
    try (unfold B32.eqb, SFeqb, SFcompare in Heq;
         try destruct sx; try destruct sy; discriminate Heq).
  - destruct sx, sy; reflexivity.
  - unfold B32.eqb, SFeqb, SFcompare in Heq.
    assert (Hs : sx = sy /\ ex = ey /\ mx = my).
    { destruct sx, sy; try discriminate Heq;
        destruct (Z.compare_spec ex ey); try discriminate Heq;
        (destruct (Pos.compare_cont Eq mx my) eqn:Hc; try discriminate Heq);
        apply Pos.compare_eq in Hc; auto. }
    destruct Hs as (-> & -> & ->).
    unfold B32.sub, SFsub. rewrite Z.sub_diag. reflexivity.
Qed.

End Binary32Facts.

(** ** Exact arithmetic: the operations at [exactR] *)

Lemma ExactR_ltb_spec (x y : R) : reflect (x < y)%R (ExactR.ltb x y).
Proof. unfold ExactR.ltb. destruct (Rlt_dec x y); constructor; assumption. Qed.

Lemma ExactR_gtb_spec (x y : R) : reflect (x > y)%R (ExactR.gtb x y).
Proof. unfold ExactR.gtb. destruct (Rgt_dec x y); constructor; assumption. Qed.

Lemma ExactR_eqb_spec (x y : R) : reflect (x = y) (ExactR.eqb x y).
Proof. unfold ExactR.eqb. destruct (Req_dec_T x y); constructor; assumption. Qed.

Lemma ExactR_abs (x : R) : f_abs x = Rabs x.
Proof.
  unfold f_abs, f0. cbn [f_ltb f_eqb f_neg f_of_Z exactR].
  destruct (ExactR_ltb_spec x 0) as [Hlt|Hge].
  - rewrite Rabs_left by assumption. reflexivity.
  - destruct (ExactR_eqb_spec x 0) as [->|Hne].
    + rewrite Rabs_R0. reflexivity.
    + rewrite Rabs_right by lra. reflexivity.
Qed.

(** Truncation of a non-negative real is its floor. *)
Lemma ExactR_trunc_nonneg (x : R) :
  (0 <= x)%R ->
  (IZR (ExactR.trunc x) <= x < IZR (ExactR.trunc x) + 1)%R /\ (0 <= ExactR.trunc x)%Z.
Proof.
  intros Hx. unfold ExactR.trunc.
  destruct (Rlt_dec x 0) as [Hlt|_]; [lra|].
  destruct (archimed x) as [Hup1 Hup2].
  rewrite minus_IZR. split; [lra|].
  assert (H : (0 < IZR (up x))%R) by lra.
  apply lt_IZR in H. lia.
Qed.

(** ** Box.Intersection *)

(** [Intersection] answers [true] exactly when no axis separates. *)
Lemma Intersection_fst (b other : Box spec_float) :
  fst (Intersection b other) = negb (separated b other).
Proof.
  unfold Intersection, separated, separatedX, separatedY, separatedZ.
  rewrite !f_gtb_ltb.
  destruct (vX (Max b) <? vX (Min other))%f32,
           (vX (Max other) <? vX (Min b))%f32,
           (vY (Max b) <? vY (Min other))%f32,
           (vY (Max other) <? vY (Min b))%f32,
           (vZ (Max b) <? vZ (Min other))%f32,
           (vZ (Max other) <? vZ (Min b))%f32; simpl; try reflexivity;
  repeat match goal with
         | |- context [if ?c then _ else _] => destruct c; simpl
         end; reflexivity.
Qed.

Lemma separated_sym (b other : Box spec_float) :
  separated b other = separated other b.
Proof.
  unfold separated, separatedX, separatedY, separatedZ.
  rewrite (orb_comm (vX (Max b) <? vX (Min other))%f32),
          (orb_comm (vY (Max b) <? vY (Min other))%f32),
          (orb_comm (vZ (Max b) <? vZ (Min other))%f32).
  reflexivity.
Qed.

(** When the X and the Y depth of two boxes no axis separates are equal,
    neither of the first two tests of [Intersection] holds and the
    penetration vector is the one along Z, whatever the Z depth is. *)
Lemma Intersection_tie_XY (F : Type) (ops : Float32Ops F) (b other : Box F) :
  fst (Intersection b other) = true ->
  (depthX b other <? depthY b other)%f32 = false ->
  (depthY b other <? depthX b other)%f32 = false ->
  vX (snd (Intersection b other)) = f0 /\ vY (snd (Intersection b other)) = f0 /\
  vZ (snd (Intersection b other)) =
    (depthZ b other *
     signF ((vZ (Max other) - vZ (Min b)) - (vZ (Max b) - vZ (Min other))))%f32.
Proof.
  unfold Intersection, depthX, depthY, depthZ.
  destruct (_ || _ || _ || _ || _ || _)%bool; [discriminate|].
  cbv zeta. intros _ -> ->. cbn [andb]. repeat split.
Qed.

(** C1.  The tie-break of [Intersection] is not "X, then Y, then Z": for the
    overlapping boxes [boxA] and [boxB] the X and Y depths are both 1 and
    the Z depth is 3, and the penetration vector returned is non-zero on
    the Z axis only, the axis of the largest depth. *)
Theorem C1_tie_resolves_on_Z :
  depthX boxA boxB = fz 1 /\ depthY boxA boxB = fz 1 /\ depthZ boxA boxB = fz 3 /\
  Intersection boxA boxB = (true, mkVec3 (fz 0) (fz 0) (fz 3)).
Proof. vm_compute. repeat split. Qed.

(** C7.  The boolean result of [Intersection] does not depend on the order
    of the two boxes. *)
Theorem C7_Intersection_symmetric (a b : Box spec_float) :
  fst (Intersection a b) = fst (Intersection b a).
Proof.
  rewrite !Intersection_fst. f_equal. apply separated_sym.
Qed.

(** ** Box.Intersection: separation and contact *)

(** Along one axis: two intervals of a box pair that are not separated and
    touch have a zero penetration depth. *)
Lemma touch_depth_zero (lo1 hi1 lo2 hi2 : spec_float) :
  B32.valid lo1 = true -> B32.valid hi1 = true ->
  B32.valid lo2 = true -> B32.valid hi2 = true ->
  B32.ltb hi1 lo2 = false -> B32.ltb hi2 lo1 = false ->
  B32.eqb hi1 lo2 || B32.eqb hi2 lo1 = true ->
  B32.is_zero (minf (B32.sub hi2 lo1) (B32.sub hi1 lo2)) = true.
Proof.
  intros Vlo1 Vhi1 Vlo2 Vhi2 Hs1 Hs2 Htouch.
  assert (Ffin : forall x, B32.valid x = true -> B32.is_finite x = true)
    by (intros x Hx; apply andb_prop in Hx; apply Hx).
  assert (Hn1 : forall s0, B32.ltb (B32.sub hi2 lo1) (S754_zero s0) = false).
  { intros s0. destruct (B32.ltb (B32.sub hi2 lo1) (S754_zero s0)) eqn:Hc; [|reflexivity].
    apply sub_negative_lt in Hc; [congruence|assumption|assumption]. }
  assert (Hn2 : forall s0, B32.ltb (B32.sub hi1 lo2) (S754_zero s0) = false).
  { intros s0. destruct (B32.ltb (B32.sub hi1 lo2) (S754_zero s0)) eqn:Hc; [|reflexivity].
    apply sub_negative_lt in Hc; [congruence|assumption|assumption]. }
  unfold minf. change f_ltb with B32.ltb.
  apply orb_prop in Htouch. destruct Htouch as [Ht|Ht].
  - pose proof (sub_eq_zero hi1 lo2 (Ffin _ Vhi1) Ht) as Hz.
    destruct (B32.sub hi1 lo2) as [s0| | |] eqn:Hd; try discriminate Hz.
    rewrite Hn1. reflexivity.
  - pose proof (sub_eq_zero hi2 lo1 (Ffin _ Vhi2) Ht) as Hz.
    destruct (B32.ltb (B32.sub hi2 lo1) (B32.sub hi1 lo2)) eqn:Hlt; [exact Hz|].
    pose proof (@sub_not_nan hi1 lo2 (Ffin _ Vhi1) (Ffin _ Vlo2)) as Hnan.
    specialize (Hn2 false).
    destruct (B32.sub hi2 lo1) as [s1| | |]; try discriminate Hz.
    destruct (B32.sub hi1 lo2) as [s2|s2| |s2 m2 e2]; try reflexivity;
      try congruence; destruct s2; discriminate.
Qed.

Lemma signF_finite (x : spec_float) : B32.is_finite (signF x) = true.
Proof. unfold signF. destruct (x <? f0)%f32; reflexivity. Qed.

Lemma mul_zero_signF (d x : spec_float) :
  B32.is_zero d = true -> B32.is_zero (d * signF x)%f32 = true.
Proof. intros Hd. apply mul_zero_finite; [exact Hd|apply signF_finite]. Qed.

Lemma validBox_coords (b : Box spec_float) :
  validBox b = true ->
  (B32.valid (vX (Min b)) = true /\ B32.valid (vY (Min b)) = true /\
   B32.valid (vZ (Min b)) = true) /\
  (B32.valid (vX (Max b)) = true /\ B32.valid (vY (Max b)) = true /\
   B32.valid (vZ (Max b)) = true).
Proof.
  unfold validBox, validVec. rewrite !andb_true_iff. tauto.
Qed.

Lemma separated_false (a b : Box spec_float) :
  separated a b = false ->
  (B32.ltb (vX (Max a)) (vX (Min b)) = false /\
   B32.ltb (vX (Max b)) (vX (Min a)) = false) /\
  (B32.ltb (vY (Max a)) (vY (Min b)) = false /\
   B32.ltb (vY (Max b)) (vY (Min a)) = false) /\
  (B32.ltb (vZ (Max a)) (vZ (Min b)) = false /\
   B32.ltb (vZ (Max b)) (vZ (Min a)) = false).
Proof.
  unfold separated, separatedX, separatedY, separatedZ. change f_ltb with B32.ltb.
  rewrite !orb_false_iff. tauto.
Qed.

(** The penetration vector [Intersection] returns for boxes no axis
    separates, by cases on the axis it resolves along. *)
Lemma Intersection_snd (a b : Box spec_float) :
  separated a b = false ->
  snd (Intersection a b) =
    let dx1 := (vX (Max b) - vX (Min a))%f32 in
    let dx2 := (vX (Max a) - vX (Min b))%f32 in
    let dy1 := (vY (Max b) - vY (Min a))%f32 in
    let dy2 := (vY (Max a) - vY (Min b))%f32 in
    let dz1 := (vZ (Max b) - vZ (Min a))%f32 in
    let dz2 := (vZ (Max a) - vZ (Min b))%f32 in
    if (depthX a b <? depthY a b)%f32 && (depthX a b <? depthZ a b)%f32
    then mkVec3 (depthX a b * signF (dx1 - dx2))%f32 f0 f0
    else if (depthY a b <? depthX a b)%f32 && (depthY a b <? depthZ a b)%f32
    then mkVec3 f0 (depthY a b * signF (dy1 - dy2))%f32 f0
    else mkVec3 f0 f0 (depthZ a b * signF (dz1 - dz2))%f32.
Proof.
  intros Hsep.
  destruct (separated_false a b Hsep) as ((Hx1 & Hx2) & (Hy1 & Hy2) & (Hz1 & Hz2)).
  unfold Intersection. rewrite !f_gtb_ltb. change f_ltb with B32.ltb.
  rewrite Hx1, Hx2, Hy1, Hy2, Hz1, Hz2. cbn [orb].
  cbv zeta. fold (depthX a b) (depthY a b) (depthZ a b).
  destruct (B32.ltb (depthX a b) (depthY a b) && B32.ltb (depthX a b) (depthZ a b));
    [reflexivity|].
  destruct (B32.ltb (depthY a b) (depthX a b) && B32.ltb (depthY a b) (depthZ a b));
    reflexivity.
Qed.



(** ** RigidBody.AppendHistory *)

Section History.
Context {F : Type}.
Implicit Types (r : RigidBody F) (h : list (Vec3 F)).

Lemma removelast_cons_firstn h (p : Vec3 F) :
  removelast (p :: h) = firstn (length h) (p :: h).
Proof.
  revert p. induction h as [|q h IH]; intros p; [reflexivity|].
  change (removelast (p :: q :: h)) with (p :: removelast (q :: h)).
  rewrite IH. reflexivity.
Qed.

(** One call, on a history within the cap: the position goes in front and
    at most [cap - 1] of the older entries stay behind it. *)
Lemma AppendHistory_step r :
  (1 <= PositionHistoryLength r)%Z ->
  (Z.of_nat (length (PositionHistory r)) <= PositionHistoryLength r)%Z ->
  PositionHistory (AppendHistory r) =
    Position r ::
      firstn (Z.to_nat (PositionHistoryLength r - 1)) (PositionHistory r).
Proof.
  intros Hcap Hlen. unfold AppendHistory, dropLast.
  destruct (Z.ltb_spec (PositionHistoryLength r)
              (Z.of_nat (length (Position r :: PositionHistory r)))) as [Hlt|Hge];
    cbn [PositionHistory set_PositionHistory].
  - rewrite removelast_cons_firstn.
    cbn [length] in Hlt.
    assert (Hn : Z.to_nat (PositionHistoryLength r - 1) =
                 Nat.pred (length (PositionHistory r))) by lia.
    rewrite Hn.
    destruct (PositionHistory r) as [|q h] eqn:Hh; cbn [length] in *; [lia|].
    reflexivity.
  - cbn [length] in Hge. rewrite firstn_all2 by lia. reflexivity.
Qed.

Lemma AppendHistory_frame r :
  Position (AppendHistory r) = Position r /\
  PositionHistoryLength (AppendHistory r) = PositionHistoryLength r.
Proof. unfold AppendHistory. case_if; split; reflexivity. Qed.

Lemma AppendHistory_length r :
  (1 <= PositionHistoryLength r)%Z ->
  (Z.of_nat (length (PositionHistory r)) <= PositionHistoryLength r)%Z ->
  Z.of_nat (length (PositionHistory (AppendHistory r))) =
    Z.min (Z.of_nat (length (PositionHistory r)) + 1) (PositionHistoryLength r).
Proof.
  intros Hcap Hlen. rewrite AppendHistory_step by assumption.
  cbn [length]. rewrite length_firstn. lia.
Qed.

(** The same after any run of calls, the body moving between them. *)
Lemma appendAll_length (ps : list (Vec3 F)) : forall r,
  (1 <= PositionHistoryLength r)%Z ->
  (Z.of_nat (length (PositionHistory r)) <= PositionHistoryLength r)%Z ->
  PositionHistoryLength (appendAll ps r) = PositionHistoryLength r /\
  Z.of_nat (length (PositionHistory (appendAll ps r))) =
    Z.min (Z.of_nat (length (PositionHistory r)) + Z.of_nat (length ps))
          (PositionHistoryLength r).
Proof.
  induction ps as [|p ps IH]; intros r Hcap Hlen; cbn [appendAll fold_left length].
  - split; [reflexivity|lia].
  - fold (appendAll ps (appendAt r p)).
    assert (Hc : PositionHistoryLength (appendAt r p) = PositionHistoryLength r).
    { unfold appendAt. rewrite (proj2 (AppendHistory_frame _)). reflexivity. }
    assert (Hl : Z.of_nat (length (PositionHistory (appendAt r p))) =
                 Z.min (Z.of_nat (length (PositionHistory r)) + 1)
                       (PositionHistoryLength r)).
    { unfold appendAt. rewrite AppendHistory_length; cbn; auto. }
    destruct (IH (appendAt r p)) as [IH1 IH2]; [lia|lia|].
    split; [congruence|]. rewrite IH2, Hl, Hc. lia.
Qed.

Lemma appendAll_head (ps : list (Vec3 F)) (p : Vec3 F) r :
  (1 <= PositionHistoryLength r)%Z ->
  (Z.of_nat (length (PositionHistory r)) <= PositionHistoryLength r)%Z ->
  nth_error (PositionHistory (appendAll (ps ++ [p]) r)) 0 = Some p /\
  Position (appendAll (ps ++ [p]) r) = p.
Proof.
  intros Hcap Hlen. unfold appendAll. rewrite fold_left_app.
  cbn [fold_left]. fold (appendAll ps r).
  destruct (appendAll_length ps r Hcap Hlen) as [Hc Hl].
  unfold appendAt. rewrite AppendHistory_step; cbn; [|lia|lia].
  split; [reflexivity|]. apply AppendHistory_frame.
Qed.

End History.

Lemma iter_AppendHistory_length {F : Type} (r : RigidBody F) (n : nat) :
  (1 <= PositionHistoryLength r)%Z ->
  (Z.of_nat (length (PositionHistory r)) <= PositionHistoryLength r)%Z ->
  PositionHistoryLength (Nat.iter n AppendHistory r) = PositionHistoryLength r /\
  Position (Nat.iter n AppendHistory r) = Position r /\
  Z.of_nat (length (PositionHistory (Nat.iter n AppendHistory r))) =
    Z.min (Z.of_nat (length (PositionHistory r)) + Z.of_nat n)
          (PositionHistoryLength r).
Proof.
  intros Hcap Hlen. induction n as [|n (IHc & IHp & IHl)]; simpl Nat.iter.
  - repeat split; lia.
  - destruct (AppendHistory_frame (Nat.iter n AppendHistory r)) as [Hp Hc].
    repeat split; [congruence|congruence|].
    rewrite AppendHistory_length by lia. lia.
Qed.

(** C9.  One call of [AppendHistory] puts the current position at index 0
    and keeps at most [PositionHistoryLength - 1] older entries behind it;
    hence, for a body with [PositionHistoryLength >= 1] whose history is
    within the cap, [N > PositionHistoryLength] calls leave a history of
    exactly [PositionHistoryLength] entries with the current position at
    index 0. *)
Theorem C9_AppendHistory_cap {F : Type} (r : RigidBody F) (N : nat) :
  (1 <= PositionHistoryLength r)%Z ->
  (Z.of_nat (length (PositionHistory r)) <= PositionHistoryLength r)%Z ->
  (PositionHistoryLength r < Z.of_nat N)%Z ->
  PositionHistory (AppendHistory r) =
    Position r :: firstn (Z.to_nat (PositionHistoryLength r - 1)) (PositionHistory r) /\
  Z.of_nat (length (PositionHistory (Nat.iter N AppendHistory r))) =
    PositionHistoryLength r /\
  nth_error (PositionHistory (Nat.iter N AppendHistory r)) 0 =
    Some (Position (Nat.iter N AppendHistory r)).
Proof.
  intros Hcap Hlen HN. split; [apply AppendHistory_step; assumption|].
  destruct (iter_AppendHistory_length r N Hcap Hlen) as (Hc & Hp & Hl).
  split; [lia|].
  destruct N as [|n]; [lia|]. simpl Nat.iter.
  destruct (iter_AppendHistory_length r n Hcap Hlen) as (Hc' & Hp' & Hl').
  rewrite AppendHistory_step by lia. cbn [nth_error].
  rewrite (proj1 (AppendHistory_frame _)). reflexivity.
Qed.

Lemma C9_AppendHistory_cap_witness :
  Z.of_nat (length (PositionHistory
     (Nat.iter 4 AppendHistory (body3 : RigidBody spec_float)))) = 3%Z /\
  nth_error (PositionHistory (Nat.iter 4 AppendHistory body3)) 0 =
    Some (Position (Nat.iter 4 AppendHistory body3)).
Proof.
  refine (proj2 (C9_AppendHistory_cap body3 4 _ _ _)); vm_compute; congruence.
Defined.

(** ** RigidBody.Move: the sweeps *)

Section Sweeps.
Context {F : Type} {ops : Float32Ops F}.
Local Open Scope f32_scope.
Implicit Types (r : RigidBody F) (p stepMove : Vec3 F) (walls : list (Box F)).

(** The loop over the walls finds a wall that intersects, if there is one. *)
Lemma hasCollision_spec (c : Box F) walls :
  hasCollision c walls = true <->
  exists wall, In wall walls /\ fst (Intersection c wall) = true.
Proof.
  induction walls as [|w walls IH]; cbn [hasCollision In].
  - split; [discriminate|]. intros (w & [] & _).
  - destruct (fst (Intersection c w)) eqn:Hw.
    + split; [|reflexivity]. intros _. exists w. auto.
    + rewrite IH. split.
      * intros (w' & Hin & Hi). exists w'. auto.
      * intros (w' & [Heq|Hin] & Hi); [subst; congruence|]. exists w'. auto.
Qed.

Lemma colliderAt_ext r1 r2 p :
  Width r1 = Width r2 -> Height r1 = Height r2 ->
  colliderAt r1 p = colliderAt r2 p.
Proof. intros Hw Hh. unfold colliderAt. rewrite Hw, Hh. reflexivity. Qed.

Lemma advance_S p stepMove k :
  advance (Vadd p stepMove) stepMove k = advance p stepMove (S k).
Proof. unfold advance. rewrite Nat.iter_succ_r. reflexivity. Qed.

(** [horizontalLoop]: it commits the first [k] tentative positions, all of
    them clear, and stops for good at the first one that is not. *)
Lemma horizontalLoop_spec n stepMove walls : forall r,
  exists k, (k <= n)%nat /\
    Position (horizontalLoop n stepMove walls r) = advance (Position r) stepMove k /\
    (forall j, (1 <= j <= k)%nat ->
       clearAt r walls (advance (Position r) stepMove j) = true) /\
    ((k < n)%nat ->
       clearAt r walls (advance (Position r) stepMove (S k)) = false) /\
    sameShape r (horizontalLoop n stepMove walls r) /\
    Velocity (horizontalLoop n stepMove walls r) = Velocity r /\
    Grounded (horizontalLoop n stepMove walls r) = Grounded r.
Proof.
  induction n as [|n IH]; intros r; cbn [horizontalLoop].
  - exists 0%nat. repeat split; lia.
  - unfold tentativeHit, UpdateColliderAtPosition. cbn [Collider set_Collider].
    destruct (hasCollision (colliderAt r (Vadd (Position r) stepMove)) walls) eqn:Hhit;
      cbn [negb].
    + exists 0%nat. repeat split; try lia.
      unfold clearAt, advance. cbn. rewrite Hhit. reflexivity.
    + destruct (IH (set_Position (Vadd (Position r) stepMove)
                      (set_Collider (Some (colliderAt r (Vadd (Position r) stepMove))) r)))
        as (k & Hk & Hpos & Hclear & Hstop & Hshape & Hv & Hg).
      cbn [Position set_Position] in *.
      exists (S k). split; [lia|]. split; [rewrite Hpos; apply advance_S|].
      split; [|split; [|split; [exact Hshape|split; assumption]]].
      * intros j Hj. destruct j as [|j]; [lia|].
        destruct j as [|j].
        -- unfold clearAt, advance. cbn. rewrite Hhit. reflexivity.
        -- rewrite <- advance_S.
           specialize (Hclear (S j) ltac:(lia)).
           unfold clearAt in *. erewrite colliderAt_ext; [exact Hclear| |]; reflexivity.
      * intros Hlt. rewrite <- advance_S.
        specialize (Hstop ltac:(lia)).
        unfold clearAt in *. erewrite colliderAt_ext; [exact Hstop| |]; reflexivity.
Qed.

(** [verticalLoop]: the same walk; at the stop the vertical velocity is
    zeroed and a body that was moving down is marked grounded. *)
Lemma verticalLoop_spec n stepMove walls : forall r,
  exists k, (k <= n)%nat /\
    Position (verticalLoop n stepMove walls r) = advance (Position r) stepMove k /\
    (forall j, (1 <= j <= k)%nat ->
       clearAt r walls (advance (Position r) stepMove j) = true) /\
    ((k < n)%nat ->
       clearAt r walls (advance (Position r) stepMove (S k)) = false /\
       vY (Velocity (verticalLoop n stepMove walls r)) = f0 /\
       Grounded (verticalLoop n stepMove walls r) =
         (if vY (Velocity r) <? f0 then true else Grounded r)) /\
    (k = n ->
       Velocity (verticalLoop n stepMove walls r) = Velocity r /\
       Grounded (verticalLoop n stepMove walls r) = Grounded r) /\
    sameShape r (verticalLoop n stepMove walls r).
Proof.
  induction n as [|n IH]; intros r; cbn [verticalLoop].
  - exists 0%nat. unfold sameShape. repeat split; lia.
  - unfold tentativeHit, UpdateColliderAtPosition. cbn [Collider set_Collider].
    destruct (hasCollision (colliderAt r (Vadd (Position r) stepMove)) walls) eqn:Hhit;
      cbn [negb].
    + exists 0%nat. cbn [Velocity set_Collider].
      split; [lia|]. split; [destruct (vY (Velocity r) <? f0); reflexivity|].
      split; [intros j Hj; lia|]. split; [|split; [intros; lia|]].
      * intros _. split; [unfold clearAt, advance; cbn; rewrite Hhit; reflexivity|].
        destruct (vY (Velocity r) <? f0); split; reflexivity.
      * unfold sameShape. destruct (vY (Velocity r) <? f0); repeat split.
    + destruct (IH (set_Position (Vadd (Position r) stepMove)
                      (set_Collider (Some (colliderAt r (Vadd (Position r) stepMove))) r)))
        as (k & Hk & Hpos & Hclear & Hstop & Hall & Hshape).
      cbn [Position set_Position Velocity Grounded set_Collider] in *.
      exists (S k). split; [lia|]. split; [rewrite Hpos; apply advance_S|].
      split; [|split; [|split; [|exact Hshape]]].
      * intros j Hj. destruct j as [|j]; [lia|].
        destruct j as [|j].
        -- unfold clearAt, advance. cbn. rewrite Hhit. reflexivity.
        -- rewrite <- advance_S.
           specialize (Hclear (S j) ltac:(lia)).
           unfold clearAt in *. erewrite colliderAt_ext; [exact Hclear| |]; reflexivity.
      * intros Hlt. rewrite <- advance_S.
        destruct (Hstop ltac:(lia)) as (Hs1 & Hs2 & Hs3).
        split; [|split; assumption].
        unfold clearAt in *. erewrite colliderAt_ext; [exact Hs1| |]; reflexivity.
      * intros Heq. apply Hall. lia.
Qed.

Lemma sameShape_refl r : sameShape r r.
Proof. unfold sameShape. repeat split. Qed.

Lemma sameShape_trans r1 r2 r3 :
  sameShape r1 r2 -> sameShape r2 r3 -> sameShape r1 r3.
Proof. unfold sameShape. intuition congruence. Qed.

Lemma clearAt_ext r1 r2 walls p :
  sameShape r1 r2 -> clearAt r2 walls p = clearAt r1 walls p.
Proof.
  intros (Hw & Hh & _). unfold clearAt.
  rewrite (colliderAt_ext r2 r1 p Hw Hh). reflexivity.
Qed.

(** A sweep that starts clear of the walls ends clear of the walls. *)
Lemma verticalSweep_clear movement walls r :
  clearAt r walls (Position r) = true ->
  clearAt r walls (Position (verticalSweep movement walls r)) = true /\
  sameShape r (verticalSweep movement walls r).
Proof.
  intros Hstart. unfold verticalSweep.
  destruct (Vlen (verticalMoveOf r movement) >? f0);
    [|split; [assumption|apply sameShape_refl]].
  match goal with |- context [verticalLoop ?n ?s walls r] =>
    destruct (verticalLoop_spec n s walls r) as (k & _ & Hpos & Hclear & _ & _ & Hshape)
  end.
  split; [|exact Hshape]. rewrite Hpos.
  destruct k as [|k]; [exact Hstart|]. apply Hclear. lia.
Qed.

Lemma horizontalSweep_clear movement walls r :
  clearAt r walls (Position r) = true ->
  clearAt r walls (Position (horizontalSweep movement walls r)) = true /\
  sameShape r (horizontalSweep movement walls r).
Proof.
  intros Hstart. unfold horizontalSweep.
  destruct (Vlen (mkVec3 (vX movement) f0 (vZ movement)) >? f_lit 1 1000);
    [|split; [assumption|apply sameShape_refl]].
  match goal with |- context [horizontalLoop ?n ?s walls r] =>
    destruct (horizontalLoop_spec n s walls r) as (k & _ & Hpos & Hclear & _ & Hshape & _)
  end.
  split; [|exact Hshape]. rewrite Hpos.
  destruct k as [|k]; [exact Hstart|]. apply Hclear. lia.
Qed.

(** The ground handling: what it does to the velocity and, when it does
    not lift the body, to everything else. *)
Lemma groundPhase_shape ground r : sameShape r (groundPhase ground r).
Proof.
  unfold groundPhase, sameShape.
  destruct ground as [g|]; [|repeat split].
  destruct (Grounded r); cbn [negb Collider set_Grounded set_Velocity];
    (destruct (Collider r) as [c|]; [|repeat split]);
    destruct (IntersectionY g c) as [b depth];
    destruct (b && (depth >? f_lit 1 1000)); repeat split.
Qed.

Lemma groundPhase_no_snap ground r :
  groundSnaps ground r = false ->
  Position (groundPhase ground r) = Position r /\
  Collider (groundPhase ground r) = Collider r.
Proof.
  unfold groundPhase, groundSnaps.
  destruct ground as [g|]; [|split; reflexivity].
  destruct (Grounded r); cbn [negb Collider set_Grounded set_Velocity];
    (destruct (Collider r) as [c|] eqn:Hc; [|intros _; cbn; rewrite ?Hc; split; reflexivity]);
    destruct (IntersectionY g c) as [b depth];
    intros ->; cbn; rewrite ?Hc; split; reflexivity.
Qed.

Lemma groundPhase_Grounded ground r :
  Grounded (groundPhase ground r) = isSome ground.
Proof.
  unfold groundPhase.
  destruct ground as [g|]; [|reflexivity].
  destruct (Grounded r); cbn [negb Collider set_Grounded set_Velocity isSome];
    (destruct (Collider r) as [c|]; [|reflexivity]);
    destruct (IntersectionY g c) as [b depth];
    destruct (b && (depth >? f_lit 1 1000)); reflexivity.
Qed.

Lemma Move_with_walls movement ground ceiling walls r :
  isSome (Collider (groundPhase ground r)) = true -> walls <> [] ->
  Move movement ground ceiling walls r =
    let r1 := groundPhase ground r in
    let m := dampMovement r1 movement in
    UpdateCollider (horizontalSweep m walls (verticalSweep m walls r1)).
Proof.
  intros Hc Hw. unfold Move. rewrite Hc.
  destruct walls as [|w walls]; [congruence|]. reflexivity.
Qed.

Lemma Move_shape movement ground ceiling walls r :
  sameShape r (Move movement ground ceiling walls r).
Proof.
  unfold Move.
  pose proof (groundPhase_shape ground r) as Hg.
  set (r1 := groundPhase ground r) in *.
  set (m := dampMovement r1 movement).
  destruct (isSome (Collider r1) && (0 <? Z.of_nat (length walls))%Z).
  - apply (sameShape_trans Hg).
    assert (Hv : sameShape r1 (verticalSweep m walls r1)).
    { unfold verticalSweep. destruct (Vlen (verticalMoveOf r1 m) >? f0);
        [|apply sameShape_refl].
      match goal with |- context [verticalLoop ?n ?s walls r1] =>
        destruct (verticalLoop_spec n s walls r1) as (k & _ & _ & _ & _ & _ & Hs)
      end. exact Hs. }
    apply (sameShape_trans Hv).
    set (r2 := verticalSweep m walls r1).
    assert (Hh : sameShape r2 (horizontalSweep m walls r2)).
    { unfold horizontalSweep.
      destruct (Vlen (mkVec3 (vX m) f0 (vZ m)) >? f_lit 1 1000);
        [|apply sameShape_refl].
      match goal with |- context [horizontalLoop ?n ?s walls r2] =>
        destruct (horizontalLoop_spec n s walls r2) as (k & _ & _ & _ & _ & Hs & _)
      end. exact Hs. }
    apply (sameShape_trans Hh). unfold sameShape, UpdateCollider. repeat split.
  - apply (sameShape_trans Hg). cbn [Flying set_Position].
    destruct (Flying r1); unfold sameShape, UpdateCollider; repeat split.
Qed.

End Sweeps.

(** C10.  [Move] never changes the X and Z components of the body's
    velocity, whatever the movement vector, the ground, the ceiling and the
    walls are. *)
Theorem C10_Move_keeps_velocity_XZ {F : Type} {ops : Float32Ops F}
    (movement : Vec3 F) (ground ceiling : option (Box F)) (walls : list (Box F))
    (r : RigidBody F) :
  vX (Velocity (Move movement ground ceiling walls r)) = vX (Velocity r) /\
  vZ (Velocity (Move movement ground ceiling walls r)) = vZ (Velocity r).
Proof.
  destruct (Move_shape movement ground ceiling walls r) as (_ & _ & _ & Hx & Hz).
  split; assumption.
Qed.

(** C4.  With walls supplied and a collider present, a horizontal
    displacement longer than 0.001 is walked in 4 equal sub-steps: the
    first [k] tentative positions are committed, each with the rebuilt
    collider clear of every wall, and the walk stops for good at the first
    tentative position whose collider meets a wall.  A body whose collider
    is the one derived from its position and meets no wall at the start,
    and which the ground handling does not lift in this call, ends the call
    with a collider that meets no wall. *)
Theorem C4_horizontal_sweep {F : Type} {ops : Float32Ops F}
    (movement : Vec3 F) (ground ceiling : option (Box F)) (walls : list (Box F))
    (r : RigidBody F) :
  let r1 := groundPhase ground r in
  let m := dampMovement r1 movement in
  let rv := verticalSweep m walls r1 in
  let horizMove := mkVec3 (vX m) f0 (vZ m) in
  let stepMove := Vmul horizMove (f1 / f_of_Z 4)%f32 in
  let r' := Move movement ground ceiling walls r in
  (isSome (Collider r1) = true -> walls <> [] ->
   (Vlen horizMove >? f_lit 1 1000)%f32 = true ->
   walked r walls (Position rv) stepMove 4 (Position r') /\
   Collider r' = Some (colliderAt r (Position r'))) /\
  (colliderInSync r -> clearAt r walls (Position r) = true ->
   groundSnaps ground r = false ->
   exists c, Collider r' = Some c /\ hasCollision c walls = false).
Proof.
  intros r1 m rv horizMove stepMove r'.
  pose proof (groundPhase_shape ground r) as Hg. fold r1 in Hg.
  split.
  - intros Hc Hw Hlen. unfold r'. rewrite Move_with_walls by assumption.
    cbv zeta. fold r1 m rv.
    assert (Hv : sameShape r1 rv).
    { unfold rv, verticalSweep. destruct (Vlen (verticalMoveOf r1 m) >? f0)%f32;
        [|apply sameShape_refl].
      match goal with |- context [verticalLoop ?n ?s walls r1] =>
        destruct (verticalLoop_spec n s walls r1) as (k & _ & _ & _ & _ & _ & Hs)
      end. exact Hs. }
    pose proof (sameShape_trans Hg Hv) as Hrv.
    unfold horizontalSweep. fold horizMove. rewrite Hlen. cbv zeta. fold stepMove.
    change (Z.to_nat 4) with 4%nat.
    destruct (horizontalLoop_spec 4 stepMove walls rv)
      as (k & Hk & Hpos & Hclear & Hstop & Hshape & _).
    cbn [Position UpdateCollider set_Collider Collider].
    split.
    + exists k. split; [exact Hk|]. split; [exact Hpos|]. split.
      * intros j Hj. rewrite <- (clearAt_ext walls _ Hrv). apply Hclear, Hj.
      * intros Hlt. rewrite <- (clearAt_ext walls _ Hrv). apply Hstop, Hlt.
    + f_equal. apply colliderAt_ext.
      * destruct Hshape as (-> & _). apply Hrv.
      * destruct Hshape as (_ & -> & _). apply Hrv.
  - intros Hsync Hclear Hsnap.
    destruct (groundPhase_no_snap ground r Hsnap) as [Hp1 Hc1]. fold r1 in Hp1, Hc1.
    unfold r', Move. fold r1 m.
    rewrite Hc1, Hsync. cbn [isSome andb].
    destruct (0 <? Z.of_nat (length walls))%Z eqn:Hlen.
    + assert (H1 : clearAt r1 walls (Position r1) = true)
        by (rewrite Hp1, (clearAt_ext walls _ Hg); exact Hclear).
      destruct (verticalSweep_clear m walls r1 H1) as [H2 Hs2]. fold rv in H2, Hs2.
      rewrite <- (clearAt_ext walls _ Hs2) in H2.
      destruct (horizontalSweep_clear m walls rv H2) as [H3 Hs3].
      rewrite <- (clearAt_ext walls _ Hs3) in H3.
      cbn [Collider UpdateCollider set_Collider].
      eexists. split; [reflexivity|].
      unfold clearAt in H3. apply negb_true_iff in H3. exact H3.
    + destruct walls as [|w walls']; [|discriminate Hlen].
      cbn [Collider UpdateCollider set_Collider].
      eexists. split; reflexivity.
Qed.

Lemma C4_horizontal_sweep_witness :
  (walked bodyG [wallX] (Position bodyG)
     (Vmul (mkVec3 (vX (dampMovement (groundPhase None bodyG) (vz 1 0 0))) f0
                   (vZ (dampMovement (groundPhase None bodyG) (vz 1 0 0))))
           (f1 / f_of_Z 4)%f32)
     4 (Position (Move (vz 1 0 0) None None [wallX] bodyG)) /\
   Collider (Move (vz 1 0 0) None None [wallX] bodyG) =
     Some (colliderAt bodyG (Position (Move (vz 1 0 0) None None [wallX] bodyG)))) /\
  (exists c, Collider (Move (vz 1 0 0) None None [wallX] bodyG) = Some c /\
             hasCollision c [wallX] = false).
Proof.
  destruct (C4_horizontal_sweep (vz 1 0 0) None None [wallX] bodyG) as [H1 H2].
  split.
  - apply H1; [reflexivity|discriminate|vm_compute; reflexivity].
  - apply H2; vm_compute; reflexivity.
Defined.

(** The two places where the sweep does less than "4 sub-steps whatever the
    magnitude, never ending inside a wall".  The body [bodyG] starts clear
    of [wallC]; the ground handling lifts it by [0.5 + 0.2] into [wallC]
    and nothing moves it back.  And a displacement of length 0.0005 is not
    walked at all, though its first sub-step would be clear. *)
Lemma C4_counterexample :
  (colliderInSync bodyG /\
   clearAt bodyG [wallC] (Position bodyG) = true /\
   exists c, Collider (Move (vz 0 0 0) (Some ground0) None [wallC] bodyG) = Some c /\
             hasCollision c [wallC] = true) /\
  (isSome (Collider bodyG) = true /\
   (let m := dampMovement (groundPhase None bodyG) tinyMove in
    clearAt bodyG [wallC]
      (Vadd (Position bodyG)
            (Vmul (mkVec3 (vX m) f0 (vZ m)) (f1 / f_of_Z 4)%f32)) = true) /\
   Position (Move tinyMove None None [wallC] bodyG) = Position bodyG).
Proof.
  split; [split; [reflexivity|split; [reflexivity|]]|repeat split].
  eexists. split; [vm_compute; reflexivity|vm_compute; reflexivity].
Qed.

(** ** RigidBody.Move: the vertical sweep *)

(** C3.  With walls supplied and a collider present, a non-zero vertical
    displacement [dy] is walked in [int(|dy| * 5) + 1] equal sub-steps of
    [dy * (1 / steps)]: each tentative position is tested with the rebuilt
    collider against the walls (a full [Intersection] per wall) and
    committed when clear; at the first one that meets a wall the walk stops
    and the vertical velocity is zeroed.  In exact arithmetic that count is
    [floor(|dy| * 5) + 1], at least 1, and the sub-steps add up to [dy]. *)
Theorem C3_vertical_sweep :
  (forall (F : Type) (ops : Float32Ops F)
          (movement : Vec3 F) (ground ceiling : option (Box F))
          (walls : list (Box F)) (r : RigidBody F),
     let r1 := groundPhase ground r in
     let m := dampMovement r1 movement in
     let v := verticalMoveOf r1 m in
     let steps := verticalSteps v in
     let stepMove := Vmul v (f1 / f_of_Z steps)%f32 in
     let rv := verticalSweep m walls r1 in
     isSome (Collider r1) = true -> walls <> [] -> (Vlen v >? f0)%f32 = true ->
     Move movement ground ceiling walls r =
       UpdateCollider (horizontalSweep m walls rv) /\
     steps = (f_trunc (f_abs (vY v) * f_of_Z 5)%f32 + 1)%Z /\
     exists k, (k <= Z.to_nat steps)%nat /\
       Position rv = advance (Position r1) stepMove k /\
       (forall j, (1 <= j <= k)%nat ->
          hasCollision (colliderAt r (advance (Position r1) stepMove j)) walls = false) /\
       ((k < Z.to_nat steps)%nat ->
          (exists wall, In wall walls /\
             fst (Intersection (colliderAt r (advance (Position r1) stepMove (S k)))
                               wall) = true) /\
          vY (Velocity rv) = f0) /\
       (k = Z.to_nat steps -> Velocity rv = Velocity r1)) /\
  (forall dy : R,
     let steps := verticalSteps (mkVec3 0%R dy 0%R) in
     (IZR steps - 1 <= Rabs dy * 5 < IZR steps)%R /\ (1 <= steps)%Z /\
     (IZR steps * (dy * (1 / IZR steps)) = dy)%R).
Proof.
  split.
  - intros F ops movement ground ceiling walls r r1 m v steps stepMove rv Hc Hw Hlen.
    split; [apply Move_with_walls; assumption|]. split; [reflexivity|].
    pose proof (groundPhase_shape ground r) as Hg. fold r1 in Hg.
    unfold rv, verticalSweep. fold v. rewrite Hlen. cbv zeta. fold steps stepMove.
    destruct (verticalLoop_spec (Z.to_nat steps) stepMove walls r1)
      as (k & Hk & Hpos & Hclear & Hstop & Hall & _).
    exists k. split; [exact Hk|]. split; [exact Hpos|]. split; [|split].
    + intros j Hj. specialize (Hclear j Hj).
      rewrite (clearAt_ext walls _ Hg) in Hclear.
      unfold clearAt in Hclear. apply negb_true_iff in Hclear. exact Hclear.
    + intros Hlt. destruct (Hstop Hlt) as (Hs & Hvy & _). split; [|exact Hvy].
      rewrite (clearAt_ext walls _ Hg) in Hs.
      unfold clearAt in Hs. apply negb_false_iff in Hs.
      apply hasCollision_spec. exact Hs.
    + intros Heq. apply Hall, Heq.
  - intros dy steps. unfold steps, verticalSteps. cbn [vY].
    rewrite ExactR_abs. cbn [f_trunc f_mul f_of_Z exactR].
    assert (Hnn : (0 <= Rabs dy * 5)%R) by (pose proof (Rabs_pos dy); lra).
    destruct (ExactR_trunc_nonneg Hnn) as [[H1 H2] H3].
    rewrite plus_IZR.
    split; [lra|]. split; [lia|].
    field. apply IZR_le in H3. lra.
Qed.

Lemma C3_vertical_sweep_witness :
  let r1 := groundPhase None bodyFall in
  let m := dampMovement r1 (vz 0 0 0) in
  let v := verticalMoveOf r1 m in
  isSome (Collider r1) = true /\ [wallX] <> [] /\ (Vlen v >? f0)%f32 = true /\
  verticalSteps v = 6%Z /\
  exists k, (k <= 6)%nat /\
    Position (verticalSweep m [wallX] r1) =
      advance (Position r1) (Vmul v (f1 / f_of_Z 6)%f32) k.
Proof.
  intros r1 m v.
  assert (Hc : isSome (Collider r1) = true) by reflexivity.
  assert (Hw : [wallX] <> []) by discriminate.
  assert (Hl : (Vlen v >? f0)%f32 = true) by (vm_compute; reflexivity).
  destruct (proj1 C3_vertical_sweep _ _ (vz 0 0 0) None None [wallX] bodyFall Hc Hw Hl)
    as (_ & Hsteps & k & Hk & Hpos & _).
  repeat split; try assumption; try reflexivity.
  exists k. split; [exact Hk|exact Hpos].
Defined.

(** For a vertical displacement of [-1] the specification's count
    [max(1, ceil(|dy| * 5))] is 5, the sweep takes 6 sub-steps of [-1/6]. *)
Lemma C3_counterexample :
  let r1 := groundPhase None bodyFall in
  let m := dampMovement r1 (vz 0 0 0) in
  let v := verticalMoveOf r1 m in
  isSome (Collider r1) = true /\ (Vlen v >? f0)%f32 = true /\
  vY v = fz (-1) /\
  specVerticalSteps (vY v) = 5%Z /\
  verticalSteps v = 6%Z /\
  Position (Move (vz 0 0 0) None None [wallX] bodyFall) =
    advance (Position bodyFall) (Vmul v (f1 / fz 6)%f32) 6 /\
  Position (Move (vz 0 0 0) None None [wallX] bodyFall) <>
    advance (Position bodyFall) (Vmul v (f1 / fz 5)%f32) 5.
Proof.
  vm_compute. repeat split; try reflexivity. discriminate.
Qed.

(** ** RigidBody.Move: the ground handling *)

Section GroundHandling.
Context {F : Type} {ops : Float32Ops F}.
Local Open Scope f32_scope.
Implicit Types (r : RigidBody F) (walls : list (Box F)).

(** With a ground box the body is grounded when [Move] returns. *)
Lemma Move_Grounded movement (g : Box F) ceiling walls r :
  Grounded (Move movement (Some g) ceiling walls r) = true.
Proof.
  unfold Move.
  pose proof (groundPhase_Grounded (Some g) r) as Hg. cbn [isSome] in Hg.
  set (r1 := groundPhase (Some g) r) in *.
  set (m := dampMovement r1 movement).
  destruct (isSome (Collider r1) && (0 <? Z.of_nat (length walls))%Z).
  - cbn [Grounded UpdateCollider set_Collider].
    assert (Hv : Grounded (verticalSweep m walls r1) = true).
    { unfold verticalSweep. destruct (Vlen (verticalMoveOf r1 m) >? f0); [|exact Hg].
      match goal with |- context [verticalLoop ?n ?s walls r1] =>
        destruct (verticalLoop_spec n s walls r1) as (k & Hk & _ & _ & Hstop & Hall & _)
      end.
      destruct (Nat.eq_dec k (Z.to_nat (verticalSteps (verticalMoveOf r1 m)))) as [He|Hne].
      - rewrite (proj2 (Hall He)). exact Hg.
      - destruct (Hstop ltac:(lia)) as (_ & _ & ->). rewrite Hg.
        destruct (vY (Velocity r1) <? f0); reflexivity. }
    unfold horizontalSweep.
    destruct (Vlen (mkVec3 (vX m) f0 (vZ m)) >? f_lit 1 1000); [|exact Hv].
    match goal with |- context [horizontalLoop ?n ?s walls ?b] =>
      destruct (horizontalLoop_spec n s walls b) as (k & _ & _ & _ & _ & _ & _ & ->)
    end. exact Hv.
  - cbn [Flying set_Position].
    destruct (Flying r1); cbn [Grounded UpdateCollider set_Collider set_Position]; exact Hg.
Qed.

(** The lift: the position goes up by [depth + 0.2], the collider is
    rebuilt there. *)
Lemma groundPhase_snap (g c : Box F) (d : F) r :
  Collider r = Some c -> IntersectionY g c = (true, d) ->
  (d >? f_lit 1 1000) = true ->
  Position (groundPhase (Some g) r) =
    Vadd (Position r) (mkVec3 f0 (d + f_lit 2 10) f0) /\
  Collider (groundPhase (Some g) r) =
    Some (colliderAt r (Position (groundPhase (Some g) r))) /\
  vY (Velocity (groundPhase (Some g) r)) =
    (if Grounded r then vY (Velocity r) else f0).
Proof.
  intros Hc Hi Hd. unfold groundPhase.
  destruct (Grounded r); cbn [negb Collider set_Grounded set_Velocity];
    rewrite Hc, Hi, Hd; cbn; repeat split.
Qed.

End GroundHandling.

(** ** Exact arithmetic: heights during the sweeps *)

Lemma advance_vY (p s : Vec3 R) (k : nat) :
  vY (advance p s k) = (vY p + INR k * vY s)%R.
Proof.
  induction k as [|k IH].
  - cbn. lra.
  - change (advance p s (S k)) with (Vadd (advance p s k) s).
    rewrite S_INR. exactR_ops. rewrite IH. lra.
Qed.

Lemma verticalSteps_R_pos (v : Vec3 R) : (1 <= verticalSteps v)%Z.
Proof.
  unfold verticalSteps. rewrite ExactR_abs. exactR_ops.
  assert (Hnn : (0 <= Rabs (vY v) * 5)%R) by (pose proof (Rabs_pos (vY v)); lra).
  destruct (ExactR_trunc_nonneg Hnn) as [_ H]. lia.
Qed.

Lemma verticalSweep_R_up (m : Vec3 R) (walls : list (Box R)) (r : RigidBody R) :
  (0 <= vY (verticalMoveOf r m))%R ->
  (vY (Position r) <= vY (Position (verticalSweep m walls r)))%R.
Proof.
  intros Hup. unfold verticalSweep.
  destruct (Vlen (verticalMoveOf r m) >? f0)%f32; [|lra].
  match goal with |- context [verticalLoop ?n ?s walls r] =>
    destruct (verticalLoop_spec n s walls r) as (k & _ & -> & _)
  end.
  rewrite advance_vY. exactR_ops.
  pose proof (verticalSteps_R_pos (verticalMoveOf r m)) as Hs.
  apply IZR_le in Hs.
  assert (0 < 1 / IZR (verticalSteps (verticalMoveOf r m)))%R
    by (apply Rdiv_lt_0_compat; lra).
  pose proof (pos_INR k).
  assert (0 <= vY (verticalMoveOf r m) * (1 / IZR (verticalSteps (verticalMoveOf r m))))%R
    by (apply Rmult_le_pos; lra).
  unfold f1. exactR_ops. nra.
Qed.

Lemma horizontalSweep_R_level (m : Vec3 R) (walls : list (Box R)) (r : RigidBody R) :
  vY (Position (horizontalSweep m walls r)) = vY (Position r).
Proof.
  unfold horizontalSweep.
  destruct (Vlen (mkVec3 (vX m) f0 (vZ m)) >? f_lit 1 1000)%f32; [|reflexivity].
  match goal with |- context [horizontalLoop ?n ?s walls r] =>
    destruct (horizontalLoop_spec n s walls r) as (k & _ & -> & _)
  end.
  rewrite advance_vY. unfold f0, f1. exactR_ops. lra.
Qed.

(** C2.  When the ground box overlaps the body's collider with a depth [d]
    above 0.001, the ground handling of [Move] raises the position by
    [d + 0.2] and rebuilds the collider there, and the body is grounded
    when [Move] returns.  In exact arithmetic, if [d] is the depth by which
    the collider's bottom is below the ground's top and the call asks for
    no downward displacement after the lift, the collider's bottom ends at
    or above the ground's top plus 0.2. *)
Theorem C2_ground_snap :
  (forall (F : Type) (ops : Float32Ops F) (movement : Vec3 F) (g : Box F)
          (ceiling : option (Box F)) (walls : list (Box F)) (r : RigidBody F)
          (c : Box F) (d : F),
     Collider r = Some c -> IntersectionY g c = (true, d) ->
     (d >? f_lit 1 1000)%f32 = true ->
     let r1 := groundPhase (Some g) r in
     Position r1 = Vadd (Position r) (mkVec3 f0 (d + f_lit 2 10)%f32 f0) /\
     Collider r1 = Some (colliderAt r (Position r1)) /\
     Grounded (Move movement (Some g) ceiling walls r) = true) /\
  (forall (movement : Vec3 R) (g : Box R) (ceiling : option (Box R))
          (walls : list (Box R)) (r : RigidBody R) (c : Box R) (d : R),
     Collider r = Some c -> colliderInSync r ->
     IntersectionY g c = (true, d) ->
     d = (vY (Max g) - vY (Min c))%R ->
     (1 / 1000 < d)%R ->
     (0 <= verticalRequest movement walls (groundPhase (Some g) r))%R ->
     let r' := Move movement (Some g) ceiling walls r in
     Grounded r' = true /\
     exists c', Collider r' = Some c' /\
                (vY (Max g) + 2 / 10 <= vY (Min c'))%R).
Proof.
  split.
  - intros F ops movement g ceiling walls r c d Hc Hi Hd r1.
    destruct (groundPhase_snap g r Hc Hi Hd) as (Hp & Hcol & _).
    split; [exact Hp|]. split; [exact Hcol|]. apply Move_Grounded.
  - intros movement g ceiling walls r c d Hc Hsync Hi Hbottom Hd Hreq r'.
    split; [apply Move_Grounded|].
    assert (Hd' : (d >? f_lit 1 1000)%f32 = true).
    { unfold f_lit. exactR_ops. destruct (ExactR_gtb_spec d (1 / 1000)); [reflexivity|lra]. }
    destruct (groundPhase_snap g r Hc Hi Hd') as (Hp & Hcol & _).
    pose proof (groundPhase_shape (Some g) r) as Hg.
    unfold colliderInSync in Hsync. rewrite Hc in Hsync. injection Hsync as Hceq.
    assert (Hmin : vY (Min c) = (vY (Position r) - Height r)%R)
      by (rewrite Hceq; reflexivity).
    assert (Hp1 : vY (Position (groundPhase (Some g) r)) =
                  (vY (Position r) + (d + 2 / 10))%R)
      by (rewrite Hp; unfold f_lit; exactR_ops; reflexivity).
    unfold r', Move. unfold verticalRequest in Hreq.
    set (r1 := groundPhase (Some g) r) in *.
    set (m := dampMovement r1 movement) in *.
    destruct (isSome (Collider r1) && (0 <? Z.of_nat (length walls))%Z).
    + pose proof (verticalSweep_R_up m walls r1 Hreq) as Hup.
      set (rv := verticalSweep m walls r1) in *.
      pose proof (horizontalSweep_R_level m walls rv) as Hlevel.
      assert (Hh : Height (horizontalSweep m walls rv) = Height r).
      { destruct Hg as (_ & Hh1 & _).
        assert (Hv : Height rv = Height r1).
        { unfold rv, verticalSweep. destruct (Vlen (verticalMoveOf r1 m) >? f0)%f32;
            [|reflexivity].
          match goal with |- context [verticalLoop ?n ?s walls r1] =>
            destruct (verticalLoop_spec n s walls r1) as (k & _ & _ & _ & _ & _ & Hsh)
          end. apply Hsh. }
        assert (Hhz : Height (horizontalSweep m walls rv) = Height rv).
        { unfold horizontalSweep.
          destruct (Vlen (mkVec3 (vX m) f0 (vZ m)) >? f_lit 1 1000)%f32; [|reflexivity].
          match goal with |- context [horizontalLoop ?n ?s walls rv] =>
            destruct (horizontalLoop_spec n s walls rv) as (k & _ & _ & _ & _ & Hsh & _)
          end. apply Hsh. }
        congruence. }
      eexists. split; [reflexivity|].
      cbn [Min colliderAt Vsub vY]. exactR_ops. rewrite Hh. lra.
    + destruct Hg as (_ & Hh1 & Hf1 & _). fold r1 in Hh1, Hf1.
      cbn [Flying set_Position].
      destruct (Flying r1); cbn [negb];
        (eexists; split; [reflexivity|]);
        cbn [Min colliderAt Vsub vY Position set_Position Height UpdateCollider
             set_Collider Velocity];
        exactR_ops; rewrite Hh1; lra.
Qed.


Lemma bodyR_overlap :
  IntersectionY groundR (colliderAt bodyR (Position bodyR)) =
    (true, (vY (Max groundR) - vY (Min (colliderAt bodyR (Position bodyR))))%R).
Proof.
  unfold IntersectionY, minf.
  cbv [bodyR groundR UpdateCollider NewRigidBody colliderAt set_Collider
       Vadd Vsub Vzero f0 f1 f_lit Collider Position Width Height
       Min Max vX vY vZ f_add f_sub f_mul f_div f_of_Z f_ltb f_gtb exactR].
  repeat match goal with
         | |- context [ExactR.ltb ?a ?b] => destruct (ExactR_ltb_spec a b); try lra
         | |- context [ExactR.gtb ?a ?b] => destruct (ExactR_gtb_spec a b); try lra
         end.
  reflexivity.
Qed.

Lemma bodyR_depth :
  (1 / 1000 < vY (Max groundR) - vY (Min (colliderAt bodyR (Position bodyR))))%R.
Proof.
  cbv [groundR bodyR colliderAt Max Min vY Vsub UpdateCollider NewRigidBody
       set_Collider Position Height f_sub exactR].
  lra.
Qed.

Lemma bodyR_request :
  (0 <= verticalRequest (mkVec3 0 0 0)%R [] (groundPhase (Some groundR) bodyR))%R.
Proof.
  assert (Hd : ((vY (Max groundR) - vY (Min (colliderAt bodyR (Position bodyR))))%R
                >? f_lit 1 1000)%f32 = true).
  { unfold f_lit. cbn [f_gtb f_div f_of_Z exactR].
    destruct (ExactR_gtb_spec
                (vY (Max groundR) - vY (Min (colliderAt bodyR (Position bodyR))))%R
                (1 / 1000)%R) as [_|Hn]; [reflexivity|].
    pose proof bodyR_depth. lra. }
  destruct (groundPhase_snap groundR bodyR (eq_refl : Collider bodyR = Some _)
              bodyR_overlap Hd) as (_ & Hc & Hv).
  pose proof (groundPhase_Grounded (Some groundR) bodyR) as Hg.
  destruct (groundPhase_shape (Some groundR) bodyR) as (_ & _ & Hf & _).
  unfold verticalRequest, dampMovement.
  rewrite Hc, Hg, Hf, Hv. cbn [isSome length Z.of_nat Z.ltb Z.compare andb negb].
  change (Flying bodyR) with false. change (Grounded bodyR) with false.
  cbn [vY f_add exactR]. unfold f0. cbn [f_of_Z exactR]. lra.
Qed.

Lemma C2_ground_snap_witness :
  (Position (groundPhase (Some ground0) body0) =
     Vadd (Position body0) (mkVec3 f0 (f_lit 1 2 + f_lit 2 10)%f32 f0) /\
   Grounded (Move (vz 0 0 0) (Some ground0) None [] body0) = true) /\
  (Grounded (Move (mkVec3 0 0 0)%R (Some groundR) None [] bodyR) = true /\
   exists c', Collider (Move (mkVec3 0 0 0)%R (Some groundR) None [] bodyR) = Some c' /\
              (vY (Max groundR) + 2 / 10 <= vY (Min c'))%R).
Proof.
  destruct C2_ground_snap as [HA HB]. split.
  - destruct (HA _ _ (vz 0 0 0) ground0 None [] body0
                (colliderAt body0 (Position body0)) (f_lit 1 2))
      as (H1 & _ & H3); try (vm_compute; reflexivity).
    split; assumption.
  - apply (HB (mkVec3 0 0 0)%R groundR None [] bodyR
              (colliderAt bodyR (Position bodyR))
              (vY (Max groundR) - vY (Min (colliderAt bodyR (Position bodyR))))%R).
    + reflexivity.
    + reflexivity.
    + exact bodyR_overlap.
    + reflexivity.
    + exact bodyR_depth.
    + exact bodyR_request.
Defined.

(** Two ways to end below the margin.  A body whose collider bottom is 0.5
    below the ground's top and which is asked to move down by 4, no walls
    supplied, is lifted by 0.7 and then moved down: its collider bottom ends
    below the ground's top plus 0.2.  And in binary32 the sums are rounded:
    a body sunk by 1 into a ground whose top is at 2, asked for no
    displacement at all, ends with its collider bottom at 2.1999998, one
    unit in the last place below [2 + 0.2]. *)
Lemma C2_counterexample :
  (let c := colliderAt body0 (Position body0) in
   let d : spec_float := f_lit 1 2 in
   Collider body0 = Some c /\
   IntersectionY ground0 c = (true, d) /\
   d = (vY (Max ground0) - vY (Min c))%f32 /\
   (d >? f_lit 1 1000)%f32 = true /\
   exists c', Collider (Move (vz 0 (-4) 0) (Some ground0) None [] body0) = Some c' /\
              (vY (Min c') <? vY (Max ground0) + f_lit 2 10)%f32 = true) /\
  (let c := colliderAt bodyDeep (Position bodyDeep) in
   let d : spec_float := fz 1 in
   Collider bodyDeep = Some c /\
   IntersectionY groundHigh c = (true, d) /\
   d = (vY (Max groundHigh) - vY (Min c))%f32 /\
   (d >? f_lit 1 1000)%f32 = true /\
   (verticalRequest (vz 0 0 0) [] (groundPhase (Some groundHigh) bodyDeep) <? f0)%f32
     = false /\
   exists c', Collider (Move (vz 0 0 0) (Some groundHigh) None [] bodyDeep) = Some c' /\
              (vY (Min c') <? vY (Max groundHigh) + f_lit 2 10)%f32 = true).
Proof.
  split; cbv zeta.
  - split; [reflexivity|].
    do 3 (split; [vm_compute; reflexivity|]).
    eexists. split; [vm_compute; reflexivity|vm_compute; reflexivity].
  - split; [reflexivity|].
    do 4 (split; [vm_compute; reflexivity|]).
    eexists. split; [vm_compute; reflexivity|vm_compute; reflexivity].
Qed.

(** ** PhysicsEngine.update *)

Section Update.
Context {F : Type} {ops : Float32Ops F}.
Local Open Scope f32_scope.
Implicit Types (r : RigidBody F) (delta : F).

Lemma AppendHistory_keeps r :
  Velocity (AppendHistory r) = Velocity r /\
  Grounded (AppendHistory r) = Grounded r /\
  Mass (AppendHistory r) = Mass r /\
  Flying (AppendHistory r) = Flying r.
Proof. unfold AppendHistory. case_if; repeat split. Qed.

Lemma update_spec delta r :
  Grounded (PhysicsEngine.update delta r) = Grounded r /\
  Mass (PhysicsEngine.update delta r) = Mass r /\
  Flying (PhysicsEngine.update delta r) = Flying r /\
  Force (PhysicsEngine.update delta r) = Vzero /\
  vY (Velocity (PhysicsEngine.update delta r)) =
    if Grounded r && (clampedVy delta r <? f0) then f0 else clampedVy delta r.
Proof.
  unfold PhysicsEngine.update, clampedVy, integratedVy.
  destruct (negb (Grounded r) && negb (Flying r));
    cbn [Force set_Force Velocity set_Velocity Mass Grounded Flying Vadd Vmul vY];
    (destruct (_ <? DefaultTerminalVelocity);
     cbn [Force set_Force Velocity set_Velocity Mass Grounded Flying Vadd Vmul vY];
     (destruct (Grounded r && (_ <? f0));
      cbn [Force set_Force Velocity set_Velocity Mass Grounded Flying Vadd Vmul vY];
      match goal with
      | |- context [AppendHistory ?b] =>
          destruct (AppendHistory_keeps b) as (Hv & Hg & Hm & Hf)
      end;
      match goal with
      | |- context [if ?c then set_TripDistance f0 ?b else ?b] => destruct c
      end;
      cbn [Force set_Force Velocity set_Velocity Mass Grounded Flying
           set_TripDistance UpdateCollider set_Collider set_Position];
      rewrite ?Hv, ?Hg, ?Hm, ?Hf;
      cbn [Force set_Force Velocity set_Velocity Mass Grounded Flying vY];
      repeat split)).
Qed.

End Update.



(** ** MovementController.Move *)

Lemma Vlen_R (v : Vec3 R) :
  Vlen v = sqrt (vX v * vX v + vY v * vY v + vZ v * vZ v).
Proof. reflexivity. Qed.

Lemma sum_squares_pos (v : Vec3 R) :
  (0 < Vlen v)%R -> (0 < vX v * vX v + vY v * vY v + vZ v * vZ v)%R.
Proof.
  rewrite Vlen_R. intros H.
  destruct (Rle_lt_dec (vX v * vX v + vY v * vY v + vZ v * vZ v) 0) as [Hle|Hlt];
    [|exact Hlt].
  rewrite (sqrt_neg_0 _ Hle) in H. lra.
Qed.

(** A normalized vector scaled by [s] has length [|s|]. *)
Lemma normalize_scaled_len (v : Vec3 R) (s : R) :
  (0 < Vlen v)%R -> Vlen (Vmul (Vnormalize v) s) = Rabs s.
Proof.
  intros Hlen. pose proof (sum_squares_pos v Hlen) as HN.
  rewrite Vlen_R in Hlen. rewrite Vlen_R.
  unfold Vnormalize, Vmul, f1. rewrite Vlen_R. exactR_ops.
  set (q := sqrt (vX v * vX v + vY v * vY v + vZ v * vZ v)) in *.
  assert (Hsq : (q * q = vX v * vX v + vY v * vY v + vZ v * vZ v)%R)
    by (apply sqrt_sqrt; lra).
  assert (Hl : (1 / q * (1 / q) * (q * q) = 1)%R) by (field; lra).
  replace (vX v * (1 / q) * s * (vX v * (1 / q) * s) +
           vY v * (1 / q) * s * (vY v * (1 / q) * s) +
           vZ v * (1 / q) * s * (vZ v * (1 / q) * s))%R
    with (Rsqr s).
  - apply sqrt_Rsqr_abs.
  - unfold Rsqr.
    transitivity (1 / q * (1 / q) * (q * q) * (s * s))%R; [rewrite Hl; ring|].
    rewrite Hsq. ring.
Qed.

Lemma Vlen_R_zero (v : Vec3 R) :
  ~ (Vlen v > 0)%R -> v = mkVec3 0%R 0%R 0%R.
Proof.
  intros Hn. rewrite Vlen_R in Hn.
  pose proof (sqrt_pos (vX v * vX v + vY v * vY v + vZ v * vZ v)) as Hp.
  assert (H0 : sqrt (vX v * vX v + vY v * vY v + vZ v * vZ v) = 0%R) by lra.
  apply sqrt_eq_0 in H0; [|nra].
  destruct v as [x y z]. cbn [vX vY vZ] in *.
  assert (x = 0%R) by nra. assert (y = 0%R) by nra. assert (z = 0%R) by nra.
  subst. reflexivity.
Qed.

Lemma controller_Move_eq {F : Type} {ops : Float32Ops F}
    (m : MovementController.t F) (forward right up : F) (viewVector rightVector : Vec3 F) :
  MovementController.Move m forward right up viewVector rightVector =
    let movement := combinedMovement m forward right up viewVector rightVector in
    if (Vlen movement >? f0)%f32
    then Vmul (Vnormalize movement) (MovementController.Speed m)
    else movement.
Proof. reflexivity. Qed.

(** In exact arithmetic a view vector that is not vertical flattens to a
    unit vector, and walking straight ahead combines to that unit vector. *)
Lemma flatten_R (v : Vec3 R) :
  (vX v <> 0 \/ vZ v <> 0)%R ->
  let q := sqrt (vX v * vX v + 0 * 0 + vZ v * vZ v) in
  (0 < q)%R /\
  flatten v = mkVec3 (vX v * (1 / q))%R (0 * (1 / q))%R (vZ v * (1 / q))%R.
Proof.
  intros Hv q.
  assert (HN : (0 < vX v * vX v + 0 * 0 + vZ v * vZ v)%R) by (destruct Hv; nra).
  assert (Hq : (0 < q)%R) by (apply sqrt_lt_R0; exact HN).
  split; [exact Hq|].
  unfold flatten. rewrite Vlen_R. cbn [vX vY vZ]. unfold f0. cbn [f_of_Z f_gtb exactR].
  fold q. destruct (ExactR_gtb_spec q 0) as [_|Hn]; [|lra].
  unfold Vnormalize, f1. rewrite Vlen_R. exactR_ops. reflexivity.
Qed.

Lemma combined_forward_len (m : MovementController.t R) (up : R)
    (viewVector rightVector : Vec3 R) :
  MovementController.Flying m = false ->
  (vX viewVector <> 0 \/ vZ viewVector <> 0)%R ->
  Vlen (combinedMovement m 1%R 0%R up viewVector rightVector) = 1%R.
Proof.
  intros Hfly Hview. unfold combinedMovement. rewrite Hfly.
  destruct (flatten_R viewVector Hview) as [Hq ->].
  set (q := sqrt (vX viewVector * vX viewVector + 0 * 0 + vZ viewVector * vZ viewVector)) in *.
  set (fr := flatten rightVector).
  assert (Hsq : (q * q = vX viewVector * vX viewVector + 0 * 0 +
                         vZ viewVector * vZ viewVector)%R)
    by (apply sqrt_sqrt; nra).
  assert (Hl : (1 / q * (1 / q) * (q * q) = 1)%R) by (field; lra).
  rewrite Vlen_R. exactR_ops.
  replace (_ + _ + _)%R with 1%R; [apply sqrt_1|].
  rewrite <- Hl at 1. rewrite Hsq. ring.
Qed.

(** C8.  [up] enters the result of [MovementController.Move] only when the
    controller is flying.  In exact arithmetic the result is the zero
    vector or has magnitude |Speed| (Speed itself for a speed that is not
    negative); with [forward = 1], [right = 0], flying false and a view
    vector that is not vertical it has that magnitude, whatever [up] is. *)
Theorem C8_controller_Move :
  (forall (F : Type) (ops : Float32Ops F) (m : MovementController.t F)
          (forward right up up' : F) (viewVector rightVector : Vec3 F),
     MovementController.Flying m = false ->
     MovementController.Move m forward right up viewVector rightVector =
     MovementController.Move m forward right up' viewVector rightVector) /\
  (forall (m : MovementController.t R) (forward right up : R)
          (viewVector rightVector : Vec3 R),
     let v := MovementController.Move m forward right up viewVector rightVector in
     v = mkVec3 0%R 0%R 0%R \/ Vlen v = Rabs (MovementController.Speed m)) /\
  (forall (m : MovementController.t R) (up : R)
          (viewVector rightVector : Vec3 R),
     MovementController.Flying m = false ->
     (vX viewVector <> 0 \/ vZ viewVector <> 0)%R ->
     let v := MovementController.Move m 1%R 0%R up viewVector rightVector in
     Vlen v = Rabs (MovementController.Speed m) /\
     ((0 <= MovementController.Speed m)%R -> Vlen v = MovementController.Speed m)).
Proof.
  split; [|split].
  - intros F ops m forward right up up' viewVector rightVector Hfly.
    rewrite !controller_Move_eq. unfold combinedMovement. rewrite Hfly. reflexivity.
  - intros m forward right up viewVector rightVector v. unfold v.
    rewrite controller_Move_eq. cbv zeta.
    set (mv := combinedMovement m forward right up viewVector rightVector).
    unfold f0. cbn [f_gtb f_of_Z exactR].
    destruct (ExactR_gtb_spec (Vlen mv) 0) as [Hpos|Hn].
    + right. apply normalize_scaled_len. lra.
    + left. apply Vlen_R_zero. exact Hn.
  - intros m up viewVector rightVector Hfly Hview v.
    assert (Hv : Vlen v = Rabs (MovementController.Speed m)).
    { unfold v. rewrite controller_Move_eq. cbv zeta.
      pose proof (combined_forward_len m up viewVector rightVector Hfly Hview) as H1.
      set (mv := combinedMovement m 1%R 0%R up viewVector rightVector) in *.
      unfold f0. cbn [f_gtb f_of_Z exactR].
      destruct (ExactR_gtb_spec (Vlen mv) 0) as [Hpos|Hn]; [|lra].
      apply normalize_scaled_len. lra. }
    split; [exact Hv|]. intros Hs. rewrite Hv. apply Rabs_right. lra.
Qed.

Lemma C8_controller_Move_witness :
  (MovementController.Move ctl0 (fz 1) (fz 0) (fz 3) (vz 1 0 0) (vz 0 0 1) =
   MovementController.Move ctl0 (fz 1) (fz 0) (fz 0) (vz 1 0 0) (vz 0 0 1)) /\
  Vlen (MovementController.Move ctlR 1%R 0%R 3%R (mkVec3 1 0 0)%R (mkVec3 0 0 1)%R) = 5%R.
Proof.
  destruct C8_controller_Move as (H1 & _ & H3). split.
  - apply H1. reflexivity.
  - apply (H3 ctlR 3%R (mkVec3 1 0 0)%R (mkVec3 0 0 1)%R).
    + reflexivity.
    + left. cbn [vX]. lra.
    + cbn [MovementController.Speed ctlR]. lra.
Defined.

(** Looking straight up ([viewVector = (0, 1, 0)], a unit vector orthogonal
    to [rightVector = (1, 0, 0)]) with [forward = 1], [right = 0], [up = 3]
    and flying false, a controller of speed 5 returns the zero vector.  And
    in binary32 a view vector so short that its squared length underflows
    comes back as it is, neither zero nor of the length of the speed. *)
Lemma C8_counterexample :
  (MovementController.Flying ctl0 = false /\
   MovementController.Speed ctl0 = fz 5 /\
   Vlen (vz 0 1 0) = fz 1 /\ Vlen (vz 1 0 0) = fz 1 /\
   MovementController.Move ctl0 (fz 1) (fz 0) (fz 3) (vz 0 1 0) (vz 1 0 0) = vz 0 0 0 /\
   Vlen (MovementController.Move ctl0 (fz 1) (fz 0) (fz 3) (vz 0 1 0) (vz 1 0 0)) = fz 0) /\
  (B32.valid (vX tinyView) = true /\
   MovementController.Move ctl0 (fz 1) (fz 0) (fz 0) tinyView (vz 0 0 1) = tinyView /\
   tinyView <> vz 0 0 0 /\
   Vlen (MovementController.Move ctl0 (fz 1) (fz 0) (fz 0) tinyView (vz 0 0 1)) <> fz 5).
Proof. vm_compute. repeat split; discriminate. Qed.

(** * Further properties *)

(** ** The order of binary32 *)

Lemma ltb_keyLt (x y : spec_float) :
  B32.ltb x y = true <->
  is_nan x = false /\ is_nan y = false /\ keyLt (orderKey x) (orderKey y).
Proof.
  unfold B32.ltb, SFltb, SFcompare, keyLt, orderKey.
  destruct x as [sx|sx| |sx mx ex], y as [sy|sy| |sy my ey]; cbn [is_nan];
    try destruct sx; try destruct sy;
    try (split; [discriminate|intros (H1 & H2 & H3); try discriminate; lia]);
    try (split; [intros _; repeat split; lia|reflexivity]).
  - destruct (Z.compare_spec ex ey) as [He|He|He].
    + subst. change (Pos.compare_cont Eq mx my) with (Pos.compare mx my).
      destruct (Pos.compare_spec mx my) as [Hm|Hm|Hm]; cbn [CompOpp];
        (split; [try discriminate; intros _; repeat split; lia
                |intros (_ & _ & H); try reflexivity; lia]).
    + split; [discriminate|intros (_ & _ & H); lia].
    + split; [intros _; repeat split; lia|reflexivity].
  - destruct (Z.compare_spec ex ey) as [He|He|He].
    + subst. change (Pos.compare_cont Eq mx my) with (Pos.compare mx my).
      destruct (Pos.compare_spec mx my) as [Hm|Hm|Hm];
        (split; [try discriminate; intros _; repeat split; lia
                |intros (_ & _ & H); try reflexivity; lia]).
    + split; [intros _; repeat split; lia|reflexivity].
    + split; [discriminate|intros (_ & _ & H); lia].
Qed.

Lemma ltb_not_nan (x y : spec_float) :
  B32.ltb x y = true -> is_nan x = false /\ is_nan y = false.
Proof. intros H. apply ltb_keyLt in H. tauto. Qed.

Lemma ltb_false_keyLt (x y : spec_float) :
  is_nan x = false -> is_nan y = false ->
  (B32.ltb x y = false <-> ~ keyLt (orderKey x) (orderKey y)).
Proof.
  intros Hx Hy. pose proof (ltb_keyLt x y) as H.
  destruct (B32.ltb x y); split.
  - discriminate.
  - intros Hn. exfalso. apply Hn. apply H. reflexivity.
  - intros _ Hk. assert (Hf : false = true) by (apply H; tauto). discriminate Hf.
  - reflexivity.
Qed.

Ltac key_order :=
  unfold keyLt in *;
  repeat match goal with
         | |- context [orderKey ?x] =>
             let a := fresh "a" in let b := fresh "b" in let c := fresh "c" in
             destruct (orderKey x) as [[a b] c]
         | H : context [orderKey ?x] |- _ =>
             let a := fresh "a" in let b := fresh "b" in let c := fresh "c" in
             destruct (orderKey x) as [[a b] c]
         end;
  lia.

Lemma ltb_irrefl (x : spec_float) : B32.ltb x x = false.
Proof.
  destruct (B32.ltb x x) eqn:H; [|reflexivity].
  apply ltb_keyLt in H. destruct H as (_ & _ & H). exfalso. key_order.
Qed.

Lemma ltb_asym (x y : spec_float) : B32.ltb x y = true -> B32.ltb y x = false.
Proof.
  intros H. destruct (B32.ltb y x) eqn:H'; [|reflexivity].
  apply ltb_keyLt in H, H'. destruct H as (_ & _ & H), H' as (_ & _ & H').
  exfalso. key_order.
Qed.

Lemma ltb_trans (x y z : spec_float) :
  B32.ltb x y = true -> B32.ltb y z = true -> B32.ltb x z = true.
Proof.
  intros H H'. apply ltb_keyLt in H, H'. apply ltb_keyLt.
  destruct H as (Hx & _ & H), H' as (_ & Hz & H').
  repeat split; try assumption. key_order.
Qed.

(** [x < y] and [y <= z] (that is, not [z < y], for a [z] that is a number)
    give [x < z]. *)
Lemma ltb_le_trans (x y z : spec_float) :
  B32.ltb x y = true -> B32.ltb z y = false -> is_nan z = false ->
  B32.ltb x z = true.
Proof.
  intros H H' Hz. destruct (ltb_not_nan _ _ H) as [Hx Hy].
  apply ltb_keyLt in H. apply (ltb_false_keyLt _ _ Hz Hy) in H'.
  apply ltb_keyLt. destruct H as (_ & _ & H).
  repeat split; try assumption. key_order.
Qed.

Lemma le_ltb_trans (x y z : spec_float) :
  B32.ltb y x = false -> is_nan x = false -> B32.ltb y z = true ->
  B32.ltb x z = true.
Proof.
  intros H Hx H'. destruct (ltb_not_nan _ _ H') as [Hy Hz].
  apply ltb_keyLt in H'. apply (ltb_false_keyLt _ _ Hy Hx) in H.
  apply ltb_keyLt. destruct H' as (_ & _ & H').
  repeat split; try assumption. key_order.
Qed.

(** ** Box.Distance and Box.Corners *)

Lemma withinAxis_true {F : Type} {ops : Float32Ops F} (lo hi p : F) :
  withinAxis lo hi p = true -> (p <? lo)%f32 = false /\ (p >? hi)%f32 = false.
Proof.
  unfold withinAxis. rewrite andb_true_iff, !negb_true_iff. tauto.
Qed.

Lemma Distance_inside (b : Box spec_float) (p : Vec3 spec_float) :
  within b p = true -> Distance b p = f0.
Proof.
  unfold within. rewrite !andb_true_iff. intros [[Hx Hy] Hz].
  apply withinAxis_true in Hx, Hy, Hz.
  destruct Hx as [Hx1 Hx2], Hy as [Hy1 Hy2], Hz as [Hz1 Hz2].
  unfold Distance. rewrite Hx1, Hx2, Hy1, Hy2, Hz1, Hz2. reflexivity.
Qed.

Lemma withinAxis_ends (lo hi : spec_float) :
  B32.ltb hi lo = false ->
  withinAxis lo hi lo = true /\ withinAxis lo hi hi = true.
Proof.
  intros H. unfold withinAxis. rewrite !f_gtb_ltb. change f_ltb with B32.ltb.
  rewrite !ltb_irrefl, H. split; reflexivity.
Qed.

(** X1.  [Distance] is exactly +0 for every point that is neither below the
    minimum nor above the maximum along any axis; [Corners] lists eight
    points and, for a box whose maximum is nowhere below its minimum, each
    of them is such a point. *)
Theorem X1_Distance_zero_inside (b : Box spec_float) :
  (forall p, within b p = true -> Distance b p = f0) /\
  length (Corners b) = 8%nat /\
  (ordered b = true ->
   forall c, In c (Corners b) -> within b c = true /\ Distance b c = f0).
Proof.
  split; [intros p; apply Distance_inside|]. split; [reflexivity|].
  unfold ordered. rewrite !andb_true_iff, !negb_true_iff. change f_ltb with B32.ltb.
  intros [[Hx Hy] Hz].
  destruct (withinAxis_ends _ _ Hx) as [Hx1 Hx2].
  destruct (withinAxis_ends _ _ Hy) as [Hy1 Hy2].
  destruct (withinAxis_ends _ _ Hz) as [Hz1 Hz2].
  assert (Hin : forall c, In c (Corners b) -> within b c = true).
  { intros c Hc. unfold Corners in Hc. cbn [In] in Hc.
    unfold within.
    repeat destruct Hc as [<-|Hc]; try contradiction; cbn [vX vY vZ];
      rewrite ?Hx1, ?Hx2, ?Hy1, ?Hy2, ?Hz1, ?Hz2; reflexivity. }
  intros c Hc. split; [apply Hin, Hc|apply Distance_inside, Hin, Hc].
Qed.

Lemma X1_Distance_zero_inside_witness :
  within cubeL (vz 1 0 1) = true /\ Distance cubeL (vz 1 0 1) = f0.
Proof.
  destruct (X1_Distance_zero_inside cubeL) as (_ & _ & H).
  apply H; [reflexivity|]. cbn. tauto.
Defined.

(** In exact arithmetic [Distance] is the root of the three axis terms. *)
Lemma Distance_R_eq (b : Box R) (p : Vec3 R) :
  Distance b p =
    sqrt (axisExcessSq (vX (Min b)) (vX (Max b)) (vX p) +
          axisExcessSq (vY (Min b)) (vY (Max b)) (vY p) +
          axisExcessSq (vZ (Min b)) (vZ (Max b)) (vZ p)).
Proof.
  unfold Distance, axisExcessSq, f0. exactR_ops.
  destruct (ExactR.ltb (vX p) (vX (Min b))), (ExactR.gtb (vX p) (vX (Max b))),
           (ExactR.ltb (vY p) (vY (Min b))), (ExactR.gtb (vY p) (vY (Max b))),
           (ExactR.ltb (vZ p) (vZ (Min b))), (ExactR.gtb (vZ p) (vZ (Max b)));
    f_equal; ring.
Qed.

Lemma axisExcessSq_R (lo hi x : R) :
  (0 <= axisExcessSq lo hi x)%R /\
  (axisExcessSq lo hi x = 0%R <-> withinAxis lo hi x = true) /\
  (forall q, withinAxis lo hi q = true ->
     (axisExcessSq lo hi x <= (x - q) * (x - q))%R) /\
  ((lo <= hi)%R ->
     withinAxis lo hi (clampTo lo hi x) = true /\
     axisExcessSq lo hi x = ((x - clampTo lo hi x) * (x - clampTo lo hi x))%R).
Proof.
  unfold axisExcessSq, withinAxis, clampTo, f0. exactR_ops.
  split; [|split; [|split]].
  - destruct (ExactR_ltb_spec x lo), (ExactR_gtb_spec x hi); nra.
  - destruct (ExactR_ltb_spec x lo), (ExactR_gtb_spec x hi); cbn [negb andb];
      split; try reflexivity; try discriminate; intros; nra.
  - intros q.
    destruct (ExactR_ltb_spec q lo), (ExactR_gtb_spec q hi); cbn [negb andb];
      try discriminate; intros _.
    destruct (ExactR_ltb_spec x lo) as [H1|H1].
    + replace ((x - q) * (x - q))%R
        with ((lo - x) * (lo - x) + (q - lo) * (q - x + (lo - x)))%R by ring.
      assert (0 <= (q - lo) * (q - x + (lo - x)))%R by (apply Rmult_le_pos; lra).
      lra.
    + destruct (ExactR_gtb_spec x hi) as [H2|H2].
      * replace ((x - q) * (x - q))%R
          with ((x - hi) * (x - hi) + (hi - q) * (x - q + (x - hi)))%R by ring.
        assert (0 <= (hi - q) * (x - q + (x - hi)))%R by (apply Rmult_le_pos; lra).
        lra.
      * apply Rle_0_sqr.
  - intros Hord.
    destruct (ExactR_ltb_spec x lo) as [H1|H1].
    + destruct (ExactR_ltb_spec lo lo), (ExactR_gtb_spec lo hi); cbn [negb andb];
        split; try reflexivity; try lra.
    + destruct (ExactR_gtb_spec x hi) as [H2|H2].
      * destruct (ExactR_ltb_spec hi lo), (ExactR_gtb_spec hi hi); cbn [negb andb];
          split; try reflexivity; try lra.
      * destruct (ExactR_ltb_spec x lo), (ExactR_gtb_spec x hi); cbn [negb andb];
          split; try reflexivity; try lra.
Qed.

Lemma within_R_iff (b : Box R) (p : Vec3 R) :
  within b p = true <->
  withinAxis (vX (Min b)) (vX (Max b)) (vX p) = true /\
  withinAxis (vY (Min b)) (vY (Max b)) (vY p) = true /\
  withinAxis (vZ (Min b)) (vZ (Max b)) (vZ p) = true.
Proof. unfold within. rewrite !andb_true_iff. tauto. Qed.

(** X2.  In exact arithmetic [Distance] is never negative, and it is zero
    exactly for the points within the box along every axis. *)
Theorem X2_Distance_zero_iff (b : Box R) (p : Vec3 R) :
  (0 <= Distance b p)%R /\ (Distance b p = 0%R <-> within b p = true).
Proof.
  rewrite Distance_R_eq, within_R_iff.
  destruct (axisExcessSq_R (vX (Min b)) (vX (Max b)) (vX p)) as (Hx0 & Hxz & _).
  destruct (axisExcessSq_R (vY (Min b)) (vY (Max b)) (vY p)) as (Hy0 & Hyz & _).
  destruct (axisExcessSq_R (vZ (Min b)) (vZ (Max b)) (vZ p)) as (Hz0 & Hzz & _).
  split; [apply sqrt_pos|].
  rewrite <- Hxz, <- Hyz, <- Hzz. split.
  - intros H. apply sqrt_eq_0 in H; [|lra]. lra.
  - intros (-> & -> & ->). rewrite !Rplus_0_r. apply sqrt_0.
Qed.

(** X3.  In exact arithmetic [Distance] is the least distance from the point
    to a point of the box: it is at most the distance to any point within
    the box and, for a box whose minimum is not above its maximum, it is
    the distance to the point obtained by moving each coordinate into the
    box's range. *)
Theorem X3_Distance_is_least (b : Box R) (p : Vec3 R) :
  (forall q, within b q = true -> (Distance b p <= Vlen (Vsub p q))%R) /\
  ((vX (Min b) <= vX (Max b))%R -> (vY (Min b) <= vY (Max b))%R ->
   (vZ (Min b) <= vZ (Max b))%R ->
   within b (nearest b p) = true /\
   Distance b p = Vlen (Vsub p (nearest b p))).
Proof.
  destruct (axisExcessSq_R (vX (Min b)) (vX (Max b)) (vX p)) as (Hx0 & _ & Hxq & Hxc).
  destruct (axisExcessSq_R (vY (Min b)) (vY (Max b)) (vY p)) as (Hy0 & _ & Hyq & Hyc).
  destruct (axisExcessSq_R (vZ (Min b)) (vZ (Max b)) (vZ p)) as (Hz0 & _ & Hzq & Hzc).
  split.
  - intros q Hq. apply within_R_iff in Hq. destruct Hq as (Hqx & Hqy & Hqz).
    rewrite Distance_R_eq, Vlen_R. cbn [Vsub vX vY vZ]. exactR_ops.
    apply sqrt_le_1_alt.
    specialize (Hxq _ Hqx). specialize (Hyq _ Hqy). specialize (Hzq _ Hqz). lra.
  - intros Ox Oy Oz.
    destruct (Hxc Ox) as [Wx Ex], (Hyc Oy) as [Wy Ey], (Hzc Oz) as [Wz Ez].
    split.
    + apply within_R_iff. cbn [nearest vX vY vZ]. auto.
    + rewrite Distance_R_eq, Vlen_R. cbn [Vsub nearest vX vY vZ]. exactR_ops.
      rewrite Ex, Ey, Ez. reflexivity.
Qed.

Lemma X3_Distance_is_least_witness :
  within groundR (nearest groundR (mkVec3 3 0 0)%R) = true /\
  Distance groundR (mkVec3 3 0 0)%R =
    Vlen (Vsub (mkVec3 3 0 0)%R (nearest groundR (mkVec3 3 0 0)%R)).
Proof.
  apply (proj2 (X3_Distance_is_least groundR (mkVec3 3 0 0)%R));
    cbn [groundR Min Max vX vY vZ]; lra.
Defined.

(** ** Box.CombineY *)

Lemma minf_lower (a b : spec_float) :
  B32.ltb a (minf a b) = false /\ B32.ltb b (minf a b) = false /\
  (minf a b = a \/ minf a b = b).
Proof.
  unfold minf. change f_ltb with B32.ltb.
  destruct (B32.ltb a b) eqn:H.
  - rewrite ltb_irrefl, (ltb_asym _ _ H). auto.
  - rewrite ltb_irrefl, H. auto.
Qed.

Lemma maxf_upper (a b : spec_float) :
  B32.ltb (maxf a b) a = false /\ B32.ltb (maxf a b) b = false /\
  (maxf a b = a \/ maxf a b = b).
Proof.
  unfold maxf. rewrite f_gtb_ltb. change f_ltb with B32.ltb.
  destruct (B32.ltb b a) eqn:H.
  - rewrite ltb_irrefl, (ltb_asym _ _ H). auto.
  - rewrite ltb_irrefl, H. auto.
Qed.

(** X4.  [CombineY] keeps the receiver's X and Z ranges and returns a Y
    range made of coordinates of the two boxes that covers both Y ranges:
    its minimum is above neither minimum, its maximum below neither
    maximum. *)
Theorem X4_CombineY_covers (b other : Box spec_float) :
  let c := CombineY b other in
  (vX (Min c) = vX (Min b) /\ vZ (Min c) = vZ (Min b) /\
   vX (Max c) = vX (Max b) /\ vZ (Max c) = vZ (Max b)) /\
  (B32.ltb (vY (Min b)) (vY (Min c)) = false /\
   B32.ltb (vY (Min other)) (vY (Min c)) = false /\
   B32.ltb (vY (Max c)) (vY (Max b)) = false /\
   B32.ltb (vY (Max c)) (vY (Max other)) = false) /\
  ((vY (Min c) = vY (Min b) \/ vY (Min c) = vY (Min other)) /\
   (vY (Max c) = vY (Max b) \/ vY (Max c) = vY (Max other))).
Proof.
  cbv zeta. cbn [CombineY Min Max vX vY vZ].
  destruct (minf_lower (vY (Min b)) (vY (Min other))) as (H1 & H2 & H3).
  destruct (maxf_upper (vY (Max b)) (vY (Max other))) as (H4 & H5 & H6).
  repeat split; assumption.
Qed.

(** X5.  [CombineY] only grows the receiver (whose Y coordinates are
    numbers): every box that intersects the receiver intersects the
    combined box, in either call order. *)
Theorem X5_CombineY_keeps_intersections (b other c : Box spec_float) :
  is_nan (vY (Min b)) = false -> is_nan (vY (Max b)) = false ->
  fst (Intersection c b) = true ->
  fst (Intersection c (CombineY b other)) = true /\
  fst (Intersection (CombineY b other) c) = true.
Proof.
  intros Nmin Nmax. rewrite !Intersection_fst.
  rewrite (separated_sym (CombineY b other) c).
  rewrite !negb_true_iff. intros Hsep.
  destruct (separated_false c b Hsep) as ((Hx1 & Hx2) & (Hy1 & Hy2) & (Hz1 & Hz2)).
  assert (H : separated c (CombineY b other) = false).
  { unfold separated, separatedX, separatedY, separatedZ.
    cbn [CombineY Min Max vX vY vZ]. change f_ltb with B32.ltb.
    rewrite Hx1, Hx2, Hz1, Hz2. cbn [orb]. rewrite orb_false_r.
    apply orb_false_iff. split.
    - unfold minf. change f_ltb with B32.ltb.
      destruct (B32.ltb (vY (Min b)) (vY (Min other))) eqn:Hm; [exact Hy1|].
      destruct (B32.ltb (vY (Max c)) (vY (Min other))) eqn:Hc; [|reflexivity].
      rewrite (ltb_le_trans _ _ _ Hc Hm Nmin) in Hy1. discriminate.
    - unfold maxf. rewrite f_gtb_ltb. change f_ltb with B32.ltb.
      destruct (B32.ltb (vY (Max other)) (vY (Max b))) eqn:Hm; [exact Hy2|].
      destruct (B32.ltb (vY (Max other)) (vY (Min c))) eqn:Hc; [|reflexivity].
      rewrite (le_ltb_trans _ _ _ Hm Nmax Hc) in Hy2. discriminate. }
  rewrite H. split; reflexivity.
Qed.

Lemma X5_CombineY_keeps_intersections_witness :
  fst (Intersection cubeL (CombineY cubeR boxB)) = true /\
  fst (Intersection (CombineY cubeR boxB) cubeL) = true.
Proof.
  apply X5_CombineY_keeps_intersections; reflexivity.
Defined.

(** ** The three intersection tests together *)

Section IntersectionTests.
Context {F : Type} {ops : Float32Ops F}.
Local Open Scope f32_scope.

Lemma Intersection_fst_tests (b other : Box F) :
  fst (Intersection b other) =
    negb ((vX (Max b) <? vX (Min other)) || (vX (Min b) >? vX (Max other)) ||
          (vY (Max b) <? vY (Min other)) || (vY (Min b) >? vY (Max other)) ||
          (vZ (Max b) <? vZ (Min other)) || (vZ (Min b) >? vZ (Max other))).
Proof.
  unfold Intersection.
  destruct (_ || _ || _ || _ || _ || _)%bool; [reflexivity|].
  cbv zeta.
  destruct (_ && _)%bool; [reflexivity|].
  destruct (_ && _)%bool; reflexivity.
Qed.

Lemma IntersectionXZ_fst_tests (b other : Box F) :
  fst (IntersectionXZ b other) =
    negb ((vX (Max b) <? vX (Min other)) || (vX (Min b) >? vX (Max other)) ||
          (vZ (Max b) <? vZ (Min other)) || (vZ (Min b) >? vZ (Max other))).
Proof.
  unfold IntersectionXZ.
  destruct (_ || _ || _ || _)%bool; [reflexivity|].
  cbv zeta. destruct (_ <? _); reflexivity.
Qed.

Lemma IntersectionY_tests (b other : Box F) :
  IntersectionY b other =
    if (vX (Max b) <? vX (Min other)) || (vX (Min b) >? vX (Max other)) ||
       (vY (Max b) <? vY (Min other)) || (vY (Min b) >? vY (Max other)) ||
       (vZ (Max b) <? vZ (Min other)) || (vZ (Min b) >? vZ (Max other))
    then (false, f0) else (true, depthY b other).
Proof.
  unfold IntersectionY, depthY.
  destruct (vX (Max b) <? vX (Min other)), (vX (Min b) >? vX (Max other)),
           (vY (Max b) <? vY (Min other)), (vY (Min b) >? vY (Max other)),
           (vZ (Max b) <? vZ (Min other)), (vZ (Min b) >? vZ (Max other));
    reflexivity.
Qed.

End IntersectionTests.

(** X6.  The three tests agree: [IntersectionY] answers as [Intersection]
    does and, when it answers [true], its depth is the Y depth
    [Intersection] computes (zero otherwise); whenever [Intersection]
    answers [true] so does [IntersectionXZ]. *)
Theorem X6_intersection_tests_agree {F : Type} {ops : Float32Ops F}
    (b other : Box F) :
  fst (IntersectionY b other) = fst (Intersection b other) /\
  snd (IntersectionY b other) =
    (if fst (Intersection b other) then depthY b other else f0) /\
  (fst (Intersection b other) = true -> fst (IntersectionXZ b other) = true).
Proof.
  rewrite IntersectionY_tests, Intersection_fst_tests, IntersectionXZ_fst_tests.
  destruct (vX (Max b) <? vX (Min other))%f32, (vX (Min b) >? vX (Max other))%f32,
           (vY (Max b) <? vY (Min other))%f32, (vY (Min b) >? vY (Max other))%f32,
           (vZ (Max b) <? vZ (Min other))%f32, (vZ (Min b) >? vZ (Max other))%f32;
    cbn; repeat split; try reflexivity; discriminate.
Qed.

Lemma X6_intersection_tests_agree_witness :
  fst (IntersectionXZ boxA boxB) = true.
Proof.
  apply (proj2 (proj2 (X6_intersection_tests_agree boxA boxB))). reflexivity.
Defined.

(** ** Box.IntersectionXZ *)

(** X7.  [IntersectionXZ] answers the same in both call orders; when it
    answers [true] the penetration vector has no Y component and lies along
    one axis: along X when the X depth is strictly the smaller, along Z
    otherwise, so never along the strictly deeper axis. *)
Theorem X7_IntersectionXZ_least_axis (b other : Box spec_float) :
  fst (IntersectionXZ b other) = fst (IntersectionXZ other b) /\
  (fst (IntersectionXZ b other) = true ->
   let pen := snd (IntersectionXZ b other) in
   vY pen = f0 /\
   ((vZ pen = f0 /\
     vX pen = (depthX b other *
               signF ((vX (Max other) - vX (Min b)) - (vX (Max b) - vX (Min other))))%f32 /\
     B32.ltb (depthX b other) (depthZ b other) = true /\
     B32.ltb (depthZ b other) (depthX b other) = false) \/
    (vX pen = f0 /\
     vZ pen = (depthZ b other *
               signF ((vZ (Max other) - vZ (Min b)) - (vZ (Max b) - vZ (Min other))))%f32 /\
     B32.ltb (depthX b other) (depthZ b other) = false))).
Proof.
  split.
  - rewrite !IntersectionXZ_fst_tests, !f_gtb_ltb. f_equal.
    destruct (vX (Max b) <? vX (Min other))%f32, (vX (Max other) <? vX (Min b))%f32,
             (vZ (Max b) <? vZ (Min other))%f32, (vZ (Max other) <? vZ (Min b))%f32;
      reflexivity.
  - unfold IntersectionXZ.
    destruct (_ || _ || _ || _)%bool; [discriminate|]. intros _.
    cbv zeta. fold (depthX b other) (depthZ b other).
    change (depthX b other <? depthZ b other)%f32
      with (B32.ltb (depthX b other) (depthZ b other)).
    destruct (B32.ltb (depthX b other) (depthZ b other)) eqn:Hlt; cbn [snd vX vY vZ].
    + split; [reflexivity|]. left. split; [reflexivity|]. split; [reflexivity|].
      split; [reflexivity|]. apply ltb_asym, Hlt.
    + split; [reflexivity|]. right. repeat split.
Qed.

Lemma X7_IntersectionXZ_least_axis_witness :
  vY (snd (IntersectionXZ boxA boxB)) = f0.
Proof.
  apply (proj2 (X7_IntersectionXZ_least_axis boxA boxB)). reflexivity.
Defined.

(** ** RigidBody.Jump *)

(** X8.  [Jump] launches a grounded body only: it sets the vertical velocity
    to [JumpSpeed] and clears [Grounded], so a second call in a row does
    nothing (no double jump); an airborne body is left as it is.  The X and
    Z velocity, the position and the collider are never touched. *)
Theorem X8_Jump_once {F : Type} {ops : Float32Ops F} (r : RigidBody F) :
  Jump (Jump r) = Jump r /\
  Grounded (Jump r) = false /\
  (Grounded r = true -> vY (Velocity (Jump r)) = JumpSpeed r) /\
  (Grounded r = false -> Jump r = r) /\
  vX (Velocity (Jump r)) = vX (Velocity r) /\
  vZ (Velocity (Jump r)) = vZ (Velocity r) /\
  Position (Jump r) = Position r /\
  Collider (Jump r) = Collider r.
Proof.
  unfold Jump. destruct (Grounded r) eqn:Hg.
  - cbn [Grounded set_Grounded]. repeat split; try discriminate.
  - rewrite Hg. repeat split; auto. discriminate.
Qed.

Lemma X8_Jump_once_witness :
  vY (Velocity (Jump bodyG)) = JumpSpeed bodyG.
Proof.
  apply (proj1 (proj2 (proj2 (X8_Jump_once bodyG)))). reflexivity.
Defined.

(** ** The collider follows the position *)

Section ColliderSync.
Context {F : Type} {ops : Float32Ops F}.
Local Open Scope f32_scope.
Implicit Types (r : RigidBody F).

Lemma UpdateCollider_sync r : colliderInSync (UpdateCollider r).
Proof. reflexivity. Qed.

Lemma AppendHistory_shape r :
  Width (AppendHistory r) = Width r /\ Height (AppendHistory r) = Height r /\
  Collider (AppendHistory r) = Collider r.
Proof. unfold AppendHistory. case_if; repeat split. Qed.

Lemma Move_sync movement ground ceiling walls r :
  colliderInSync (Move movement ground ceiling walls r).
Proof.
  unfold Move. case_if; [apply UpdateCollider_sync|].
  cbn [Flying set_Position]. case_if; apply UpdateCollider_sync.
Qed.

Lemma update_sync delta r : colliderInSync (PhysicsEngine.update delta r).
Proof.
  unfold PhysicsEngine.update.
  match goal with
  | |- colliderInSync (set_Force Vzero (if ?c then set_TripDistance f0 ?b else ?b)) =>
      destruct c; reflexivity
  end.
Qed.

End ColliderSync.

(** X9.  Every operation that moves a body leaves its collider rebuilt at
    the final position: [UpdateCollider], [Move] with any arguments, the
    engine's [update], and the controller's [Update] and [SetPosition].
    The tentative colliders the sweeps of [Move] build at rejected
    positions never survive the call. *)
Theorem X9_collider_in_sync {F : Type} {ops : Float32Ops F} (r : RigidBody F)
    (m : MovementController.t F) :
  colliderInSync (UpdateCollider r) /\
  (forall movement ground ceiling walls,
     colliderInSync (Move movement ground ceiling walls r)) /\
  (forall delta, colliderInSync (PhysicsEngine.update delta r)) /\
  (forall forward right up viewVector rightVector,
     colliderInSync
       (MovementController.Body
          (Controller.Update m forward right up viewVector rightVector))) /\
  (forall pos,
     colliderInSync (MovementController.Body (Controller.SetPosition m pos)) /\
     Controller.GetPosition (Controller.SetPosition m pos) = pos).
Proof.
  split; [apply UpdateCollider_sync|].
  split; [intros; apply Move_sync|].
  split; [intros; apply update_sync|].
  split.
  - intros. apply UpdateCollider_sync.
  - intros pos. split; [apply UpdateCollider_sync|].
    unfold Controller.GetPosition, Controller.SetPosition.
    cbn [MovementController.Body Controller.with_Body UpdateCollider
         set_Collider Position].
    rewrite (proj1 (AppendHistory_frame _)). reflexivity.
Qed.

(** X10.  In exact arithmetic the body's position is the centre of the top
    face of its collider: the collider hangs [Height] below the position and
    reaches [Width / 2] to each side along X and Z; for non-negative sizes it
    is a well-formed box that holds the position. *)
Theorem X10_collider_geometry (r : RigidBody R) (c : Box R) :
  colliderInSync r -> Collider r = Some c ->
  (vY (Max c) = vY (Position r) /\
   vY (Min c) = vY (Position r) - Height r /\
   vX (Max c) - vX (Min c) = Width r /\
   vZ (Max c) - vZ (Min c) = Width r /\
   (vX (Min c) + vX (Max c)) / 2 = vX (Position r) /\
   (vZ (Min c) + vZ (Max c)) / 2 = vZ (Position r))%R /\
  ((0 <= Width r)%R -> (0 <= Height r)%R ->
   ordered c = true /\ within c (Position r) = true).
Proof.
  unfold colliderInSync. intros Hs Hc. rewrite Hc in Hs. injection Hs as ->.
  unfold colliderAt, f0. exactR_ops.
  split; [repeat split; lra|].
  intros Hw Hh. unfold ordered, within, withinAxis. exactR_ops.
  repeat match goal with
  | |- context [ExactR.ltb ?x ?y] => destruct (ExactR_ltb_spec x y); [lra|]
  | |- context [ExactR.gtb ?x ?y] => destruct (ExactR_gtb_spec x y); [lra|]
  end.
  split; reflexivity.
Qed.

Lemma X10_collider_geometry_witness :
  vY (Max (colliderAt bodyR (Position bodyR))) = vY (Position bodyR).
Proof.
  apply (proj1 (X10_collider_geometry (r := bodyR) eq_refl eq_refl)).
Defined.

(** ** What Move leaves alone *)

Section MoveFrame.
Context {F : Type} {ops : Float32Ops F}.
Local Open Scope f32_scope.
Implicit Types (r : RigidBody F) (stepMove : Vec3 F) (walls : list (Box F)).

Lemma verticalLoop_frame n stepMove walls : forall r,
  frameOf (verticalLoop n stepMove walls r) = frameOf r /\
  (vY (Velocity (verticalLoop n stepMove walls r)) = vY (Velocity r) \/
   vY (Velocity (verticalLoop n stepMove walls r)) = f0).
Proof.
  induction n as [|n IH]; intros r; cbn [verticalLoop]; [split; auto|].
  destruct (negb (tentativeHit _ walls)).
  - destruct (IH (set_Position (Vadd (Position r) stepMove)
                    (UpdateColliderAtPosition (Vadd (Position r) stepMove) r)))
      as [H1 H2].
    split; [rewrite H1; reflexivity|exact H2].
  - destruct (vY (Velocity (UpdateColliderAtPosition _ r)) <? f0);
      split; try reflexivity; right; reflexivity.
Qed.

Lemma horizontalLoop_frame n stepMove walls : forall r,
  frameOf (horizontalLoop n stepMove walls r) = frameOf r /\
  Velocity (horizontalLoop n stepMove walls r) = Velocity r /\
  Grounded (horizontalLoop n stepMove walls r) = Grounded r.
Proof.
  induction n as [|n IH]; intros r; cbn [horizontalLoop]; [repeat split|].
  destruct (negb (tentativeHit _ walls)).
  - destruct (IH (set_Position (Vadd (Position r) stepMove)
                    (UpdateColliderAtPosition (Vadd (Position r) stepMove) r)))
      as (H1 & H2 & H3).
    rewrite H1, H2, H3. repeat split.
  - repeat split.
Qed.

Lemma groundPhase_frame ground r :
  frameOf (groundPhase ground r) = frameOf r /\
  (vY (Velocity (groundPhase ground r)) = vY (Velocity r) \/
   vY (Velocity (groundPhase ground r)) = f0).
Proof.
  unfold groundPhase.
  destruct ground as [g|]; [|split; auto].
  destruct (Grounded r); cbn [negb Collider set_Grounded set_Velocity];
    (destruct (Collider r) as [c|]; [|split; auto]);
    destruct (IntersectionY g c) as [b depth];
    destruct (b && (depth >? f_lit 1 1000)); split; auto.
Qed.

Lemma Move_frame movement ground ceiling walls r :
  frameOf (Move movement ground ceiling walls r) = frameOf r /\
  (vY (Velocity (Move movement ground ceiling walls r)) = vY (Velocity r) \/
   vY (Velocity (Move movement ground ceiling walls r)) = f0).
Proof.
  unfold Move.
  destruct (groundPhase_frame ground r) as [Hg Hgv].
  set (r1 := groundPhase ground r) in *.
  set (m := dampMovement r1 movement).
  destruct (isSome (Collider r1) && (0 <? Z.of_nat (length walls))%Z).
  - assert (Hv : frameOf (verticalSweep m walls r1) = frameOf r1 /\
                 (vY (Velocity (verticalSweep m walls r1)) = vY (Velocity r1) \/
                  vY (Velocity (verticalSweep m walls r1)) = f0)).
    { unfold verticalSweep. destruct (Vlen (verticalMoveOf r1 m) >? f0);
        [apply verticalLoop_frame|split; auto]. }
    set (r2 := verticalSweep m walls r1) in *.
    assert (Hh : frameOf (horizontalSweep m walls r2) = frameOf r2 /\
                 Velocity (horizontalSweep m walls r2) = Velocity r2).
    { unfold horizontalSweep.
      destruct (Vlen (mkVec3 (vX m) f0 (vZ m)) >? f_lit 1 1000);
        [|split; reflexivity].
      match goal with |- context [horizontalLoop ?n ?s walls r2] =>
        destruct (horizontalLoop_frame n s walls r2) as (H1 & H2 & _)
      end. split; assumption. }
    destruct Hv as [Hv1 Hv2], Hh as [Hh1 Hh2].
    change (frameOf (UpdateCollider (horizontalSweep m walls r2)))
      with (frameOf (horizontalSweep m walls r2)).
    change (Velocity (UpdateCollider (horizontalSweep m walls r2)))
      with (Velocity (horizontalSweep m walls r2)).
    rewrite Hh1, Hh2, Hv1, Hg. split; [reflexivity|].
    destruct Hv2 as [->| ->]; auto.
  - cbn [Flying set_Position].
    destruct (Flying r1); (split; [exact Hg|exact Hgv]).
Qed.

End MoveFrame.

(** X11.  [Move] only moves: whatever the arguments, it leaves the position
    history, the trip distance, the force accumulator, the mass, the sizes,
    the flying flag and every tunable parameter as they were, and the
    vertical velocity is afterwards either what it was or zero ([Move]
    never accelerates the body). *)
Theorem X11_Move_frame {F : Type} {ops : Float32Ops F}
    (movement : Vec3 F) (ground ceiling : option (Box F)) (walls : list (Box F))
    (r : RigidBody F) :
  let r' := Move movement ground ceiling walls r in
  PositionHistory r' = PositionHistory r /\
  TripDistance r' = TripDistance r /\
  Force r' = Force r /\
  Mass r' = Mass r /\ Width r' = Width r /\ Height r' = Height r /\
  Flying r' = Flying r /\
  JumpSpeed r' = JumpSpeed r /\ Gravity r' = Gravity r /\
  PenetrationEpsilonSmall r' = PenetrationEpsilonSmall r /\
  PenetrationEpsilonBig r' = PenetrationEpsilonBig r /\
  AirMovementSuppression r' = AirMovementSuppression r /\
  FlyingSpeedMultipier r' = FlyingSpeedMultipier r /\
  PositionHistoryLength r' = PositionHistoryLength r /\
  (vY (Velocity r') = vY (Velocity r) \/ vY (Velocity r') = f0).
Proof.
  intros r'. destruct (Move_frame movement ground ceiling walls r) as [H Hv].
  fold r' in H, Hv. unfold frameOf in H. inversion H.
  repeat split; try assumption; reflexivity.
Qed.

(** ** PhysicsEngine.update *)

Section UpdateFields.
Context {F : Type} {ops : Float32Ops F}.
Local Open Scope f32_scope.
Implicit Types (r : RigidBody F) (delta : F).

Lemma update_eq delta r :
  PhysicsEngine.update delta r =
    let v := steppedVelocity delta r in
    let p := Vadd (Position r) (Vmul v delta) in
    mkRigidBody (Some (colliderAt r p)) (PositionHistory (AppendHistory r))
      (steppedTrip delta r) p v Vzero (Mass r) (Width r) (Height r) (Flying r)
      (Grounded r) (JumpSpeed r) (Gravity r) (PenetrationEpsilonSmall r)
      (PenetrationEpsilonBig r) (AirMovementSuppression r)
      (FlyingSpeedMultipier r) (PositionHistoryLength r).
Proof.
  unfold PhysicsEngine.update, steppedTrip, steppedVelocity, AppendHistory.
  cbv zeta.
  destruct (negb (Grounded r) && negb (Flying r));
    cbn [Force set_Force Velocity set_Velocity Mass Grounded Flying];
    (destruct (vY (Vadd (Velocity r) _) <? DefaultTerminalVelocity);
     cbn [Force set_Force Velocity set_Velocity Mass Grounded Flying vY];
     (destruct (Grounded r && (_ <? f0));
      cbn [Force set_Force Velocity set_Velocity Mass Grounded Flying vY
           Position PositionHistory PositionHistoryLength];
      (destruct (PositionHistoryLength r <? _)%Z;
       cbn [Force set_Force Velocity set_Velocity Mass Grounded Flying
            set_PositionHistory set_Position UpdateCollider set_Collider
            set_TripDistance TripDistance Position PositionHistory];
       match goal with
       | |- context [if ?c then set_TripDistance f0 ?b else ?b] => destruct c
       end; reflexivity))).
Qed.

End UpdateFields.

(** X12.  After [update] the vertical velocity is never below the terminal
    velocity [-10], whatever the body and the tick length (binary32, NaN and
    infinities included): the fall speed is capped. *)
Theorem X12_update_terminal_velocity (delta : spec_float) (r : RigidBody spec_float) :
  B32.ltb (vY (Velocity (PhysicsEngine.update delta r))) DefaultTerminalVelocity
    = false.
Proof.
  rewrite update_eq. cbv zeta. cbn [Velocity].
  unfold steppedVelocity. cbv zeta.
  match goal with
  | |- context [if (vY ?w <? DefaultTerminalVelocity)%f32 then _ else _] =>
      set (v := w)
  end.
  destruct (vY v <? DefaultTerminalVelocity)%f32 eqn:Hv; cbn [vY];
    (destruct (Grounded r && _); cbn [vY]).
  - reflexivity.
  - apply ltb_irrefl.
  - reflexivity.
  - exact Hv.
Qed.

(** X13.  The bookkeeping of [update]: the body is displaced by its new
    velocity times the tick length, the force accumulator is emptied, the
    flags, the mass, the sizes and the tunable parameters are kept, and the
    position the body had BEFORE the step is put in front of the history
    (cap at least 1, history within the cap). *)
Theorem X13_update_bookkeeping {F : Type} {ops : Float32Ops F}
    (delta : F) (r : RigidBody F) :
  let r' := PhysicsEngine.update delta r in
  Position r' = Vadd (Position r) (Vmul (Velocity r') delta) /\
  Force r' = Vzero /\
  Grounded r' = Grounded r /\ Flying r' = Flying r /\ Mass r' = Mass r /\
  Width r' = Width r /\ Height r' = Height r /\
  JumpSpeed r' = JumpSpeed r /\ Gravity r' = Gravity r /\
  PositionHistoryLength r' = PositionHistoryLength r /\
  ((1 <= PositionHistoryLength r)%Z ->
   (Z.of_nat (length (PositionHistory r)) <= PositionHistoryLength r)%Z ->
   PositionHistory r' =
     Position r ::
       firstn (Z.to_nat (PositionHistoryLength r - 1)) (PositionHistory r)).
Proof.
  intros r'. unfold r'. rewrite update_eq. cbv zeta.
  cbn [Position Force Grounded Flying Mass Width Height JumpSpeed Gravity
       PositionHistoryLength PositionHistory Velocity].
  repeat split. intros Hcap Hlen. apply AppendHistory_step; assumption.
Qed.

Lemma X13_update_bookkeeping_witness :
  PositionHistory (PhysicsEngine.update (fz 1) body3) = [vz 0 2 0; vz 9 9 9].
Proof.
  apply (proj2 (proj2 (proj2 (proj2 (proj2 (proj2 (proj2 (proj2 (proj2 (proj2
           (X13_update_bookkeeping (fz 1) body3)))))))))));
    vm_compute; discriminate.
Defined.

(** *** Free fall in exact arithmetic *)

Lemma update_keeps (delta : R) (r : RigidBody R) :
  Mass (PhysicsEngine.update delta r) = Mass r /\
  Grounded (PhysicsEngine.update delta r) = Grounded r /\
  Flying (PhysicsEngine.update delta r) = Flying r /\
  Gravity (PhysicsEngine.update delta r) = Gravity r /\
  Force (PhysicsEngine.update delta r) = Vzero.
Proof. rewrite update_eq. repeat split. Qed.

Lemma steppedVelocity_fall (delta : R) (r : RigidBody R) :
  Mass r <> 0%R -> Grounded r = false -> Flying r = false -> Force r = Vzero ->
  steppedVelocity delta r =
    mkVec3 (vX (Velocity r))
           (Rmax (vY (Velocity r) - Gravity r * delta) (-10))
           (vZ (Velocity r)).
Proof.
  intros Hm Hg Hf HF. unfold steppedVelocity. rewrite Hg, Hf, HF.
  cbn [negb andb]. cbv zeta.
  assert (Hv : Vadd (Velocity r)
                 (Vmul (Vmul (Vadd Vzero (mkVec3 f0 (Mass r * - Gravity r)%f32 f0))
                          (f1 / Mass r)%f32) delta) =
               mkVec3 (vX (Velocity r)) (vY (Velocity r) - Gravity r * delta)%R
                      (vZ (Velocity r))).
  { unfold Vadd, Vmul, Vzero, f0, f1. exactR_ops. f_equal; field; exact Hm. }
  rewrite Hv. unfold DefaultTerminalVelocity, f0. exactR_ops. unfold Rmax.
  destruct (ExactR_ltb_spec (vY (Velocity r) - Gravity r * delta) (-10));
    destruct (Rle_dec (vY (Velocity r) - Gravity r * delta) (-10));
    try lra; cbn [vX vY vZ]; try reflexivity.
  f_equal. lra.
Qed.

Lemma free_fall_steps (delta : R) (n : nat) : forall r : RigidBody R,
  Mass r <> 0%R -> Grounded r = false -> Flying r = false -> Force r = Vzero ->
  (0 <= Gravity r * delta)%R ->
  let rn := Nat.iter (S n) (PhysicsEngine.update delta) r in
  (vY (Velocity rn) =
     Rmax (vY (Velocity r) - INR (S n) * (Gravity r * delta)) (-10) /\
   vX (Velocity rn) = vX (Velocity r) /\
   vZ (Velocity rn) = vZ (Velocity r) /\
   vX (Position rn) = vX (Position r) + INR (S n) * (vX (Velocity r) * delta) /\
   vZ (Position rn) = vZ (Position r) + INR (S n) * (vZ (Velocity r) * delta))%R.
Proof.
  induction n as [|n IH]; intros r Hm Hg Hf HF Hc.
  - intros rn. subst rn.
    change (Nat.iter 1 (PhysicsEngine.update delta) r)
      with (PhysicsEngine.update delta r).
    rewrite update_eq. cbv zeta.
    rewrite steppedVelocity_fall by assumption.
    cbn [Velocity Position]. exactR_ops. cbn [INR].
    repeat split; try lra. f_equal. lra.
  - intros rn. unfold rn. rewrite Nat.iter_succ_r.
    destruct (update_keeps delta r) as (Km & Kg & Kf & Kgr & KF).
    specialize (IH (PhysicsEngine.update delta r)).
    rewrite Km, Kg, Kf, Kgr in IH.
    specialize (IH Hm Hg Hf KF Hc). cbv zeta in IH.
    destruct IH as (Iy & Ix & Iz & Ipx & Ipz).
    rewrite Iy, Ix, Iz, Ipx, Ipz.
    rewrite update_eq. cbv zeta. rewrite steppedVelocity_fall by assumption.
    cbn [Velocity Position]. exactR_ops.
    rewrite (S_INR (S n)).
    assert (Hk : (0 <= INR (S n) * (Gravity r * delta))%R)
      by (apply Rmult_le_pos; [apply pos_INR|exact Hc]).
    set (k := INR (S n)) in *.
    set (c := (Gravity r * delta)%R) in *.
    set (kc := (k * c)%R) in *.
    replace ((k + 1) * c)%R with (kc + c)%R by (unfold kc; ring).
    repeat split; try lra; try (unfold k; ring).
    unfold Rmax.
    destruct (Rle_dec (vY (Velocity r) - c) (-10));
      destruct (Rle_dec (vY (Velocity r) - (kc + c)) (-10));
      match goal with
      | |- context [Rle_dec ?a ?b] => destruct (Rle_dec a b)
      end; lra.
Qed.

(** X14.  Free fall in exact arithmetic: for an airborne body that is not
    flying, with an empty force accumulator and a non-zero mass, [n + 1]
    updates of tick length [delta] leave the vertical velocity
    [max (vy - (n + 1) * Gravity * delta, -10)], whatever the mass; the
    horizontal velocity is unchanged and the horizontal position advances
    uniformly. *)
Theorem X14_free_fall (delta : R) (n : nat) (r : RigidBody R) :
  Mass r <> 0%R -> Grounded r = false -> Flying r = false -> Force r = Vzero ->
  (0 <= Gravity r * delta)%R ->
  let rn := Nat.iter (S n) (PhysicsEngine.update delta) r in
  (vY (Velocity rn) =
     Rmax (vY (Velocity r) - INR (S n) * (Gravity r * delta)) (-10) /\
   vX (Velocity rn) = vX (Velocity r) /\
   vZ (Velocity rn) = vZ (Velocity r) /\
   vX (Position rn) = vX (Position r) + INR (S n) * (vX (Velocity r) * delta) /\
   vZ (Position rn) = vZ (Position r) + INR (S n) * (vZ (Velocity r) * delta))%R.
Proof. apply free_fall_steps. Qed.

Lemma X14_free_fall_witness :
  vY (Velocity (Nat.iter 2 (PhysicsEngine.update (1 / 10)%R) bodyR)) =
    Rmax (0 - INR 2 * (12 * (1 / 10))) (-10).
Proof.
  apply (@X14_free_fall (1 / 10)%R 1%nat bodyR).
  - cbv [bodyR UpdateCollider set_Collider NewRigidBody Mass]. lra.
  - reflexivity.
  - reflexivity.
  - reflexivity.
  - cbv [bodyR UpdateCollider set_Collider NewRigidBody Gravity DefaultGravity
         f_of_Z exactR]. lra.
Defined.



(** ** MovementController *)

(** X16.  [ToggleFlight] flips the controller's flag and copies the new
    value to the body, so afterwards the two flags agree even if they did
    not before; toggling twice gives the controller its flag back and gives
    the body that same flag, which restores the controller exactly when the
    two flags agreed to begin with.  Position, velocity and [Grounded] of
    the body are not touched. *)
Theorem X16_ToggleFlight_flags {F : Type} {ops : Float32Ops F}
    (m : MovementController.t F) :
  let m' := Controller.ToggleFlight m in
  let m'' := Controller.ToggleFlight m' in
  MovementController.Flying m' = negb (MovementController.Flying m) /\
  Flying (MovementController.Body m') = MovementController.Flying m' /\
  MovementController.Flying m'' = MovementController.Flying m /\
  Flying (MovementController.Body m'') = MovementController.Flying m /\
  (Flying (MovementController.Body m) = MovementController.Flying m -> m'' = m) /\
  Position (MovementController.Body m') = Position (MovementController.Body m) /\
  Velocity (MovementController.Body m') = Velocity (MovementController.Body m) /\
  Grounded (MovementController.Body m') = Grounded (MovementController.Body m).
Proof.
  destruct m as [b s j fl]. cbv zeta. unfold Controller.ToggleFlight.
  cbn [MovementController.Flying MovementController.Body MovementController.Speed
       MovementController.JumpForce Flying set_Flying Position Velocity Grounded].
  rewrite negb_involutive. repeat split.
  intros Hb. destruct b. cbn in Hb. subst. reflexivity.
Qed.

Lemma X16_ToggleFlight_flags_witness :
  Controller.ToggleFlight (Controller.ToggleFlight ctl0) = ctl0.
Proof.
  apply (proj1 (proj2 (proj2 (proj2 (proj2 (X16_ToggleFlight_flags ctl0)))))).
  reflexivity.
Defined.

(** X17.  The controller's [Update] displaces the body by exactly the vector
    [Move] returns for the same input and puts the NEW position in front of
    the history (the engine's [update] records the old one); it consults no
    wall and no ground, and leaves the velocity, the flags and the
    controller's own fields as they were. *)
Theorem X17_controller_Update {F : Type} {ops : Float32Ops F}
    (m : MovementController.t F) (forward right up : F)
    (viewVector rightVector : Vec3 F) :
  let b := MovementController.Body m in
  let m' := Controller.Update m forward right up viewVector rightVector in
  let b' := MovementController.Body m' in
  Position b' =
    Vadd (Position b)
         (MovementController.Move m forward right up viewVector rightVector) /\
  Velocity b' = Velocity b /\ Grounded b' = Grounded b /\ Flying b' = Flying b /\
  MovementController.Speed m' = MovementController.Speed m /\
  MovementController.JumpForce m' = MovementController.JumpForce m /\
  MovementController.Flying m' = MovementController.Flying m /\
  ((1 <= PositionHistoryLength b)%Z ->
   (Z.of_nat (length (PositionHistory b)) <= PositionHistoryLength b)%Z ->
   PositionHistory b' =
     Position b' ::
       firstn (Z.to_nat (PositionHistoryLength b - 1)) (PositionHistory b)).
Proof.
  cbv zeta. unfold Controller.Update. cbv zeta.
  cbn [MovementController.Body MovementController.Speed MovementController.JumpForce
       MovementController.Flying Controller.with_Body UpdateCollider set_Collider
       Position Velocity Grounded Flying PositionHistory].
  match goal with
  | |- context [AppendHistory ?x] =>
      destruct (AppendHistory_frame x) as [Hp _];
      destruct (AppendHistory_keeps x) as (Hv & Hg & _ & Hf);
      pose proof (AppendHistory_step x) as Hs
  end.
  rewrite Hp, Hv, Hg, Hf. repeat split. intros Hcap Hlen. apply Hs; assumption.
Qed.

Lemma X17_controller_Update_witness :
  let m' := Controller.Update ctl3 (fz 1) (fz 0) (fz 0) (vz 0 0 1) (vz 1 0 0) in
  PositionHistory (MovementController.Body m') =
    [Position (MovementController.Body m'); vz 9 9 9].
Proof.
  apply (proj2 (proj2 (proj2 (proj2 (proj2 (proj2 (proj2
           (X17_controller_Update ctl3 (fz 1) (fz 0) (fz 0) (vz 0 0 1)
              (vz 1 0 0)))))))));
    vm_compute; discriminate.
Defined.

(** *** The controller's step in exact arithmetic *)

Lemma Vlen_nonneg (v : Vec3 R) : (0 <= Vlen v)%R.
Proof. rewrite Vlen_R. apply sqrt_pos. Qed.

Lemma Vlen_scale (v : Vec3 R) (k : R) :
  (0 <= k)%R -> Vlen (Vmul v k) = (k * Vlen v)%R.
Proof.
  intros Hk. rewrite !Vlen_R. unfold Vmul. exactR_ops.
  replace (vX v * k * (vX v * k) + vY v * k * (vY v * k) + vZ v * k * (vZ v * k))%R
    with (k * k * (vX v * vX v + vY v * vY v + vZ v * vZ v))%R by ring.
  rewrite sqrt_mult_alt by nra.
  rewrite sqrt_square by exact Hk. reflexivity.
Qed.

Lemma Vnormalize_scale (v : Vec3 R) (k : R) :
  (0 < k)%R -> (0 < Vlen v)%R -> Vnormalize (Vmul v k) = Vnormalize v.
Proof.
  intros Hk Hv. unfold Vnormalize. cbv zeta.
  rewrite Vlen_scale by lra. unfold Vmul, f1. exactR_ops.
  f_equal; field; lra.
Qed.

Lemma combined_scale (m : MovementController.t R) (forward right up k : R)
    (viewVector rightVector : Vec3 R) :
  combinedMovement m (k * forward)%R (k * right)%R (k * up)%R viewVector rightVector =
    Vmul (combinedMovement m forward right up viewVector rightVector) k.
Proof.
  unfold combinedMovement.
  destruct (MovementController.Flying m); unfold Vadd, Vmul, f0; exactR_ops;
    f_equal; ring.
Qed.

Lemma Move_scale (m : MovementController.t R) (forward right up k : R)
    (viewVector rightVector : Vec3 R) :
  (0 < k)%R ->
  MovementController.Move m (k * forward)%R (k * right)%R (k * up)%R
    viewVector rightVector =
  MovementController.Move m forward right up viewVector rightVector.
Proof.
  intros Hk. rewrite !controller_Move_eq. cbv zeta. rewrite combined_scale.
  set (c := combinedMovement m forward right up viewVector rightVector).
  rewrite Vlen_scale by lra. unfold f0. exactR_ops.
  pose proof (Vlen_nonneg c) as Hc.
  destruct (ExactR_gtb_spec (Vlen c) 0) as [Hpos|Hz].
  - destruct (ExactR_gtb_spec (k * Vlen c) 0) as [_|Hn]; [|nra].
    rewrite Vnormalize_scale by lra. reflexivity.
  - destruct (ExactR_gtb_spec (k * Vlen c) 0) as [Hp|_]; [nra|].
    rewrite (Vlen_R_zero c Hz). unfold Vmul. exactR_ops. f_equal; ring.
Qed.

Lemma Move_length (m : MovementController.t R) (forward right up : R)
    (viewVector rightVector : Vec3 R) :
  let v := MovementController.Move m forward right up viewVector rightVector in
  v = mkVec3 0%R 0%R 0%R \/ Vlen v = Rabs (MovementController.Speed m).
Proof.
  cbv zeta. rewrite controller_Move_eq. cbv zeta.
  set (c := combinedMovement m forward right up viewVector rightVector).
  unfold f0. exactR_ops.
  destruct (ExactR_gtb_spec (Vlen c) 0) as [Hpos|Hz].
  - right. apply normalize_scaled_len. lra.
  - left. apply Vlen_R_zero. exact Hz.
Qed.

Lemma flatten_level (v : Vec3 R) : vY (flatten v) = 0%R.
Proof.
  unfold flatten. cbv zeta. case_if; [|reflexivity].
  unfold Vnormalize, f0. exactR_ops. ring.
Qed.

Lemma Move_level (m : MovementController.t R) (forward right up : R)
    (viewVector rightVector : Vec3 R) :
  MovementController.Flying m = false ->
  vY (MovementController.Move m forward right up viewVector rightVector) = 0%R.
Proof.
  intros Hf. rewrite controller_Move_eq. cbv zeta.
  assert (Hc : vY (combinedMovement m forward right up viewVector rightVector) = 0%R).
  { unfold combinedMovement. rewrite Hf. unfold Vadd, Vmul. exactR_ops.
    rewrite !flatten_level. ring. }
  case_if; [|exact Hc].
  unfold Vmul, Vnormalize. exactR_ops. rewrite Hc. ring.
Qed.

(** X18.  In exact arithmetic one call of the controller's [Update] moves
    the body either not at all or by exactly [|Speed|], whatever the size of
    the input: scaling [forward], [right] and [up] by a common positive
    factor changes nothing, so only the direction of the input counts.  A
    controller that is not flying leaves the height of the body alone. *)
Theorem X18_controller_step (m : MovementController.t R)
    (forward right up : R) (viewVector rightVector : Vec3 R) :
  let b := MovementController.Body m in
  let m' := Controller.Update m forward right up viewVector rightVector in
  let d := Vsub (Position (MovementController.Body m')) (Position b) in
  (Vlen d = 0%R \/ Vlen d = Rabs (MovementController.Speed m)) /\
  (forall k : R, (0 < k)%R ->
     Controller.Update m (k * forward)%R (k * right)%R (k * up)%R
       viewVector rightVector = m') /\
  (MovementController.Flying m = false ->
   vY (Position (MovementController.Body m')) = vY (Position b)).
Proof.
  cbv zeta. split; [|split].
  - unfold Controller.Update. cbv zeta.
    cbn [MovementController.Body Controller.with_Body UpdateCollider set_Collider
         Position].
    rewrite (proj1 (AppendHistory_frame _)). cbn [Position set_Position].
    set (v := MovementController.Move m forward right up viewVector rightVector).
    assert (Hd : Vsub (Vadd (Position (MovementController.Body m)) v)
                   (Position (MovementController.Body m)) = v).
    { unfold Vsub, Vadd. exactR_ops. destruct v. cbn [vX vY vZ]. f_equal; ring. }
    rewrite Hd.
    destruct (Move_length m forward right up viewVector rightVector) as [H0|Hs].
    + left. fold v in H0. rewrite H0, Vlen_R. cbn [vX vY vZ].
      replace (0 * 0 + 0 * 0 + 0 * 0)%R with 0%R by ring. apply sqrt_0.
    + right. exact Hs.
  - intros k Hk. unfold Controller.Update. cbv zeta.
    rewrite Move_scale by exact Hk. reflexivity.
  - intros Hf. unfold Controller.Update. cbv zeta.
    cbn [MovementController.Body Controller.with_Body UpdateCollider set_Collider
         Position].
    rewrite (proj1 (AppendHistory_frame _)). cbn [Position set_Position].
    unfold Vadd. cbn [vY]. rewrite Move_level by exact Hf. exactR_ops. ring.
Qed.

Lemma X18_controller_step_witness :
  Controller.Update ctlR (2 * 1)%R (2 * 0)%R (2 * 0)%R
    (mkVec3 0%R 0%R 1%R) (mkVec3 1%R 0%R 0%R) =
  Controller.Update ctlR 1%R 0%R 0%R (mkVec3 0%R 0%R 1%R) (mkVec3 1%R 0%R 0%R).
Proof.
  apply (proj1 (proj2 (X18_controller_step ctlR 1%R 0%R 0%R
                         (mkVec3 0%R 0%R 1%R) (mkVec3 1%R 0%R 0%R)))).
  lra.
Defined.

(** ** Chunk *)

Section ChunkFacts.
Context {F : Type} {ops : Float32Ops F}.
Implicit Types (c : Chunk.t F).

Lemma setCell_same (blocks : Z -> Z -> Z -> option (BlockData.t F)) x y z b :
  Chunk.setCell blocks x y z b x y z = b.
Proof. unfold Chunk.setCell. rewrite !Z.eqb_refl. reflexivity. Qed.

Lemma setCell_other (blocks : Z -> Z -> Z -> option (BlockData.t F)) x y z b i j k :
  (i, j, k) <> (x, y, z) -> Chunk.setCell blocks x y z b i j k = blocks i j k.
Proof.
  intros Hne. unfold Chunk.setCell.
  destruct (Z.eqb_spec i x), (Z.eqb_spec j y), (Z.eqb_spec k z);
    try reflexivity. subst. congruence.
Qed.

Lemma Chunk_SetBlock_spec c x y z ty a :
  Chunk.allocated c ->
  exists c', Chunk.SetBlock c x y z ty a = Some c' /\
    Chunk.allocated c' /\
    Chunk.Position c' = Chunk.Position c /\
    (Chunk.outOfBounds x y z = true -> c' = c) /\
    (Chunk.outOfBounds x y z = false ->
     exists b, Chunk.GetBlock c x y z = Some b /\
       Chunk.GetBlock c' x y z = Some (BlockData.mk a ty (BlockData.Position b))) /\
    (forall i j k, (i, j, k) <> (x, y, z) ->
       Chunk.GetBlock c' i j k = Chunk.GetBlock c i j k).
Proof.
  intros Hall. unfold Chunk.SetBlock.
  destruct (Chunk.outOfBounds x y z) eqn:Hb.
  - exists c. repeat split; auto. discriminate.
  - destruct (Chunk.Blocks c x y z) as [b|] eqn:Hc; [|destruct (Hall x y z Hb Hc)].
    eexists. split; [reflexivity|]. split; [|split; [reflexivity|split; [discriminate|split]]].
    + intros i j k Hijk. cbn [Chunk.Blocks]. unfold Chunk.setCell.
      destruct ((i =? x) && (j =? y) && (k =? z))%Z; [discriminate|].
      apply Hall. exact Hijk.
    + intros _. exists b. unfold Chunk.GetBlock. rewrite Hb. cbn [Chunk.Blocks].
      rewrite setCell_same. split; [exact Hc|reflexivity].
    + intros i j k Hne. unfold Chunk.GetBlock. cbn [Chunk.Blocks].
      rewrite setCell_other by exact Hne. reflexivity.
Qed.

Lemma NewChunk_allocated (pos : Vec3 F) : Chunk.allocated (Chunk.NewChunk pos).
Proof. intros x y z _. discriminate. Qed.

End ChunkFacts.

(** X19.  On a chunk whose cells are all allocated (as [NewChunk] leaves
    them) [SetBlock] never fails and keeps the cells allocated; out of
    bounds it changes nothing; in bounds the block read back by [GetBlock]
    has the new type and flag and its old world position, and every other
    cell reads as before.  [GetBlock] answers nil exactly out of bounds. *)
Theorem X19_Chunk_SetBlock_GetBlock {F : Type} {ops : Float32Ops F}
    (c : Chunk.t F) (x y z : Z) (blockType : String.string) (active : bool) :
  Chunk.allocated c ->
  (forall i j k, Chunk.GetBlock c i j k = None <-> Chunk.outOfBounds i j k = true) /\
  exists c', Chunk.SetBlock c x y z blockType active = Some c' /\
    Chunk.allocated c' /\
    Chunk.Position c' = Chunk.Position c /\
    (Chunk.outOfBounds x y z = true -> c' = c) /\
    (Chunk.outOfBounds x y z = false ->
     exists b, Chunk.GetBlock c x y z = Some b /\
       Chunk.GetBlock c' x y z =
         Some (BlockData.mk active blockType (BlockData.Position b))) /\
    (forall i j k, (i, j, k) <> (x, y, z) ->
       Chunk.GetBlock c' i j k = Chunk.GetBlock c i j k).
Proof.
  intros Hall. split; [|apply Chunk_SetBlock_spec; exact Hall].
  intros i j k. unfold Chunk.GetBlock.
  destruct (Chunk.outOfBounds i j k) eqn:Hb; [tauto|].
  split; [|discriminate]. intros Hn. destruct (Hall i j k Hb Hn).
Qed.

Lemma X19_Chunk_SetBlock_GetBlock_witness :
  exists c', Chunk.SetBlock (Chunk.NewChunk (vz 0 0 0)) 3 4 5 String.EmptyString true
             = Some c'.
Proof.
  destruct (proj2 (X19_Chunk_SetBlock_GetBlock (c := Chunk.NewChunk (vz 0 0 0)) 3 4 5
                     String.EmptyString true (NewChunk_allocated (pos := vz 0 0 0))))
    as (c' & H & _).
  exists c'. exact H.
Defined.

Lemma outOfBounds_false (i j k : Z) :
  Chunk.outOfBounds i j k = false <->
  (0 <= i < 16 /\ 0 <= j < 256 /\ 0 <= k < 16)%Z.
Proof.
  unfold Chunk.outOfBounds, Chunk.ChunkWidth, Chunk.ChunkHeight.
  rewrite !Z.geb_leb.
  destruct (Z.ltb_spec i 0), (Z.leb_spec 16 i), (Z.ltb_spec j 0),
           (Z.leb_spec 256 j), (Z.ltb_spec k 0), (Z.leb_spec 16 k);
    cbn [orb]; split; intros Hb; try discriminate; try reflexivity; lia.
Qed.

(** Truncation toward zero in exact arithmetic. *)
Lemma ExactR_trunc_unique_nonneg (x : R) (n : Z) :
  (0 <= x)%R -> (IZR n <= x < IZR n + 1)%R -> ExactR.trunc x = n.
Proof.
  intros Hx [H1 H2]. unfold ExactR.trunc.
  destruct (Rlt_dec x 0) as [Hlt|_]; [lra|].
  assert (H : (n + 1)%Z = up x) by (apply up_tech; [exact H1|rewrite plus_IZR; lra]).
  lia.
Qed.

Lemma ExactR_trunc_unique_neg (x : R) (n : Z) :
  (x < 0)%R -> (IZR n - 1 < x <= IZR n)%R -> ExactR.trunc x = n.
Proof.
  intros Hx [H1 H2]. unfold ExactR.trunc.
  destruct (Rlt_dec x 0) as [_|Hge]; [|lra].
  assert (H : (- n + 1)%Z = up (- x)).
  { apply up_tech; [rewrite opp_IZR; lra|rewrite plus_IZR, opp_IZR; lra]. }
  lia.
Qed.

Lemma ExactR_trunc_IZR (n : Z) : ExactR.trunc (IZR n) = n.
Proof.
  destruct (Rlt_dec (IZR n) 0) as [Hlt|Hge].
  - apply ExactR_trunc_unique_neg; lra.
  - apply ExactR_trunc_unique_nonneg; lra.
Qed.

Lemma ExactR_trunc_neg (x : R) :
  (ExactR.trunc x < 0)%Z ->
  (x < 0)%R /\ (IZR (ExactR.trunc x) - 1 < x <= IZR (ExactR.trunc x))%R.
Proof.
  intros Ht.
  destruct (Rlt_dec x 0) as [Hlt|Hge].
  - split; [exact Hlt|]. unfold ExactR.trunc in *.
    destruct (Rlt_dec x 0) as [_|Hn]; [|lra].
    destruct (archimed (- x)) as [H1 H2].
    rewrite minus_IZR. lra.
  - destruct (@ExactR_trunc_nonneg x) as [_ H0]; [lra|lia].
Qed.



(** ** World: the keys of the chunk map *)

Lemma noUnderscore_uint (d : Decimal.uint) :
  World.noUnderscore (DecimalString.NilEmpty.string_of_uint d) = true.
Proof. induction d; cbn; auto. Qed.

Lemma noUnderscore_formatInt (n : Z) : World.noUnderscore (World.formatInt n) = true.
Proof.
  unfold World.formatInt, DecimalString.NilZero.string_of_int,
    DecimalString.NilZero.string_of_uint.
  destruct (Z.to_int n) as [d|d]; destruct d; try reflexivity;
    cbn [World.noUnderscore]; try apply noUnderscore_uint;
    match goal with
    | |- context [DecimalString.NilEmpty.string_of_uint ?u] =>
        exact (noUnderscore_uint u)
    end.
Qed.

Lemma formatInt_inj (a b : Z) : World.formatInt a = World.formatInt b -> a = b.
Proof.
  assert (Hn : forall n, Z.to_int n <> Decimal.Pos Decimal.Nil /\
                         Z.to_int n <> Decimal.Neg Decimal.Nil).
  { intros [|p|p]; cbn; split; try discriminate; intros H; injection H;
      apply DecimalPos.Unsigned.to_uint_nonnil. }
  unfold World.formatInt. intros H.
  apply DecimalZ.to_int_inj.
  pose proof (DecimalString.NilZero.isi _ (proj1 (Hn a)) (proj2 (Hn a))) as Ha.
  pose proof (DecimalString.NilZero.isi _ (proj1 (Hn b)) (proj2 (Hn b))) as Hb.
  rewrite H in Ha. congruence.
Qed.

Lemma append_underscore_inj (s s' t t' : String.string) :
  World.noUnderscore s = true -> World.noUnderscore s' = true ->
  String.append s (String.append World.underscore t) =
  String.append s' (String.append World.underscore t') ->
  s = s' /\ t = t'.
Proof.
  revert s'. induction s as [|c s IH]; intros [|c' s'] Hs Hs' H;
    cbn [String.append World.underscore] in H.
  - injection H as H. auto.
  - injection H as Hc H. subst c'. cbn in Hs'. discriminate.
  - injection H as Hc H. subst c. cbn in Hs. discriminate.
  - injection H as Hc H. subst c'.
    cbn [World.noUnderscore] in Hs, Hs'.
    apply andb_true_iff in Hs, Hs'.
    destruct (IH s' (proj2 Hs) (proj2 Hs') H) as [-> ->]. auto.
Qed.

Lemma keyOf_inj (x z x' z' : Z) :
  World.keyOf x z = World.keyOf x' z' -> x = x' /\ z = z'.
Proof.
  unfold World.keyOf. intros H.
  apply append_underscore_inj in H; try apply noUnderscore_formatInt.
  destruct H as [H1 H2]. split; apply formatInt_inj; assumption.
Qed.

Section WorldFacts.
Context {F : Type} {ops : Float32Ops F}.
Implicit Types (w : World.t F) (c chunk : Chunk.t F) (pos : Vec3 F).

Lemma lookup_insert key key' c w :
  World.lookup key' (World.insert key c w) =
    if String.eqb key' key then Some c else World.lookup key' w.
Proof.
  unfold World.lookup, World.insert. cbn [find fst snd].
  rewrite (String.eqb_sym key key').
  destruct (String.eqb_spec key' key) as [->|Hne]; [reflexivity|].
  induction w as [|[k v] w IH]; [reflexivity|].
  cbn [filter find fst snd].
  destruct (String.eqb_spec k key) as [->|Hk]; cbn [negb].
  - destruct (String.eqb_spec key key') as [He|_]; [congruence|]. exact IH.
  - cbn [find fst snd]. destruct (String.eqb k key'); [reflexivity|exact IH].
Qed.

Lemma keyOf_eqb (x z x' z' : Z) :
  String.eqb (World.keyOf x z) (World.keyOf x' z') = ((x =? x') && (z =? z'))%Z.
Proof.
  destruct (String.eqb_spec (World.keyOf x z) (World.keyOf x' z')) as [He|Hne].
  - apply keyOf_inj in He. destruct He as [-> ->]. rewrite !Z.eqb_refl. reflexivity.
  - destruct (Z.eqb_spec x x'), (Z.eqb_spec z z'); try reflexivity.
    subst. congruence.
Qed.

Lemma World_SetBlock_spec w pos ty a :
  World.wellPlaced w ->
  exists chunk chunk' w',
    Chunk.Position chunk = Chunk.PositionToChunkCoords pos /\
    Chunk.allocated chunk /\
    (World.GetChunk w pos = Some chunk \/
     World.GetChunk w pos = None /\
     chunk = Chunk.NewChunk (Chunk.PositionToChunkCoords pos)) /\
    Chunk.SetBlock chunk (World.localCoord (f_trunc (vX pos))) (f_trunc (vY pos))
      (World.localCoord (f_trunc (vZ pos))) ty a = Some chunk' /\
    World.SetBlock w pos ty a = Some w' /\
    (forall key, World.lookup key w' =
       if String.eqb key (World.GetChunkKey (Chunk.PositionToChunkCoords pos))
       then Some chunk' else World.lookup key w).
Proof.
  intros Hw. unfold World.SetBlock. cbv zeta.
  destruct (World.GetChunk w pos) as [chunk|] eqn:Hg.
  - destruct (Hw pos chunk Hg) as [Hp Hall].
    destruct (Chunk_SetBlock_spec (World.localCoord (f_trunc (vX pos)))
                (f_trunc (vY pos)) (World.localCoord (f_trunc (vZ pos))) ty a Hall)
      as (chunk' & Hs & _).
    exists chunk, chunk'. rewrite Hs. eexists. repeat split; auto.
    intros key. apply lookup_insert.
  - set (chunk := Chunk.NewChunk (Chunk.PositionToChunkCoords pos)).
    destruct (Chunk_SetBlock_spec (World.localCoord (f_trunc (vX pos)))
                (f_trunc (vY pos)) (World.localCoord (f_trunc (vZ pos))) ty a
                (NewChunk_allocated (pos := Chunk.PositionToChunkCoords pos)))
      as (chunk' & Hs & _).
    fold chunk in Hs.
    exists chunk, chunk'. rewrite Hs. eexists.
    split; [reflexivity|]. split; [apply NewChunk_allocated|].
    split; [right; split; reflexivity|]. split; [reflexivity|].
    split; [reflexivity|].
    intros key. rewrite lookup_insert. unfold World.AddChunk.
    rewrite lookup_insert. cbn [Chunk.Position chunk Chunk.NewChunk].
    destruct (String.eqb key _); reflexivity.
Qed.

End WorldFacts.

(** X21.  The key [GetChunkKey] prints determines the two integers it was
    printed from, so two positions share a slot of the chunk map exactly
    when their truncated X and Z agree; after [AddChunk] the world returns
    the added chunk for the positions whose chunk coordinates print its key
    and what it returned before for every other position. *)
Theorem X21_chunk_keys {F : Type} {ops : Float32Ops F}
    (w : World.t F) (chunk : Chunk.t F) (pos : Vec3 F) (x z x' z' : Z) :
  (World.keyOf x z = World.keyOf x' z' <-> x = x' /\ z = z') /\
  World.GetChunk (World.AddChunk w chunk) pos =
    let p := Chunk.PositionToChunkCoords pos in
    if ((f_trunc (vX p) =? f_trunc (vX (Chunk.Position chunk))) &&
        (f_trunc (vZ p) =? f_trunc (vZ (Chunk.Position chunk))))%Z
    then Some chunk
    else World.GetChunk w pos.
Proof.
  split.
  - split; [apply keyOf_inj|]. intros [-> ->]. reflexivity.
  - cbv zeta. unfold World.GetChunk, World.AddChunk. cbv zeta.
    rewrite lookup_insert. unfold World.GetChunkKey. rewrite keyOf_eqb.
    reflexivity.
Qed.

(** ** World.SetBlock and World.GetBlock in exact arithmetic *)

Lemma ExactR_trunc_bounds (x : R) :
  ((0 <= x)%R /\ (0 <= ExactR.trunc x)%Z /\
   (IZR (ExactR.trunc x) <= x < IZR (ExactR.trunc x) + 1)%R) \/
  ((x < 0)%R /\ (ExactR.trunc x <= 0)%Z /\
   (IZR (ExactR.trunc x) - 1 < x <= IZR (ExactR.trunc x))%R).
Proof.
  destruct (Rlt_dec x 0) as [Hlt|Hge].
  - right. split; [exact Hlt|]. unfold ExactR.trunc.
    destruct (Rlt_dec x 0) as [_|Hn]; [|lra].
    destruct (archimed (- x)) as [H1 H2].
    rewrite minus_IZR. split; [|lra].
    assert (H : (0 < IZR (up (- x)))%R) by lra.
    apply lt_IZR in H. lia.
  - left. split; [lra|]. destruct (@ExactR_trunc_nonneg x) as [H1 H2]; [lra|].
    split; assumption.
Qed.

Lemma PositionToChunkCoords_R (pos : Vec3 R) :
  Chunk.PositionToChunkCoords pos =
    mkVec3 (IZR (Z.quot (ExactR.trunc (vX pos)) 16 * 16)) 0%R
           (IZR (Z.quot (ExactR.trunc (vZ pos)) 16 * 16)).
Proof.
  unfold Chunk.PositionToChunkCoords, Chunk.ChunkWidth, f0. exactR_ops.
  rewrite !mult_IZR. reflexivity.
Qed.

Lemma chunk_key_R (pos pos' : Vec3 R) :
  World.GetChunkKey (Chunk.PositionToChunkCoords pos') =
  World.GetChunkKey (Chunk.PositionToChunkCoords pos) ->
  Chunk.PositionToChunkCoords pos' = Chunk.PositionToChunkCoords pos.
Proof.
  rewrite !PositionToChunkCoords_R. unfold World.GetChunkKey.
  cbn [vX vZ f_trunc exactR]. rewrite !ExactR_trunc_IZR.
  intros H. apply keyOf_inj in H. destruct H as [Hx Hz]. rewrite Hx, Hz. reflexivity.
Qed.

(** The local coordinate [GetBlockFromWorldPos] computes in a chunk placed
    at the chunk coordinates of the position. *)
Lemma local_of_world_R (x : R) :
  ExactR.trunc (x - IZR (Z.quot (ExactR.trunc x) 16 * 16)) =
    Z.rem (ExactR.trunc x) 16.
Proof.
  set (n := ExactR.trunc x).
  pose proof (Z.quot_rem' n 16) as Hn.
  assert (Hq : IZR (Z.quot n 16 * 16) = (IZR n - IZR (Z.rem n 16))%R).
  { rewrite <- minus_IZR. f_equal. lia. }
  rewrite Hq.
  destruct (ExactR_trunc_bounds x) as [(Hx & Hn0 & Hb)|(Hx & Hn0 & Hb)]; fold n in Hn0, Hb.
  - pose proof (Z.rem_bound_pos n 16 Hn0 eq_refl) as Hr.
    assert (Hr' : (0 <= IZR (Z.rem n 16))%R) by (apply IZR_le; lia).
    apply ExactR_trunc_unique_nonneg; lra.
  - pose proof (Z.rem_bound_pos_neg n 16 eq_refl Hn0) as Hr.
    assert (Hr' : (IZR (Z.rem n 16) <= 0)%R) by (apply IZR_le; lia).
    destruct (Rlt_dec (x - (IZR n - IZR (Z.rem n 16))) 0) as [Hlt|Hge].
    + apply ExactR_trunc_unique_neg; lra.
    + apply ExactR_trunc_unique_nonneg; lra.
Qed.

Lemma World_GetBlock_after_SetBlock (w : World.t R) (pos : Vec3 R)
    (ty : String.string) (a : bool) :
  World.wellPlaced w ->
  exists chunk chunk' w',
    Chunk.allocated chunk /\
    Chunk.SetBlock chunk (World.localCoord (ExactR.trunc (vX pos)))
      (ExactR.trunc (vY pos)) (World.localCoord (ExactR.trunc (vZ pos))) ty a
      = Some chunk' /\
    World.SetBlock w pos ty a = Some w' /\
    World.wellPlaced w' /\
    World.GetBlock w' pos =
      Chunk.GetBlock chunk' (Z.rem (ExactR.trunc (vX pos)) 16)
        (ExactR.trunc (vY pos)) (Z.rem (ExactR.trunc (vZ pos)) 16).
Proof.
  intros Hw.
  destruct (World_SetBlock_spec pos ty a Hw)
    as (chunk & chunk' & w' & Hp & Hall & _ & Hs & Hset & Hlook).
  cbn [f_trunc exactR] in Hs.
  destruct (Chunk_SetBlock_spec (World.localCoord (ExactR.trunc (vX pos)))
              (ExactR.trunc (vY pos)) (World.localCoord (ExactR.trunc (vZ pos)))
              ty a Hall) as (c'' & Hs' & Hall' & Hp' & _).
  rewrite Hs in Hs'. injection Hs' as <-.
  exists chunk, chunk', w'. split; [exact Hall|]. split; [exact Hs|].
  split; [exact Hset|]. split.
  - intros pos' c Hg. unfold World.GetChunk in Hg. cbv zeta in Hg.
    rewrite Hlook in Hg.
    destruct (String.eqb_spec
                (World.GetChunkKey (Chunk.PositionToChunkCoords pos'))
                (World.GetChunkKey (Chunk.PositionToChunkCoords pos))) as [He|Hne].
    + injection Hg as <-. split; [|exact Hall'].
      rewrite Hp', Hp. symmetry. apply chunk_key_R. exact He.
    + apply Hw. exact Hg.
  - unfold World.GetBlock, World.GetChunk. cbv zeta. rewrite Hlook.
    rewrite String.eqb_refl.
    unfold Chunk.GetBlockFromWorldPos. cbv zeta. rewrite Hp', Hp.
    rewrite PositionToChunkCoords_R. cbn [vX vY vZ f_sub f_trunc exactR].
    rewrite !local_of_world_R.
    replace (vY pos - 0)%R with (vY pos) by ring. reflexivity.
Qed.



(** X23.  Negative coordinates in exact arithmetic: when the truncated X
    (or Z) of the position is negative and not a multiple of 16, the block
    [SetBlock] sets cannot be read back, [GetBlock] at the same position
    answers nil.  The two methods disagree on the local coordinate there:
    [SetBlock] wraps the negative remainder up by 16, [GetBlock] subtracts
    the chunk's position and finds a negative index. *)
Theorem X23_World_negative_coordinates (w : World.t R) (pos : Vec3 R)
    (blockType : String.string) (active : bool) :
  World.wellPlaced w ->
  ((f_trunc (vX pos) < 0)%Z /\ Z.rem (f_trunc (vX pos)) 16 <> 0%Z \/
   (f_trunc (vZ pos) < 0)%Z /\ Z.rem (f_trunc (vZ pos)) 16 <> 0%Z) ->
  exists w', World.SetBlock w pos blockType active = Some w' /\
    World.GetBlock w' pos = None.
Proof.
  intros Hw Hneg. cbn [f_trunc exactR] in Hneg.
  destruct (World_GetBlock_after_SetBlock pos blockType active Hw)
    as (chunk & chunk' & w' & Hall & Hs & Hset & Hw' & Hget).
  exists w'. split; [exact Hset|]. rewrite Hget.
  unfold Chunk.GetBlock.
  destruct (Chunk.outOfBounds _ _ _) eqn:Hb; [reflexivity|].
  apply outOfBounds_false in Hb. exfalso.
  destruct Hneg as [[Hn Hr]|[Hn Hr]].
  - pose proof (Z.rem_bound_pos_neg (ExactR.trunc (vX pos)) 16 eq_refl) as Hrb. lia.
  - pose proof (Z.rem_bound_pos_neg (ExactR.trunc (vZ pos)) 16 eq_refl) as Hrb. lia.
Qed.

Lemma X23_World_negative_coordinates_witness :
  exists w', World.SetBlock (World.NewWorld (F := R)) (mkVec3 (-3)%R 3%R 5%R)
               String.EmptyString true = Some w' /\
    World.GetBlock w' (mkVec3 (-3)%R 3%R 5%R) = None.
Proof.
  apply (X23_World_negative_coordinates (w := World.NewWorld (F := R))
           (mkVec3 (-3)%R 3%R 5%R) String.EmptyString true).
  - intros pos' c Hg. discriminate Hg.
  - left. cbn [vX f_trunc exactR]. rewrite (ExactR_trunc_IZR (-3)).
    split; [lia|discriminate].
Defined.

(** ** Player *)

(** X24.  The jump chain.  Whatever the player's own [OnGround] flag says,
    [Player.Jump] does to the body exactly what [RigidBody.Jump] does, so
    the body is launched only if it is [Grounded] itself: a player that is
    on the ground by the block probe alone loses its [OnGround] flag and
    does not jump.  The guard of the controller's [Jump] is the body's own
    guard once more.  [Player.Update] leaves the body alone and reports a
    grounded body as on the ground. *)
Theorem X24_jump_chain {D F : Type} {ops : Float32Ops F}
    (p : Player.t D F) (m : MovementController.t F) (delta : D)
    (world : World.t F) :
  Player.Body (Player.Jump p) = Jump (Player.Body p) /\
  Player.OnGround (Player.Jump p) = false /\
  (Grounded (Player.Body p) = false ->
   Player.Body (Player.Jump p) = Player.Body p) /\
  Controller.Jump m = Controller.with_Body (Jump (MovementController.Body m)) m /\
  Player.Body (Player.Update p delta world) = Player.Body p /\
  (Grounded (Player.Body p) = true ->
   Player.OnGround (Player.Update p delta world) = true).
Proof.
  assert (HJ : forall b : RigidBody F, Grounded b = false -> Jump b = b).
  { intros b Hb. unfold Jump. rewrite Hb. reflexivity. }
  assert (H1 : Player.Body (Player.Jump p) = Jump (Player.Body p)).
  { unfold Player.Jump.
    destruct (Player.OnGround p) eqn:Ho, (Grounded (Player.Body p)) eqn:Hg;
      cbn [orb]; try reflexivity.
    symmetry. apply HJ. exact Hg. }
  split; [exact H1|]. split; [|split; [|split; [|split]]].
  - unfold Player.Jump.
    destruct (Player.OnGround p) eqn:Ho, (Grounded (Player.Body p)) eqn:Hg;
      cbn [orb]; try reflexivity. exact Ho.
  - intros Hg. rewrite H1. apply HJ. exact Hg.
  - unfold Controller.Jump.
    destruct (Grounded (MovementController.Body m)) eqn:Hg; [reflexivity|].
    rewrite (HJ _ Hg). destruct m. reflexivity.
  - unfold Player.Update, Player.checkGrounded. cbv zeta.
    destruct (existsb _ _); reflexivity.
  - intros Hg. unfold Player.Update, Player.checkGrounded. cbv zeta.
    destruct (existsb _ _); cbn; [reflexivity|exact Hg].
Qed.

Lemma X24_jump_chain_witness :
  Player.Body
    (Player.Jump
       (Player.mk (Camera.mk 0%Z 0%Z (vz 0 0 1) (vz 1 0 0) (vz 0 1 0) (vz 0 2 0))
          ctl0 (fz 2) (fz 1) true)) = body0.
Proof.
  apply (proj1 (proj2 (proj2
           (X24_jump_chain
              (Player.mk (Camera.mk 0%Z 0%Z (vz 0 0 1) (vz 1 0 0) (vz 0 1 0) (vz 0 2 0))
                 ctl0 (fz 2) (fz 1) true) ctl0 0%Z World.NewWorld)))).
  reflexivity.
Defined.

(** *** Walking in exact arithmetic *)

Lemma flatten_unit (v : Vec3 R) :
  (vX v <> 0 \/ vZ v <> 0)%R -> Vlen (flatten v) = 1%R.
Proof.
  intros Hv. destruct (flatten_R v Hv) as [Hq ->].
  set (q := sqrt (vX v * vX v + 0 * 0 + vZ v * vZ v)) in *.
  assert (Hsq : (q * q = vX v * vX v + 0 * 0 + vZ v * vZ v)%R)
    by (apply sqrt_sqrt; nra).
  rewrite Vlen_R. cbn [vX vY vZ].
  replace (vX v * (1 / q) * (vX v * (1 / q)) + 0 * (1 / q) * (0 * (1 / q)) +
           vZ v * (1 / q) * (vZ v * (1 / q)))%R
    with ((vX v * vX v + 0 * 0 + vZ v * vZ v) * (1 / q * (1 / q)))%R by ring.
  rewrite <- Hsq.
  replace (q * q * (1 / q * (1 / q)))%R with 1%R by (field; lra).
  apply sqrt_1.
Qed.

Lemma Vnormalize_unit (v : Vec3 R) : Vlen v = 1%R -> Vnormalize v = v.
Proof.
  intros Hv. unfold Vnormalize. cbv zeta. rewrite Hv. unfold f1. exactR_ops.
  destruct v. cbn [vX vY vZ]. f_equal; field.
Qed.

Lemma flatten_idem (v : Vec3 R) :
  (vX v <> 0 \/ vZ v <> 0)%R -> flatten (flatten v) = flatten v.
Proof.
  intros Hv. pose proof (flatten_unit v Hv) as Hu.
  pose proof (flatten_level v) as Hy.
  set (f := flatten v) in *.
  assert (Hf : mkVec3 (vX f) 0%R (vZ f) = f).
  { destruct f. cbn [vX vY vZ] in *. subst. reflexivity. }
  unfold flatten at 1. cbv zeta. unfold f0. cbn [f_of_Z exactR].
  rewrite Hf, Hu. cbn [f_gtb exactR].
  destruct (ExactR_gtb_spec 1 0) as [_|Hn]; [|lra].
  apply Vnormalize_unit. exact Hu.
Qed.

(** One input axis alone: the step is the flattened direction times the
    speed. *)
Lemma Move_along (m : MovementController.t R) (a : R) (v other : Vec3 R) :
  MovementController.Flying m = false -> (0 < a)%R ->
  (vX v <> 0 \/ vZ v <> 0)%R ->
  MovementController.Move m a 0%R 0%R v other =
    Vmul (flatten v) (MovementController.Speed m) /\
  MovementController.Move m 0%R a 0%R other v =
    Vmul (flatten v) (MovementController.Speed m).
Proof.
  intros Hf Ha Hv. pose proof (flatten_unit v Hv) as Hu.
  assert (H : forall c : Vec3 R, c = Vmul (flatten v) a ->
            (if (Vlen c >? f0)%f32
             then Vmul (Vnormalize c) (MovementController.Speed m) else c) =
            Vmul (flatten v) (MovementController.Speed m)).
  { intros c ->. rewrite Vlen_scale by lra. rewrite Hu.
    unfold f0. cbn [f_gtb f_of_Z exactR].
    destruct (ExactR_gtb_spec (a * 1) 0) as [_|Hn]; [|lra].
    rewrite Vnormalize_scale by lra. rewrite Vnormalize_unit by exact Hu.
    reflexivity. }
  split; rewrite controller_Move_eq; cbv zeta; apply H;
    unfold combinedMovement; rewrite Hf; unfold Vadd, Vmul; exactR_ops;
    f_equal; ring.
Qed.

Lemma controller_Update_position {F : Type} {ops : Float32Ops F}
    (m : MovementController.t F) (forward right up : F) (v rv : Vec3 F) :
  Position (MovementController.Body (Controller.Update m forward right up v rv)) =
    Vadd (Position (MovementController.Body m))
         (MovementController.Move m forward right up v rv).
Proof.
  unfold Controller.Update. cbv zeta.
  cbn [MovementController.Body Controller.with_Body UpdateCollider set_Collider
       Position].
  rewrite (proj1 (AppendHistory_frame _)). reflexivity.
Qed.

(** X25.  Walking in exact arithmetic: with a controller that is not flying
    and a camera that does not look straight up or down, [MoveForward] with
    any positive amount moves the body by [Speed] along the flattened view
    direction, and [MoveRight] (camera's right vector not vertical) by
    [Speed] along the flattened right vector: the amount, which the game
    computes from the frame time, does not enter the step.  The camera and
    the [OnGround] flag are left as they were. *)
Theorem X25_Player_walk {D : Type} (p : Player.t D R) (amount : R) :
  MovementController.Flying (Player.Controller p) = false ->
  (0 < amount)%R ->
  let speed := MovementController.Speed (Player.Controller p) in
  let front := Camera.GetFront (Player.Camera p) in
  let right := Camera.GetRight (Player.Camera p) in
  ((vX front <> 0 \/ vZ front <> 0)%R ->
   Position (Player.Body (Player.MoveForward p amount)) =
     Vadd (Position (Player.Body p)) (Vmul (flatten front) speed)) /\
  ((vX right <> 0 \/ vZ right <> 0)%R ->
   Position (Player.Body (Player.MoveRight p amount)) =
     Vadd (Position (Player.Body p)) (Vmul (flatten right) speed)) /\
  Player.Camera (Player.MoveForward p amount) = Player.Camera p /\
  Player.OnGround (Player.MoveForward p amount) = Player.OnGround p /\
  Player.Camera (Player.MoveRight p amount) = Player.Camera p /\
  Player.OnGround (Player.MoveRight p amount) = Player.OnGround p.
Proof.
  intros Hf Ha speed front right. split; [|split; [|repeat split]].
  - intros Hv. unfold Player.MoveForward, Player.Body. cbv zeta.
    cbn [Player.Controller Player.set_Controller].
    rewrite controller_Update_position. f_equal.
    assert (Hv' : (vX (flatten front) <> 0 \/ vZ (flatten front) <> 0)%R).
    { destruct (flatten_R front Hv) as [Hq ->]. cbn [vX vZ].
      set (q := sqrt _) in *.
      assert (Hi : (0 < 1 / q)%R) by (apply Rdiv_lt_0_compat; lra).
      destruct Hv as [Hx|Hz]; [left|right]; nra. }
    pose proof (proj1 (@Move_along (Player.Controller p) amount (flatten front)
                         (Camera.GetRight (Player.Camera p)) Hf Ha Hv')) as HM.
    rewrite flatten_idem in HM by exact Hv. exact HM.
  - intros Hv. unfold Player.MoveRight, Player.Body. cbv zeta.
    cbn [Player.Controller Player.set_Controller].
    rewrite controller_Update_position. f_equal.
    exact (proj2 (@Move_along (Player.Controller p) amount right
                    (Camera.GetFront (Player.Camera p)) Hf Ha Hv)).
Qed.

Lemma X25_Player_walk_witness :
  Player.Camera
    (Player.MoveForward
       (Player.mk (Camera.mk 0%Z 0%Z (mkVec3 0%R 0%R 1%R) (mkVec3 1%R 0%R 0%R)
                     (mkVec3 0%R 1%R 0%R) (mkVec3 0%R 2%R 0%R))
          ctlR 2%R 1%R true) 3%R) =
  Camera.mk 0%Z 0%Z (mkVec3 0%R 0%R 1%R) (mkVec3 1%R 0%R 0%R)
    (mkVec3 0%R 1%R 0%R) (mkVec3 0%R 2%R 0%R).
Proof.
  apply (proj1 (proj2 (proj2
           (@X25_Player_walk Z
              (Player.mk (Camera.mk 0%Z 0%Z (mkVec3 0%R 0%R 1%R) (mkVec3 1%R 0%R 0%R)
                            (mkVec3 0%R 1%R 0%R) (mkVec3 0%R 2%R 0%R))
                 ctlR 2%R 1%R true) 3%R eq_refl ltac:(lra))))).
Defined.

(** ** Window.Debounce *)

Lemma Debounce_cases (s : Window.Action) (debounce : Window.Key -> bool)
    (k : Window.Key) :
  s <> Window.Repeat ->
  let '(fired, debounce') := Window.Debounce (fun _ => s) debounce k in
  (fired = true <-> s = Window.Press /\ debounce k = false) /\
  (debounce' k = false <-> s = Window.Release) /\
  (forall k', k' <> k -> debounce' k' = debounce k').
Proof.
  intros Hs. unfold Window.Debounce, Window.IsPressed, Window.IsReleased.
  cbv zeta.
  assert (Hset : forall b k', k' <> k -> Window.setKey k b debounce k' = debounce k').
  { intros b k' Hk. unfold Window.setKey. destruct (Z.eqb_spec k' k); congruence. }
  assert (Hsame : forall b, Window.setKey k b debounce k = b).
  { intros b. unfold Window.setKey. rewrite Z.eqb_refl. reflexivity. }
  destruct s; [| |congruence]; cbn [Window.Action_eqb andb].
  - split; [|split; [|apply Hset]].
    + split; [discriminate|intros [H _]; discriminate H].
    + rewrite Hsame. split; reflexivity.
  - destruct (debounce k) eqn:Hd; cbn [negb].
    + split; [|split; [|reflexivity]].
      * split; [discriminate|intros [_ H]; discriminate H].
      * rewrite Hd. split; discriminate.
    + split; [|split; [|apply Hset]].
      * split; auto.
      * rewrite Hsame. split; discriminate.
Qed.

Lemma pollKey_spec (k : Window.Key) (states : list Window.Action) :
  forall debounce : Window.Key -> bool,
  Forall (fun s => s <> Window.Repeat) states ->
  (forall i,
     nth i (fst (Window.pollKey k states debounce)) false = true <->
     nth i states Window.Release = Window.Press /\
     match i with
     | O => debounce k = false
     | S j => nth j states Window.Release = Window.Release
     end) /\
  (forall k', k' <> k -> snd (Window.pollKey k states debounce) k' = debounce k').
Proof.
  induction states as [|s rest IH]; intros debounce Hall.
  - split; [|reflexivity]. intros [|i]; cbn; split; try discriminate;
      intros [H _]; discriminate H.
  - inversion Hall as [|s' rest' Hs Hrest]; subst.
    pose proof (Debounce_cases debounce k Hs) as Hd.
    cbn [Window.pollKey].
    destruct (Window.Debounce (fun _ => s) debounce k) as [fired debounce'].
    destruct Hd as (Hf & Hflag & Hother).
    destruct (IH debounce' Hrest) as [IH1 IH2].
    destruct (Window.pollKey k rest debounce') as [fires debounce''].
    cbn [fst snd] in *. split.
    + intros [|j]; cbn [nth].
      * exact Hf.
      * rewrite IH1. destruct j as [|j']; cbn [nth]; [|reflexivity].
        rewrite Hflag. reflexivity.
    + intros k' Hk. rewrite IH2 by exact Hk. apply Hother. exact Hk.
Qed.

(** X26.  [Debounce] polled once per frame is a rising-edge detector: with
    the key reported as pressed or released in each frame and no pending
    entry for it at the start, the call of frame [i] answers [true] exactly
    when the key is pressed in that frame and was not in the frame before
    (or there is none); a key held down fires once.  Entries of other keys
    are never touched. *)
Theorem X26_Debounce_rising_edge (k : Window.Key) (states : list Window.Action)
    (debounce : Window.Key -> bool) :
  Forall (fun s => s <> Window.Repeat) states ->
  debounce k = false ->
  (forall i,
     nth i (fst (Window.pollKey k states debounce)) false = true <->
     nth i states Window.Release = Window.Press /\
     match i with
     | O => True
     | S j => nth j states Window.Release = Window.Release
     end) /\
  (forall k', k' <> k -> snd (Window.pollKey k states debounce) k' = debounce k').
Proof.
  intros Hall Hk. destruct (pollKey_spec k debounce Hall) as [H1 H2].
  split; [|exact H2].
  intros i. rewrite H1. destruct i; [|reflexivity]. tauto.
Qed.

Lemma X26_Debounce_rising_edge_witness :
  fst (Window.pollKey 70%Z
         [Window.Press; Window.Press; Window.Release; Window.Press]
         (fun _ => false)) = [true; false; false; true] /\
  (nth 1 (fst (Window.pollKey 70%Z
                 [Window.Press; Window.Press; Window.Release; Window.Press]
                 (fun _ => false))) false = true <->
   nth 1 [Window.Press; Window.Press; Window.Release; Window.Press] Window.Release
     = Window.Press /\
   nth 0 [Window.Press; Window.Press; Window.Release; Window.Press] Window.Release
     = Window.Release).
Proof.
  split; [reflexivity|].
  apply (proj1 (@X26_Debounce_rising_edge 70%Z
                  [Window.Press; Window.Press; Window.Release; Window.Press]
                  (fun _ => false)
                  ltac:(repeat constructor; discriminate) eq_refl) 1%nat).
Defined.

(** ** World.GetChunksInRadius *)

Lemma sq_le_iff_len (v : Vec3 R) (r : R) :
  (vX v * vX v + vY v * vY v + vZ v * vZ v <= r * r)%R <-> (Vlen v <= Rabs r)%R.
Proof.
  rewrite Vlen_R. set (s := (vX v * vX v + vY v * vY v + vZ v * vZ v)%R).
  assert (Hs : (0 <= s)%R) by (unfold s; nra).
  assert (Hr : sqrt (r * r) = Rabs r) by apply sqrt_Rsqr_abs.
  split; intros H.
  - rewrite <- Hr. apply sqrt_le_1_alt. exact H.
  - rewrite <- Hr in H. apply sqrt_le_0 in H; [exact H|exact Hs|nra].
Qed.

(** X27.  In exact arithmetic [GetChunksInRadius] returns exactly the chunks
    of the world whose centre, the chunk position plus (8, 128, 8), is no
    farther than [|radius|] from the given point; the sign of the radius
    does not matter. *)
Theorem X27_GetChunksInRadius (w : World.t R) (center : Vec3 R) (radius : R)
    (chunk : Chunk.t R) :
  (In chunk (World.GetChunksInRadius w center radius) <->
   In chunk (World.GetAllChunks w) /\
   (Vlen (Vsub (Vadd (Chunk.Position chunk) (mkVec3 8%R 128%R 8%R)) center)
      <= Rabs radius)%R) /\
  World.GetChunksInRadius w center (- radius)%R =
    World.GetChunksInRadius w center radius.
Proof.
  split.
  - unfold World.GetChunksInRadius, World.GetAllChunks. cbv zeta.
    rewrite filter_In.
    change (f_of_Z (Chunk.ChunkWidth / 2)) with 8%R.
    change (f_of_Z (Chunk.ChunkHeight / 2)) with 128%R.
    rewrite <- sq_le_iff_len.
    set (diff := Vsub (Vadd (Chunk.Position chunk) (mkVec3 8%R 128%R 8%R)) center).
    cbn [f_mul f_add f_ltb f_eqb exactR].
    destruct (ExactR_ltb_spec
                (vX diff * vX diff + vY diff * vY diff + vZ diff * vZ diff)
                (radius * radius)) as [Hlt|Hge]; cbn [orb].
    + split; intros [H1 _]; (split; [exact H1|]); [lra|reflexivity].
    + destruct (ExactR_eqb_spec
                  (vX diff * vX diff + vY diff * vY diff + vZ diff * vZ diff)
                  (radius * radius)) as [He|Hne].
      * split; intros [H1 _]; (split; [exact H1|]); [lra|reflexivity].
      * split; intros [H1 H2]; [discriminate H2|lra].
  - unfold World.GetChunksInRadius. cbv zeta. cbn [f_mul exactR].
    replace (- radius * - radius)%R with (radius * radius)%R by ring.
    reflexivity.
Qed.

(** ** The penetration vector of Box.Intersection *)

Lemma Intersection_snd_cases {F : Type} {ops : Float32Ops F} (b other : Box F) :
  fst (Intersection b other) = true ->
  snd (Intersection b other) =
    if ((depthX b other <? depthY b other) && (depthX b other <? depthZ b other))%f32
    then mkVec3 (depthX b other *
                 signF ((vX (Max other) - vX (Min b)) - (vX (Max b) - vX (Min other))))%f32
                f0 f0
    else if ((depthY b other <? depthX b other) && (depthY b other <? depthZ b other))%f32
    then mkVec3 f0
                (depthY b other *
                 signF ((vY (Max other) - vY (Min b)) - (vY (Max b) - vY (Min other))))%f32
                f0
    else mkVec3 f0 f0
                (depthZ b other *
                 signF ((vZ (Max other) - vZ (Min b)) - (vZ (Max b) - vZ (Min other))))%f32.
Proof.
  unfold Intersection.
  destruct (_ || _ || _ || _ || _ || _)%bool; [discriminate|]. intros _.
  cbv zeta. fold (depthX b other) (depthY b other) (depthZ b other).
  destruct (_ && _)%bool; [reflexivity|].
  destruct (_ && _)%bool; reflexivity.
Qed.

Lemma overlaps_R (a b : Box R) :
  fst (Intersection a b) = true <->
  (vX (Min a) <= vX (Max b) /\ vX (Min b) <= vX (Max a) /\
   vY (Min a) <= vY (Max b) /\ vY (Min b) <= vY (Max a) /\
   vZ (Min a) <= vZ (Max b) /\ vZ (Min b) <= vZ (Max a))%R.
Proof.
  rewrite Intersection_fst_tests. cbn [f_ltb f_gtb exactR].
  destruct (ExactR_ltb_spec (vX (Max a)) (vX (Min b))),
           (ExactR_gtb_spec (vX (Min a)) (vX (Max b))),
           (ExactR_ltb_spec (vY (Max a)) (vY (Min b))),
           (ExactR_gtb_spec (vY (Min a)) (vY (Max b))),
           (ExactR_ltb_spec (vZ (Max a)) (vZ (Min b))),
           (ExactR_gtb_spec (vZ (Min a)) (vZ (Max b)));
    cbn [orb negb]; split; intros H; try discriminate; try reflexivity; lra.
Qed.

(** The signed depth along one axis: [d1] is how far the other box reaches
    beyond the receiver's minimum, [d2] how far the receiver reaches beyond
    the other box's minimum. *)
Lemma axis_push_R (d1 d2 : R) :
  ((d1 < d2)%R -> (minf d1 d2 * signF (d1 - d2))%f32 = (- d1)%R) /\
  ((d2 <= d1)%R -> (minf d1 d2 * signF (d1 - d2))%f32 = d2).
Proof.
  unfold minf, signF, f0. cbn [f_ltb f_sub f_mul f_of_Z exactR].
  destruct (ExactR_ltb_spec d1 d2), (ExactR_ltb_spec (d1 - d2) 0);
    split; intros H; lra.
Qed.

Lemma depth_zero_R (lo1 hi1 lo2 hi2 : R) :
  (hi2 = lo1 /\ lo2 <= hi1 \/ lo2 = hi1 /\ lo1 <= hi2)%R ->
  minf (hi2 - lo1)%f32 (hi1 - lo2)%f32 = 0%R.
Proof.
  unfold minf. cbn [f_ltb f_sub exactR].
  destruct (ExactR_ltb_spec (hi2 - lo1) (hi1 - lo2)); intros [[H1 H2]|[H1 H2]]; lra.
Qed.

(** X28.  In exact arithmetic the penetration vector resolves the overlap:
    when [Intersection] answers [true], the other box moved by the returned
    vector still meets the receiver but only touches it, the depth along
    one axis being zero.  (The receiver moved by the opposite vector does
    the same.)  This holds for whichever axis the code picks, ties
    included. *)
Theorem X28_penetration_resolves (a b : Box R) :
  fst (Intersection a b) = true ->
  let b' := translate b (snd (Intersection a b)) in
  fst (Intersection a b') = true /\
  (depthX a b' = 0%R \/ depthY a b' = 0%R \/ depthZ a b' = 0%R).
Proof.
  intros H. rewrite (Intersection_snd_cases a b H).
  apply overlaps_R in H. destruct H as (Hx1 & Hx2 & Hy1 & Hy2 & Hz1 & Hz2).
  destruct (axis_push_R (vX (Max b) - vX (Min a)) (vX (Max a) - vX (Min b))) as [Px1 Px2].
  destruct (axis_push_R (vY (Max b) - vY (Min a)) (vY (Max a) - vY (Min b))) as [Py1 Py2].
  destruct (axis_push_R (vZ (Max b) - vZ (Min a)) (vZ (Max a) - vZ (Min b))) as [Pz1 Pz2].
  unfold depthX at 3, depthY at 3, depthZ at 3.
  cbn [f_sub exactR] in *.
  destruct (_ && _)%bool; [|destruct (_ && _)%bool]; cbv zeta;
    rewrite overlaps_R; unfold depthX, depthY, depthZ, translate, Vadd, f0;
    cbn [Min Max vX vY vZ f_add f_sub f_of_Z exactR].
  - destruct (Rlt_dec (vX (Max b) - vX (Min a)) (vX (Max a) - vX (Min b))) as [Hl|Hg].
    + rewrite (Px1 Hl). split; [lra|]. left. apply depth_zero_R. left. lra.
    + rewrite (Px2 ltac:(lra)). split; [lra|]. left. apply depth_zero_R. right. lra.
  - destruct (Rlt_dec (vY (Max b) - vY (Min a)) (vY (Max a) - vY (Min b))) as [Hl|Hg].
    + rewrite (Py1 Hl). split; [lra|]. right; left. apply depth_zero_R. left. lra.
    + rewrite (Py2 ltac:(lra)). split; [lra|]. right; left. apply depth_zero_R. right. lra.
  - destruct (Rlt_dec (vZ (Max b) - vZ (Min a)) (vZ (Max a) - vZ (Min b))) as [Hl|Hg].
    + rewrite (Pz1 Hl). split; [lra|]. right; right. apply depth_zero_R. left. lra.
    + rewrite (Pz2 ltac:(lra)). split; [lra|]. right; right. apply depth_zero_R. right. lra.
Qed.

Lemma X28_penetration_resolves_witness :
  fst (Intersection boxAR (translate boxBR (snd (Intersection boxAR boxBR)))) = true.
Proof.
  apply (@X28_penetration_resolves boxAR boxBR).
  apply overlaps_R. cbv [boxAR boxBR Min Max vX vY vZ]. lra.
Defined.

(** ** World.SetBlock changes one cell *)

Lemma activeAt_after_SetBlock (w : World.t R) (pos : Vec3 R)
    (ty : String.string) (a : bool) (pos' : Vec3 R) :
  World.wellPlaced w ->
  exists w', World.SetBlock w pos ty a = Some w' /\
    ((World.GetChunkKey (Chunk.PositionToChunkCoords pos'),
      Z.rem (ExactR.trunc (vX pos')) 16, ExactR.trunc (vY pos'),
      Z.rem (ExactR.trunc (vZ pos')) 16) <>
     (World.GetChunkKey (Chunk.PositionToChunkCoords pos),
      World.localCoord (ExactR.trunc (vX pos)), ExactR.trunc (vY pos),
      World.localCoord (ExactR.trunc (vZ pos))) ->
     Player.activeAt w' pos' = Player.activeAt w pos').
Proof.
  intros Hw.
  destruct (World_SetBlock_spec pos ty a Hw)
    as (chunk & chunk' & w' & Hp & Hall & Hfrom & Hs & Hset & Hlook).
  cbn [f_trunc exactR] in Hs.
  destruct (Chunk_SetBlock_spec (World.localCoord (ExactR.trunc (vX pos)))
              (ExactR.trunc (vY pos)) (World.localCoord (ExactR.trunc (vZ pos)))
              ty a Hall) as (c'' & Hs' & _ & Hp' & _ & _ & Hother).
  rewrite Hs in Hs'. injection Hs' as <-.
  exists w'. split; [exact Hset|]. intros Hne.
  unfold Player.activeAt, World.GetBlock, World.GetChunk. cbv zeta.
  rewrite Hlook.
  destruct (String.eqb_spec
              (World.GetChunkKey (Chunk.PositionToChunkCoords pos'))
              (World.GetChunkKey (Chunk.PositionToChunkCoords pos))) as [He|Hk];
    [|reflexivity].
  assert (Hcell : (Z.rem (ExactR.trunc (vX pos')) 16, ExactR.trunc (vY pos'),
                   Z.rem (ExactR.trunc (vZ pos')) 16) <>
                  (World.localCoord (ExactR.trunc (vX pos)), ExactR.trunc (vY pos),
                   World.localCoord (ExactR.trunc (vZ pos)))).
  { intros Heq. apply Hne. rewrite He. injection Heq as -> -> ->. reflexivity. }
  pose proof (chunk_key_R pos pos' He) as Hc.
  assert (Hget : forall c : Chunk.t R,
            Chunk.Position c = Chunk.PositionToChunkCoords pos ->
            Chunk.GetBlockFromWorldPos c pos' =
              Chunk.GetBlock c (Z.rem (ExactR.trunc (vX pos')) 16)
                (ExactR.trunc (vY pos')) (Z.rem (ExactR.trunc (vZ pos')) 16)).
  { intros c Hpc. unfold Chunk.GetBlockFromWorldPos. cbv zeta.
    rewrite Hpc, <- Hc, PositionToChunkCoords_R. cbn [vX vY vZ f_sub f_trunc exactR].
    rewrite !local_of_world_R.
    replace (vY pos' - 0)%R with (vY pos') by ring. reflexivity. }
  rewrite (Hget chunk' (eq_trans Hp' Hp)), (Hother _ _ _ Hcell).
  rewrite He.
  destruct Hfrom as [Hfound|[Hnone ->]].
  - unfold World.GetChunk in Hfound. cbv zeta in Hfound. rewrite Hfound.
    rewrite (Hget chunk Hp). reflexivity.
  - unfold World.GetChunk in Hnone. cbv zeta in Hnone. rewrite Hnone.
    unfold Chunk.GetBlock. destruct (Chunk.outOfBounds _ _ _); reflexivity.
Qed.

(** X29.  In exact arithmetic [World.SetBlock] changes the activity of one
    cell only: at every position that does not address the cell that was
    written (the same chunk key and the same local indices), a block is
    active afterwards exactly if it was before, also when the call had to
    create the chunk. *)
Theorem X29_World_SetBlock_one_cell (w : World.t R) (pos : Vec3 R)
    (blockType : String.string) (active : bool) (pos' : Vec3 R) :
  World.wellPlaced w ->
  exists w', World.SetBlock w pos blockType active = Some w' /\
    ((World.GetChunkKey (Chunk.PositionToChunkCoords pos'),
      Z.rem (f_trunc (vX pos')) 16, f_trunc (vY pos'),
      Z.rem (f_trunc (vZ pos')) 16) <>
     (World.GetChunkKey (Chunk.PositionToChunkCoords pos),
      World.localCoord (f_trunc (vX pos)), f_trunc (vY pos),
      World.localCoord (f_trunc (vZ pos))) ->
     Player.activeAt w' pos' = Player.activeAt w pos').
Proof. apply activeAt_after_SetBlock. Qed.

Lemma X29_World_SetBlock_one_cell_witness :
  exists w', World.SetBlock (World.NewWorld (F := R)) (mkVec3 20%R 3%R 5%R)
               String.EmptyString true = Some w' /\
    ((World.GetChunkKey (Chunk.PositionToChunkCoords (mkVec3 2%R 3%R 5%R)),
      Z.rem (f_trunc 2%R) 16, f_trunc 3%R, Z.rem (f_trunc 5%R) 16) <>
     (World.GetChunkKey (Chunk.PositionToChunkCoords (mkVec3 20%R 3%R 5%R)),
      World.localCoord (f_trunc 20%R), f_trunc 3%R, World.localCoord (f_trunc 5%R)) ->
     Player.activeAt w' (mkVec3 2%R 3%R 5%R) =
       Player.activeAt (World.NewWorld (F := R)) (mkVec3 2%R 3%R 5%R)).
Proof.
  apply (@X29_World_SetBlock_one_cell (World.NewWorld (F := R))
           (mkVec3 20%R 3%R 5%R) String.EmptyString true (mkVec3 2%R 3%R 5%R)).
  intros pos' c Hg. discriminate Hg.
Defined.

(** ** Box.Intersection in the two call orders *)

Lemma minf_comm_R (d1 d2 : R) : minf d1 d2 = minf d2 d1.
Proof.
  unfold minf. cbn [f_ltb exactR].
  destruct (ExactR_ltb_spec d1 d2), (ExactR_ltb_spec d2 d1); lra.
Qed.

Lemma axis_swap_R (d1 d2 : R) :
  let s := (minf d1 d2 * signF (d1 - d2))%f32 in
  let s' := (minf d1 d2 * signF (d2 - d1))%f32 in
  s' = (s * -1)%R \/ s' = s.
Proof.
  cbv zeta. unfold minf, signF, f0. cbn [f_ltb f_sub f_mul f_of_Z exactR].
  destruct (ExactR_ltb_spec d1 d2), (ExactR_ltb_spec (d1 - d2) 0),
           (ExactR_ltb_spec (d2 - d1) 0); try lra; (left; lra) || (right; lra).
Qed.

Lemma Vlen_opp (v : Vec3 R) : Vlen (Vmul v (-1)%R) = Vlen v.
Proof. rewrite !Vlen_R. unfold Vmul. exactR_ops. f_equal. ring. Qed.

(** X30.  In exact arithmetic the two call orders of [Intersection] return
    penetration vectors of the same length along the same axis: the vector
    of the swapped call is the opposite vector, except when the overlap is
    symmetric along that axis (equal depths on both sides), where both
    calls return the same vector. *)
Theorem X30_penetration_swap (a b : Box R) :
  fst (Intersection a b) = true ->
  let p := snd (Intersection a b) in
  let p' := snd (Intersection b a) in
  fst (Intersection b a) = true /\
  (p' = Vmul p (-1)%R \/ p' = p) /\
  Vlen p' = Vlen p.
Proof.
  intros H. cbv zeta.
  assert (H' : fst (Intersection b a) = true).
  { apply overlaps_R. apply overlaps_R in H. tauto. }
  split; [exact H'|].
  assert (Hd : snd (Intersection b a) = Vmul (snd (Intersection a b)) (-1)%R \/
               snd (Intersection b a) = snd (Intersection a b)).
  { rewrite (Intersection_snd_cases a b H), (Intersection_snd_cases b a H').
    assert (Hx : depthX b a = depthX a b) by apply minf_comm_R.
    assert (Hy : depthY b a = depthY a b) by apply minf_comm_R.
    assert (Hz : depthZ b a = depthZ a b) by apply minf_comm_R.
    rewrite Hx, Hy, Hz.
    pose proof (axis_swap_R (vX (Max b) - vX (Min a)) (vX (Max a) - vX (Min b))) as Sx.
    pose proof (axis_swap_R (vY (Max b) - vY (Min a)) (vY (Max a) - vY (Min b))) as Sy.
    pose proof (axis_swap_R (vZ (Max b) - vZ (Min a)) (vZ (Max a) - vZ (Min b))) as Sz.
    cbv zeta in Sx, Sy, Sz.
    destruct (_ && _)%bool; [|destruct (_ && _)%bool];
      unfold Vmul, f0, depthX, depthY, depthZ;
      cbn [vX vY vZ f_mul f_sub f_of_Z exactR] in *.
    - destruct Sx as [-> | ->]; [left; f_equal; lra|right; reflexivity].
    - destruct Sy as [-> | ->]; [left; f_equal; lra|right; reflexivity].
    - destruct Sz as [-> | ->]; [left; f_equal; lra|right; reflexivity]. }
  split; [exact Hd|].
  destruct Hd as [-> | ->]; [apply Vlen_opp|reflexivity].
Qed.

Lemma X30_penetration_swap_witness :
  Vlen (snd (Intersection boxBR boxAR)) = Vlen (snd (Intersection boxAR boxBR)).
Proof.
  apply (@X30_penetration_swap boxAR boxBR).
  apply overlaps_R. cbv [boxAR boxBR Min Max vX vY vZ]. lra.
Defined.
